(** * CourseSnag: the request scheduler, the search coordinator, the
    tracking store, the polling engine and the alert registry of
    [src/app.js], embedded as functions on explicit state.

    Conventions of the embedding.
    - Instants are [Date.now()] readings in milliseconds, as [Z].
    - A JavaScript [Error] is represented by its [message] string.
    - A promise is represented by the instant at which it settles and the
      way it settles; a suspended [async] function is represented by the
      continuation that its [await] resumes.
    - [Map] and [Set] objects keyed by strings are [gmap string _] and
      [gset string]; arrays are lists.
    - Requests made to the presentation, audio and notification
      collaborators are recorded in a log carried by the state. *)

From stdpp Require Import gmap strings list pretty.

Local Open Scope Z_scope.

(** ** Promises *)

Inductive settled (A : Type) : Type :=
| Fulfilled (value : A)
| Rejected (message : string).
Arguments Fulfilled {A} value.
Arguments Rejected {A} message.

Record promise (A : Type) : Type := Promise {
  settledAt : Z;
  outcome : settled A
}.
Arguments Promise {A} settledAt outcome.
Arguments settledAt {A} p.
Arguments outcome {A} p.

(** [p.then(onFulfilled, onRejected)]: the reaction that matches the way
    [p] settled is the one that runs. *)
Definition then_ {A R : Type} (p : promise A)
    (onFulfilled : A → R) (onRejected : string → R) : R :=
  match outcome p with
  | Fulfilled v => onFulfilled v
  | Rejected e => onRejected e
  end.

(** [p.catch(() => {})]: a rejection becomes a fulfilment with
    [undefined]; the value of a fulfilment is not read by anyone who
    holds the result, so it is forgotten. *)
Definition catch_ {A : Type} (p : promise A) : promise unit :=
  match outcome p with
  | Fulfilled _ => Promise (settledAt p) (Fulfilled tt)
  | Rejected _ => Promise (settledAt p) (Fulfilled tt)
  end.

(** ** Rate-limited API fetcher ([rateLimitedFetch], app.js 446-473) *)

Module Scheduler.

Definition RATE_LIMIT_MS : Z := 1000.

Section WithPayload.

(** The [data] member of a successful envelope. *)
Variable D : Type.

(** What [response.json()] yields. *)
Inductive body : Type :=
| Malformed (message : string)
| Envelope (status : string) (message : string) (data : D).

(** What [fetch(url)] yields: a rejection, or a response with its [ok]
    flag, its numeric [status] and its body. *)
Inductive transport : Type :=
| NetworkFailure (message : string)
| Response (ok : bool) (status : Z) (payload : body).

(** The part of [task] after [fetch] has been called (app.js 457-467). *)
Definition receive (t : transport) : settled D :=
  match t with
  | NetworkFailure e => Rejected e
  | Response ok status payload =>
      if negb ok then Rejected ("API error: " +:+ pretty status)
      else match payload with
           | Malformed e => Rejected e
           | Envelope st msg data =>
               if negb (String.eqb st "success")
               then Rejected (if String.eqb msg "" then "API returned error status" else msg)
               else Fulfilled data
           end
  end.

(** One call of [fetch]: the URL, the instant the call is made (the value
    stored in [state.lastRequestTime]) and the instant its task settles. *)
Record dispatch : Type := Dispatch {
  d_url : string;
  d_start : Z;
  d_finish : Z
}.

(** The scheduler's part of [state], with the log of [fetch] calls. *)
Record sched : Type := Sched {
  lastRequestTime : Z;
  requestQueue : promise unit;
  dispatched : list dispatch
}.

(** [state.lastRequestTime = 0] and [state.requestQueue =
    Promise.resolve()], created when the script is loaded at [t0]. *)
Definition initial (t0 : Z) : sched :=
  Sched 0 (Promise t0 (Fulfilled tt)) [].

(** What the environment decides about one call of [rateLimitedFetch]:
    when the call is made, how long after the queue's promise has settled
    the reaction job runs, by how much the clock has advanced beyond the
    requested delay when [Date.now()] is read the second time, how long
    the transport takes, and what it answers. *)
Record call : Type := Call {
  c_url : string;
  c_submitted : Z;
  c_lag : Z;
  c_late : Z;
  c_took : Z;
  c_answer : transport
}.

Definition timely (c : call) : Prop :=
  0 ≤ c_lag c ∧ 0 ≤ c_late c ∧ 0 ≤ c_took c.

(** The closure [task] (app.js 447-468), started at the instant [now]. *)
Definition task (c : call) (now : Z) (st : sched) : sched * promise D :=
  let timeSinceLast := now - lastRequestTime st in
  let delay :=
    if timeSinceLast <? RATE_LIMIT_MS then RATE_LIMIT_MS - timeSinceLast else 0 in
  let start := now + delay + c_late c in
  let finish := start + c_took c in
  (Sched start (requestQueue st)
         (dispatched st ++ [Dispatch (c_url c) start finish]),
   Promise finish (receive (c_answer c))).

(** [rateLimitedFetch(url)] (app.js 470-472).  The reaction registered on
    the queue runs no earlier than the call itself and no earlier than the
    instant the queue's promise settles. *)
Definition rateLimitedFetch (c : call) (st : sched) : sched * promise D :=
  let now := Z.max (c_submitted c) (settledAt (requestQueue st)) + c_lag c in
  let '(st', taskPromise) :=
    then_ (requestQueue st) (λ _, task c now st) (λ _, task c now st) in
  (Sched (lastRequestTime st') (catch_ taskPromise) (dispatched st'),
   taskPromise).

(** A burst of calls, in the order they are made. *)
Fixpoint submitAll (cs : list call) (st : sched) : sched * list (promise D) :=
  match cs with
  | [] => (st, [])
  | c :: cs' =>
      let '(st1, p) := rateLimitedFetch c st in
      let '(st2, ps) := submitAll cs' st1 in
      (st2, p :: ps)
  end.

(** Every two consecutive entries of a dispatch log are at least the
    minimum interval apart, and the later one starts after the earlier
    one has settled. *)
Fixpoint spaced (ds : list dispatch) : Prop :=
  match ds with
  | a :: ((b :: _) as rest) =>
      d_start a + RATE_LIMIT_MS ≤ d_start b ∧ d_finish a ≤ d_start b ∧ spaced rest
  | _ => True
  end.

(** The link between the log and the two fields the next task reads. *)
Definition linked (st : sched) : Prop :=
  match last (dispatched st) with
  | Some d => d_start d = lastRequestTime st ∧ d_finish d ≤ settledAt (requestQueue st)
  | None => True
  end.

End WithPayload.

Arguments Malformed {D} message.
Arguments Envelope {D} status message data.
Arguments NetworkFailure {D} message.
Arguments Response {D} ok status payload.
Arguments Call {D} c_url c_submitted c_lag c_late c_took c_answer.
Arguments c_url {D} c.
Arguments c_submitted {D} c.
Arguments c_lag {D} c.
Arguments c_late {D} c.
Arguments c_took {D} c.
Arguments c_answer {D} c.
Arguments timely {D} c.
Arguments receive {D} t.
Arguments task {D} c now st.
Arguments rateLimitedFetch {D} c st.
Arguments submitAll {D} cs st.

End Scheduler.

(** ** Tracking store, alert registry, alert trigger and polling engine

    Left out, because the code embedded here never reads them back: the
    markup of the search panel ([renderSearchResults]), the "last
    updated" label, the style classes and the [disabled] flag of the
    refresh button.  Writes to [localStorage] are taken to succeed.  The
    roster has been chosen ([state.currentRoster] is a string), and every
    section record of a response carries its [openStatus]. *)

Module App.

(** *** Data *)

(** An entry of [state.trackedSections] (app.js 928-938).  [classNbr] is
    always a string there ([String(classNbr)]); [lastCheckedAt] is the
    instant that [new Date().toISOString()] prints. *)
Record TrackedSection : Type := Tracked {
  classNbr : string;
  roster : string;
  subject : string;
  catalogNbr : string;
  title : string;
  section : string;
  ssrComponent : string;
  lastStatus : string;
  lastCheckedAt : Z
}.

(** The catalog service's records, as far as the code reads them.  A
    missing [enrollGroups] or [classSections] member is the empty list
    ([course.enrollGroups || []]). *)
Record classSection : Type := ClassSection {
  sec_classNbr : N;
  sec_openStatus : string
}.

Record enrollGroup : Type := EnrollGroup {
  classSections : list classSection
}.

Record course : Type := Course {
  crs_subject : string;
  crs_catalogNbr : string;
  enrollGroups : list enrollGroup
}.

(** A request made to a collaborator. *)
Inductive request : Type :=
| ShowIndicator (key : string)
| StartTone
| StopTone
| Notify (title body : string)
| FetchClasses (roster subject : string).

(** *** State *)

Record state : Type := State {
  currentRoster : string;
  pollingIntervalSec : Z;
  (** the period in ms of the [setInterval] timer that calls
      [refreshTrackedSections], when there is one *)
  pollingTimer : option Z;
  trackedSections : list TrackedSection;
  trackedKeySet : gset string;
  dismissedAlerts : gmap string Z;
  (** pending [setTimeout] callbacks of [dismissAlertFor5Minutes]: due
      instant and key, oldest first *)
  evictionTimers : list (Z * string);
  soundEnabled : bool;
  notifyEnabled : bool;
  isAlerting : bool;
  isRefreshing : bool;
  (** [localStorage]: [csw.tracked] and [csw.dismissedAlerts] *)
  storedTracked : option (list TrackedSection);
  storedDismissed : option (gmap string Z);
  (** the document: [data-tracked-key] of the rendered [.tracked-item]
      elements, keys [k] of the attached [alert-k] overlays, and the text
      of [els.trackedStatus] *)
  trackedItems : list string;
  alertOverlays : gset string;
  trackedStatus : string;
  requests : list request
}.

Definition set_tracked (l : list TrackedSection) (st : state) : state :=
  State (currentRoster st) (pollingIntervalSec st) (pollingTimer st)
        l (trackedKeySet st) (dismissedAlerts st)
        (evictionTimers st) (soundEnabled st) (notifyEnabled st) (isAlerting st)
        (isRefreshing st) (storedTracked st) (storedDismissed st)
        (trackedItems st) (alertOverlays st) (trackedStatus st) (requests st).

Definition set_keySet (s : gset string) (st : state) : state :=
  State (currentRoster st) (pollingIntervalSec st) (pollingTimer st)
        (trackedSections st) s (dismissedAlerts st)
        (evictionTimers st) (soundEnabled st) (notifyEnabled st) (isAlerting st)
        (isRefreshing st) (storedTracked st) (storedDismissed st)
        (trackedItems st) (alertOverlays st) (trackedStatus st) (requests st).

Definition set_dismissed (m : gmap string Z) (st : state) : state :=
  State (currentRoster st) (pollingIntervalSec st) (pollingTimer st)
        (trackedSections st) (trackedKeySet st) m
        (evictionTimers st) (soundEnabled st) (notifyEnabled st) (isAlerting st)
        (isRefreshing st) (storedTracked st) (storedDismissed st)
        (trackedItems st) (alertOverlays st) (trackedStatus st) (requests st).

Definition set_timers (ts : list (Z * string)) (st : state) : state :=
  State (currentRoster st) (pollingIntervalSec st) (pollingTimer st)
        (trackedSections st) (trackedKeySet st) (dismissedAlerts st)
        ts (soundEnabled st) (notifyEnabled st) (isAlerting st)
        (isRefreshing st) (storedTracked st) (storedDismissed st)
        (trackedItems st) (alertOverlays st) (trackedStatus st) (requests st).

Definition set_isAlerting (b : bool) (st : state) : state :=
  State (currentRoster st) (pollingIntervalSec st) (pollingTimer st)
        (trackedSections st) (trackedKeySet st) (dismissedAlerts st)
        (evictionTimers st) (soundEnabled st) (notifyEnabled st) b
        (isRefreshing st) (storedTracked st) (storedDismissed st)
        (trackedItems st) (alertOverlays st) (trackedStatus st) (requests st).

Definition set_isRefreshing (b : bool) (st : state) : state :=
  State (currentRoster st) (pollingIntervalSec st) (pollingTimer st)
        (trackedSections st) (trackedKeySet st) (dismissedAlerts st)
        (evictionTimers st) (soundEnabled st) (notifyEnabled st) (isAlerting st)
        b (storedTracked st) (storedDismissed st)
        (trackedItems st) (alertOverlays st) (trackedStatus st) (requests st).

Definition set_storedTracked (v : option (list TrackedSection)) (st : state) : state :=
  State (currentRoster st) (pollingIntervalSec st) (pollingTimer st)
        (trackedSections st) (trackedKeySet st) (dismissedAlerts st)
        (evictionTimers st) (soundEnabled st) (notifyEnabled st) (isAlerting st)
        (isRefreshing st) v (storedDismissed st)
        (trackedItems st) (alertOverlays st) (trackedStatus st) (requests st).

Definition set_storedDismissed (v : option (gmap string Z)) (st : state) : state :=
  State (currentRoster st) (pollingIntervalSec st) (pollingTimer st)
        (trackedSections st) (trackedKeySet st) (dismissedAlerts st)
        (evictionTimers st) (soundEnabled st) (notifyEnabled st) (isAlerting st)
        (isRefreshing st) (storedTracked st) v
        (trackedItems st) (alertOverlays st) (trackedStatus st) (requests st).

Definition set_document (items : list string) (overlays : gset string) (st : state) : state :=
  State (currentRoster st) (pollingIntervalSec st) (pollingTimer st)
        (trackedSections st) (trackedKeySet st) (dismissedAlerts st)
        (evictionTimers st) (soundEnabled st) (notifyEnabled st) (isAlerting st)
        (isRefreshing st) (storedTracked st) (storedDismissed st)
        items overlays (trackedStatus st) (requests st).

Definition set_trackedStatus (s : string) (st : state) : state :=
  State (currentRoster st) (pollingIntervalSec st) (pollingTimer st)
        (trackedSections st) (trackedKeySet st) (dismissedAlerts st)
        (evictionTimers st) (soundEnabled st) (notifyEnabled st) (isAlerting st)
        (isRefreshing st) (storedTracked st) (storedDismissed st)
        (trackedItems st) (alertOverlays st) s (requests st).

Definition set_pollingTimer (v : option Z) (st : state) : state :=
  State (currentRoster st) (pollingIntervalSec st) v
        (trackedSections st) (trackedKeySet st) (dismissedAlerts st)
        (evictionTimers st) (soundEnabled st) (notifyEnabled st) (isAlerting st)
        (isRefreshing st) (storedTracked st) (storedDismissed st)
        (trackedItems st) (alertOverlays st) (trackedStatus st) (requests st).

Definition set_requests (rs : list request) (st : state) : state :=
  State (currentRoster st) (pollingIntervalSec st) (pollingTimer st)
        (trackedSections st) (trackedKeySet st) (dismissedAlerts st)
        (evictionTimers st) (soundEnabled st) (notifyEnabled st) (isAlerting st)
        (isRefreshing st) (storedTracked st) (storedDismissed st)
        (trackedItems st) (alertOverlays st) (trackedStatus st) rs.

Definition log (r : request) (st : state) : state :=
  State (currentRoster st) (pollingIntervalSec st) (pollingTimer st)
        (trackedSections st) (trackedKeySet st) (dismissedAlerts st)
        (evictionTimers st) (soundEnabled st) (notifyEnabled st) (isAlerting st)
        (isRefreshing st) (storedTracked st) (storedDismissed st)
        (trackedItems st) (alertOverlays st) (trackedStatus st) (requests st ++ [r]).

(** The state when the script starts on a page whose [localStorage] holds
    [tracked] and [dismissed], with the default settings (app.js 19-51),
    after the roster [r] has been selected. *)
Definition fresh (r : string) (tracked : option (list TrackedSection))
    (dismissed : option (gmap string Z)) : state :=
  State r 60 None [] ∅ ∅ [] true true false false tracked dismissed [] ∅ "" [].

(** [`${item.roster}:${item.classNbr}`] *)
Definition trackedKey (item : TrackedSection) : string :=
  roster item +:+ ":" +:+ classNbr item.

(** The identity of a tracked section. *)
Definition identity (item : TrackedSection) : string * string :=
  (roster item, classNbr item).

(** *** Storage (app.js 98-104, 917-919) *)

Definition saveDismissedAlerts (st : state) : state :=
  set_storedDismissed (Some (dismissedAlerts st)) st.

Definition saveTrackedSections (st : state) : state :=
  set_storedTracked (Some (trackedSections st)) st.

(** [loadDismissedAlerts] (app.js 87-96): only entries that have not
    expired are restored, on top of what the map holds. *)
Definition loadDismissedAlerts (now : Z) (st : state) : state :=
  let stored := default ∅ (storedDismissed st) in
  set_dismissed (filter (λ kv, now < kv.2) stored ∪ dismissedAlerts st) st.

(** *** Rendering the tracked list (app.js 638-676): the list's markup is
    replaced, which also discards every overlay attached inside it. *)
Definition renderTrackedList (st : state) : state :=
  set_document (trackedKey <$> trackedSections st) ∅ st.

(** *** Sound (app.js 130-183): the calls are logged as requests; setting
    up and tearing down the oscillator is taken to succeed. *)

Definition startAlertSound (st : state) : state :=
  let st := log StartTone st in
  if isAlerting st then st else set_isAlerting true st.

Definition stopAlertSound (st : state) : state :=
  let st := log StopTone st in
  if negb (isAlerting st) then st else set_isAlerting false st.

(** [showNotification(title, body)] (app.js 249-264): whether the browser
    displays it is the notification collaborator's business. *)
Definition showNotification (title body : string) (st : state) : state :=
  log (Notify title body) st.

(** *** Alert suppression registry (app.js 352-391) *)

Definition FIVE_MINUTES : Z := 5 * 60 * 1000.

(** [isAlertDismissed(trackedKey)] at the instant [now]: the answer and
    the state the query leaves behind. *)
Definition isAlertDismissed (now : Z) (key : string) (st : state) : bool * state :=
  match dismissedAlerts st !! key with
  | None => (false, st)
  | Some expirationTime =>
      if expirationTime <? now
      then (false, saveDismissedAlerts (set_dismissed (delete key (dismissedAlerts st)) st))
      else (true, st)
  end.

(** [Array.prototype.some] over the tracked sections, with the callback of
    [hasActiveUndismissedOpenAlerts]: it stops at the first hit, and asks
    the registry only about sections whose status is ['O']. *)
Fixpoint someOpenUndismissed (now : Z) (items : list TrackedSection) (st : state)
    : bool * state :=
  match items with
  | [] => (false, st)
  | item :: rest =>
      if String.eqb (lastStatus item) "O"
      then let '(dismissed, st') := isAlertDismissed now (trackedKey item) st in
           if negb dismissed then (true, st') else someOpenUndismissed now rest st'
      else someOpenUndismissed now rest st
  end.

Definition hasActiveUndismissedOpenAlerts (now : Z) (st : state) : bool * state :=
  someOpenUndismissed now (trackedSections st) st.

(** The callback that [dismissAlertFor5Minutes] hands to [setTimeout]. *)
Definition evictionTimeout (key : string) (st : state) : state :=
  saveDismissedAlerts (set_dismissed (delete key (dismissedAlerts st)) st).

(** [dismissAlertFor5Minutes(trackedKey)] at the instant [now]. *)
Definition dismissAlertFor5Minutes (now : Z) (key : string) (st : state) : state :=
  let expirationTime := now + FIVE_MINUTES in
  let st := set_dismissed (<[key := expirationTime]> (dismissedAlerts st)) st in
  let st := saveDismissedAlerts st in
  let '(active, st) := hasActiveUndismissedOpenAlerts now st in
  let st := if negb active then stopAlertSound st else st in
  set_timers (evictionTimers st ++ [(now + FIVE_MINUTES, key)]) st.

(** The clock reaches [now]: every pending eviction that is due by then
    runs, oldest first; the others stay pending. *)
Fixpoint runDue (now : Z) (timers : list (Z * string)) (st : state) : state :=
  match timers with
  | [] => set_timers [] st
  | (due, key) :: rest =>
      if due <=? now
      then runDue now rest (evictionTimeout key st)
      else let st' := runDue now rest st in
           set_timers ((due, key) :: evictionTimers st') st'
  end.

Definition advance (now : Z) (st : state) : state :=
  runDue now (evictionTimers st) st.

(** *** Alert trigger (app.js 269-350) *)

(** [showAlertOverItem]: nothing happens when the overlay is there. *)
Definition showAlertOverItem (key : string) (st : state) : state :=
  if bool_decide (key ∈ alertOverlays st) then st
  else log (ShowIndicator key) (set_document (trackedItems st) ({[key]} ∪ alertOverlays st) st).

(** One round of the loop of [triggerOpenAlert] (app.js 274-295). *)
Definition alertOne (now : Z) (acc : state * list TrackedSection) (item : TrackedSection)
    : state * list TrackedSection :=
  let '(st, actionableSections) := acc in
  let key := trackedKey item in
  if negb (bool_decide (key ∈ trackedKeySet st)) then acc
  else let '(dismissed, st) := isAlertDismissed now key st in
       if dismissed then (st, actionableSections)
       else if bool_decide (key ∈ trackedItems st)
            then (showAlertOverItem key st, actionableSections ++ [item])
            else (st, actionableSections).

(** The text of the batch notification (app.js 304-308). *)
Definition alertMessage (actionableSections : list TrackedSection) : string :=
  match actionableSections with
  | [s] => subject s +:+ " " +:+ catalogNbr s +:+ " is now OPEN!"
  | _ => pretty (length actionableSections) +:+ " sections are now OPEN!"
  end.

Definition triggerOpenAlert (now : Z) (openedSections : list TrackedSection) (st : state)
    : state :=
  match openedSections with
  | [] => st
  | _ =>
      let '(st, actionableSections) := foldl (alertOne now) (st, []) openedSections in
      let st := if bool_decide (0 < length actionableSections)%nat && soundEnabled st
                then startAlertSound st else st in
      if bool_decide (0 < length actionableSections)%nat && notifyEnabled st
      then showNotification "CourseSnag Alert" (alertMessage actionableSections) st
      else st
  end.

(** [Array.prototype.filter] with a callback of the shape
    [before(item) && !isAlertDismissed(key) && after(item)]: the registry
    is asked only when [before] holds. *)
Fixpoint filterAsking (now : Z) (before after : TrackedSection → bool)
    (items : list TrackedSection) (st : state) : list TrackedSection * state :=
  match items with
  | [] => ([], st)
  | item :: rest =>
      if before item
      then let '(dismissed, st) := isAlertDismissed now (trackedKey item) st in
           let '(kept, st) := filterAsking now before after rest st in
           (if negb dismissed && after item then item :: kept else kept, st)
      else filterAsking now before after rest st
  end.

(** [showAlertsForOpenSections] (app.js 903-915), with the 100 ms timer
    it sets run to completion at the instant [later]. *)
Definition showAlertsForOpenSections (now later : Z) (st : state) : state :=
  let '(openSections, st) :=
    filterAsking now (λ item, String.eqb (lastStatus item) "O") (λ _, true)
                 (trackedSections st) st in
  if bool_decide (0 < length openSections)%nat
  then triggerOpenAlert later openSections st
  else st.

(** *** Tracking (app.js 895-987) *)

Definition loadTrackedSections (st : state) : state :=
  let l := default [] (storedTracked st) in
  renderTrackedList (set_keySet (list_to_set (trackedKey <$> l)) (set_tracked l st)).

(** [toggleTrack]; its arguments are the strings of the button's
    [data-*] attributes. *)
Definition toggleTrack (now : Z)
    (classNbr subject catalogNbr title section ssrComponent openStatus : string)
    (st : state) : state :=
  let trackKey := currentRoster st +:+ ":" +:+ classNbr in
  if bool_decide (trackKey ∈ trackedKeySet st) then st
  else
    let newItem := Tracked classNbr (currentRoster st) subject catalogNbr title
                           section ssrComponent openStatus now in
    let st := set_tracked (trackedSections st ++ [newItem]) st in
    let st := set_keySet ({[trackKey]} ∪ trackedKeySet st) st in
    let st := saveTrackedSections st in
    let st := renderTrackedList st in
    if String.eqb openStatus "O" then triggerOpenAlert now [newItem] st else st.

(** The test of the filter in [untrack]: [roster] is [None] for [null];
    the empty string is falsy too. *)
Definition matchesUntrack (classNbrStr : string) (roster' : option string)
    (t : TrackedSection) : bool :=
  let matchesClassNbr := String.eqb (classNbr t) classNbrStr in
  let matchesRoster :=
    match roster' with
    | None => true
    | Some r => String.eqb r "" || String.eqb (roster t) r
    end in
  matchesClassNbr && matchesRoster.

(** One round of the loop over [removed] (app.js 965-977). *)
Definition forgetKey (st : state) (key : string) : state :=
  let st := set_keySet (trackedKeySet st ∖ {[key]}) st in
  let st := match dismissedAlerts st !! key with
            | Some _ => saveDismissedAlerts (set_dismissed (delete key (dismissedAlerts st)) st)
            | None => st
            end in
  set_document (trackedItems st) (alertOverlays st ∖ {[key]}) st.

Definition untrack (now : Z) (classNbr : string) (roster' : option string) (st : state)
    : state :=
  let removed := trackedKey <$> filter (λ t, matchesUntrack classNbr roster' t = true)
                                       (trackedSections st) in
  let st := set_tracked (filter (λ t, matchesUntrack classNbr roster' t ≠ true)
                                (trackedSections st)) st in
  let st := foldl forgetKey st removed in
  let '(active, st) := hasActiveUndismissedOpenAlerts now st in
  let st := if negb active then stopAlertSound st else st in
  renderTrackedList (saveTrackedSections st).

(** The click handlers of an overlay's two buttons (app.js 333-347). *)
Definition clickDismiss (now : Z) (key : string) (st : state) : state :=
  let st := dismissAlertFor5Minutes now key st in
  set_document (trackedItems st) (alertOverlays st ∖ {[key]}) st.

(** *** Polling (app.js 429-444, 992-1111) *)

Definition stopPolling (st : state) : state :=
  match pollingTimer st with
  | Some _ => set_pollingTimer None st
  | None => st
  end.

Definition startPolling (st : state) : state :=
  let st := stopPolling st in
  set_pollingTimer (Some (pollingIntervalSec st * 1000)) st.

(** [msg.includes(pat)] *)
Definition includes (msg pat : string) : bool :=
  match String.index 0 pat msg with Some _ => true | None => false end.

Definition getUserFriendlyError (msg context : string) : string :=
  if includes msg "Failed to fetch" || includes msg "NetworkError"
  then "Unable to connect. Check your internet connection."
  else if includes msg "API error: 404" then context +:+ " not found."
  else if includes msg "API error: 429" then "Too many requests. Please wait a moment."
  else if includes msg "API error: 5" then "Cornell server error. Try again later."
  else if String.eqb msg "" then "An unexpected error occurred." else msg.

(** What [await searchClasses(roster, subject, '')] resumes with, and
    when. *)
Record reply : Type := Reply {
  r_at : Z;
  r_result : settled (list course)
}.

(** A value of the [groups] object (app.js 1006-1013).  Its [items] are
    references to the objects of [state.trackedSections]; a reference is
    the position of the object in that array, which no step of a tick
    changes. *)
Record group : Type := Group {
  g_roster : string;
  g_subject : string;
  g_items : list nat
}.

(** [groups[key]] is created on first use and keeps its place: the keys
    contain a colon, so [Object.values] lists them in insertion order. *)
Fixpoint addToGroups (key : string) (item : TrackedSection) (i : nat)
    (groups : list (string * group)) : list (string * group) :=
  match groups with
  | [] => [(key, Group (roster item) (subject item) [i])]
  | (k, g) :: rest =>
      if String.eqb k key
      then (k, Group (g_roster g) (g_subject g) (g_items g ++ [i])) :: rest
      else (k, g) :: addToGroups key item i rest
  end.

Definition groupTracked (items : list TrackedSection) : list (string * group) :=
  foldl (λ groups ii, addToGroups (roster ii.2 +:+ ":" +:+ subject ii.2) ii.2 ii.1 groups)
        [] (imap pair items).

(** The [statusIndex] map of one response (app.js 1021-1029); a later
    [set] for the same class number replaces an earlier one. *)
Definition statusIndexOf (classes : list course) : gmap string string :=
  foldl (λ idx crs,
    foldl (λ idx eg,
      foldl (λ idx sec, <[pretty (sec_classNbr sec) := sec_openStatus sec]> idx)
            idx (classSections eg))
      idx (enrollGroups crs))
    ∅ classes.

(** [oldStatus !== 'O' && newStatus === 'O'] *)
Definition opens (oldStatus newStatus : string) : bool :=
  negb (String.eqb oldStatus "O") && String.eqb newStatus "O".

Definition observed (item : TrackedSection) (newStatus : string) (now : Z) : TrackedSection :=
  Tracked (classNbr item) (roster item) (subject item) (catalogNbr item) (title item)
          (section item) (ssrComponent item) newStatus now.

(** What a tick carries besides the state: the references pushed to
    [newlyOpened], and [updatedCount]. *)
Definition progress : Type := state * list nat * nat.

(** One round of the loop over [group.items] (app.js 1031-1053). *)
Definition refreshItem (now : Z) (statusIndex : gmap string string)
    (acc : progress) (i : nat) : progress :=
  let '(st, newlyOpened, updatedCount) := acc in
  match trackedSections st !! i with
  | None => acc
  | Some item =>
      match statusIndex !! classNbr item with
      | None => acc
      | Some newStatus =>
          let newlyOpened :=
            if opens (lastStatus item) newStatus then newlyOpened ++ [i] else newlyOpened in
          (set_tracked (<[i := observed item newStatus now]> (trackedSections st)) st,
           newlyOpened, S updatedCount)
      end
  end.

Definition refreshItems (now : Z) (statusIndex : gmap string string)
    (items : list nat) (acc : progress) : progress :=
  foldl (refreshItem now statusIndex) acc items.

(** The loop over the groups (app.js 1019-1054): the first rejected fetch
    leaves the loop with the error; otherwise the loop ends with the
    instant of the last response. *)
Fixpoint refreshGroups (api : string → string → reply) (groups : list (string * group))
    (now : Z) (acc : progress) : (progress * Z) + (state * string) :=
  match groups with
  | [] => inl (acc, now)
  | (_, g) :: rest =>
      let '(st, newlyOpened, updatedCount) := acc in
      let st := log (FetchClasses (g_roster g) (g_subject g)) st in
      let r := api (g_roster g) (g_subject g) in
      match r_result r with
      | Rejected error => inr (st, error)
      | Fulfilled classes =>
          refreshGroups api rest (r_at r)
            (refreshItems (r_at r) (statusIndexOf classes) (g_items g)
                          (st, newlyOpened, updatedCount))
      end
  end.

(** One round of the loop that shows the overlays again (app.js
    1081-1087). *)
Definition resurface (st : state) (item : TrackedSection) : state :=
  if bool_decide (trackedKey item ∈ trackedItems st)
  then showAlertOverItem (trackedKey item) st else st.

(** The rest of the [try] block after the loop (app.js 1056-1087). *)
Definition refreshFinish (now : Z) (newlyOpened : list nat) (st : state) : state :=
  let st := saveTrackedSections st in
  let st := renderTrackedList st in
  let st := set_trackedStatus "" st in
  let activeTrackedKeys : gset string := list_to_set (trackedKey <$> trackedSections st) in
  let actionableNewlyOpened :=
    filter (λ item, trackedKey item ∈ activeTrackedKeys)
           (omap (λ i, trackedSections st !! i) newlyOpened) in
  let st := if bool_decide (0 < length actionableNewlyOpened)%nat
            then triggerOpenAlert now actionableNewlyOpened st else st in
  let newlyOpenedSet : gset string := list_to_set (trackedKey <$> actionableNewlyOpened) in
  let '(currentlyOpen, st) :=
    filterAsking now (λ item, String.eqb (lastStatus item) "O")
                 (λ item, negb (bool_decide (trackedKey item ∈ newlyOpenedSet)))
                 (trackedSections st) st in
  foldl resurface st currentlyOpen.

(** [refreshTrackedSections], started at [now], run to its end with the
    responses that [api] gives.  The user does nothing while the tick
    waits for its responses. *)
Definition refreshTrackedSections (now : Z) (api : string → string → reply) (st : state)
    : state :=
  match trackedSections st with
  | [] => set_trackedStatus "" st
  | _ =>
      if isRefreshing st then st
      else
        let st := set_trackedStatus "Refreshing..." (set_isRefreshing true st) in
        let st :=
          match refreshGroups api (groupTracked (trackedSections st)) now (st, [], 0%nat) with
          | inl (st, newlyOpened, _, now) => refreshFinish now newlyOpened st
          | inr (st, error) => set_trackedStatus (getUserFriendlyError error "Refresh") st
          end in
        set_isRefreshing false st
  end.

(** *** The application as a whole *)

(** The part of [init] (app.js 1296-1344) that builds the state from the
    storage: [loadTrackedSections], [loadDismissedAlerts], and
    [startPolling] once the roster [r] is known. *)
Definition init (r : string) (now : Z) (tracked : option (list TrackedSection))
    (dismissed : option (gmap string Z)) : state :=
  startPolling (loadDismissedAlerts now (loadTrackedSections (fresh r tracked dismissed))).

(** What can happen to the application: the page is loaded again, the
    user tracks or untracks a section or dismisses an overlay that is on
    the page, a polling tick runs, the alerts of the page load are shown,
    time passes. *)
Inductive action : Type :=
| Reload (r : string) (now : Z)
| Track (now : Z) (classNbr subject catalogNbr title section ssrComponent openStatus : string)
| Untrack (now : Z) (classNbr : string) (roster : option string)
| Dismiss (now : Z) (key : string)
| Tick (now : Z) (api : string → string → reply)
| PageLoadAlerts (now later : Z)
| Elapse (now : Z).

Definition act (st : state) (a : action) : state :=
  match a with
  | Reload r now => init r now (storedTracked st) (storedDismissed st)
  | Track now classNbr subject catalogNbr title section ssrComponent openStatus =>
      toggleTrack now classNbr subject catalogNbr title section ssrComponent openStatus st
  | Untrack now classNbr roster => untrack now classNbr roster st
  | Dismiss now key =>
      if bool_decide (key ∈ alertOverlays st) then clickDismiss now key st else st
  | Tick now api => refreshTrackedSections now api st
  | PageLoadAlerts now later => showAlertsForOpenSections now later st
  | Elapse now => advance now st
  end.

(** *** Notions used to state the properties *)

(** Everything of a state but the tracked list. *)
Definition untracked (st : state) : state := set_tracked [] st.

(** Everything of a state but the tracked list and the request log. *)
Definition skeleton (st : state) : state := set_requests [] (set_tracked [] st).

Definition logAll (rs : list request) (st : state) : state := foldl (λ s r, log r s) st rs.

Definition fetchOf (kg : string * group) : request :=
  FetchClasses (g_roster kg.2) (g_subject kg.2).

(** The two representations of the tracked set, and its stored copy. *)
Definition tracking (st : state)
    : list TrackedSection * gset string * option (list TrackedSection) :=
  (trackedSections st, trackedKeySet st, storedTracked st).

(** Everything of a state but the registry and its stored copy. *)
Definition unregistered (st : state) : state :=
  set_storedDismissed None (set_dismissed ∅ st).

(** The list has one entry per key, the key set is the set of the keys of
    the list, and so is it for the stored copy of the list. *)
Definition consistent (st : state) : Prop :=
  NoDup (trackedKey <$> trackedSections st)
  ∧ trackedKeySet st = list_to_set (trackedKey <$> trackedSections st)
  ∧ ∀ l, storedTracked st = Some l → NoDup (trackedKey <$> l).

(** The state in which the loop over the groups ends, either way. *)
Definition loopEnd (r : (progress * Z) + (state * string)) : state :=
  match r with
  | inl (st, _, _, _) => st
  | inr (st, _) => st
  end.

(** A request for an overlay. *)
Definition isIndicator (r : request) : Prop := ∃ key, r = ShowIndicator key.

(** Everything of a state but the registry, the overlays, the tone and
    the request log. *)
Definition quiet (st : state) : state :=
  unregistered (set_requests [] (set_isAlerting false (set_document (trackedItems st) ∅ st))).

(** From [st0] to [st] the requests [added] were made, all of them for
    overlays, the overlays of [st] are those of [st0] and the requested
    ones, and nothing else changed but the registry. *)
Definition indicated (st0 st : state) (added : list request) : Prop :=
  requests st = requests st0 ++ added
  ∧ Forall isIndicator added
  ∧ (∀ key, key ∈ alertOverlays st ↔ key ∈ alertOverlays st0 ∨ ShowIndicator key ∈ added)
  ∧ isAlerting st = isAlerting st0
  ∧ quiet st = quiet st0.

(** The requests for the tone and for the batch notification that one
    call of [triggerOpenAlert] can make: at most one of each, the tone
    first. *)
Definition loudPart (loud : list request) : Prop :=
  ∃ (tone notify : bool) (body : string),
    loud = (if tone then [StartTone] else [])
           ++ (if notify then [Notify "CourseSnag Alert" body] else []).

Definition isFetch (r : request) : Prop := ∃ roster subject, r = FetchClasses roster subject.

(** The references held by a list of groups. *)
Definition allItems (gs : list (string * group)) : list nat :=
  concat ((λ kg, g_items kg.2) <$> gs).

(** The section at position [i] was not open in [orig] and is open in
    [cur]. *)
Definition justOpened (orig cur : list TrackedSection) (i : nat) : Prop :=
  ∃ item item', orig !! i = Some item ∧ lastStatus item ≠ "O"
                ∧ cur !! i = Some item' ∧ lastStatus item' = "O".

(** Some pending eviction for [key] is due by [now]. *)
Definition dueFor (now : Z) (key : string) (timers : list (Z * string)) : bool :=
  existsb (λ t, (t.1 <=? now) && String.eqb t.2 key) timers.

End App.

(** ** Search coordinator (app.js 500-518, 782-873, 1116-1121)

    [renderSearchResults] is left out: it rewrites the markup of the
    panel, and the one assignment it makes (an empty status text while an
    error is shown) changes nothing, the status being empty already
    then. *)

Module Search.

Import App.

(** *** Input parsing.  The text of the search box is taken to be ASCII. *)

Definition isUpper (a : Ascii.ascii) : bool :=
  let n := Ascii.N_of_ascii a in (65 <=? n)%N && (n <=? 90)%N.

Definition isLower (a : Ascii.ascii) : bool :=
  let n := Ascii.N_of_ascii a in (97 <=? n)%N && (n <=? 122)%N.

Definition isDigit (a : Ascii.ascii) : bool :=
  let n := Ascii.N_of_ascii a in (48 <=? n)%N && (n <=? 57)%N.

(** The characters that [.] of a regular expression does not match. *)
Definition isLineTerminator (a : Ascii.ascii) : bool :=
  let n := Ascii.N_of_ascii a in (n =? 10)%N || (n =? 13)%N.

Fixpoint trimStart (s : string) : string :=
  match s with
  | String a s' => if Ascii.is_space a then trimStart s' else s
  | EmptyString => EmptyString
  end.

Definition trim (s : string) : string :=
  String.rev (trimStart (String.rev (trimStart s))).

Fixpoint toUpperCase (s : string) : string :=
  match s with
  | String a s' =>
      String (if isLower a then Ascii.ascii_of_N (Ascii.N_of_ascii a - 32)%N else a) (toUpperCase s')
  | EmptyString => EmptyString
  end.

(** [inputValue.trim().toUpperCase()] *)
Definition normalize (inputValue : string) : string := toUpperCase (trim inputValue).

(** The longest prefix matched by [[A-Z]+], and what follows it. *)
Fixpoint spanUpper (s : string) : string * string :=
  match s with
  | String a s' =>
      if isUpper a then let '(p, r) := spanUpper s' in (String a p, r) else (EmptyString, s)
  | EmptyString => (EmptyString, EmptyString)
  end.

Fixpoint anyChar (p : Ascii.ascii → bool) (s : string) : bool :=
  match s with
  | String a s' => p a || anyChar p s'
  | EmptyString => false
  end.

(** [parseSearchInput].  Its regular expression asks for a run of capital
    letters (group 1), then white space, then either nothing or a digit
    followed by characters other than line terminators (group 2), up to
    the end of the text.  When there is a match it is unique, and group 1
    is the longest run of letters. *)
Definition parseSearchInput (subjectSet : gset string) (input : string)
    : option (string * string) :=
  let trimmed := normalize input in
  if String.eqb trimmed "" then None
  else
    let '(subject, rest) := spanUpper trimmed in
    if String.eqb subject "" then None
    else
      let group2 := trimStart rest in
      let matched :=
        match group2 with
        | EmptyString => true
        | String a _ => isDigit a && negb (anyChar isLineTerminator group2)
        end in
      if negb matched then None
      else if negb (bool_decide (subject ∈ subjectSet)) then None
      else Some (subject, trim group2).

(** *** State *)

(** A call of [performSearch] suspended at its [await]: the constants it
    captured. *)
Record pending : Type := Pending {
  p_requestSeq : nat;
  p_normalizedInput : string;
  p_subject : string;
  p_query : string
}.

Record state : Type := State {
  currentRoster : string;
  subjectSet : gset string;
  (** [els.searchInput.value] *)
  searchInput : string;
  cachedSubject : option string;
  cachedClasses : list course;
  searchResults : list course;
  expandedCourses : gset string;
  isSearching : bool;
  searchRequestSeq : nat;
  searchError : option string;
  (** the text of [els.searchStatus] *)
  searchStatus : string;
  (** whether a [setTimeout(performSearch, DEBOUNCE_DELAY_MS)] is pending *)
  searchDebounceTimer : bool;
  (** the calls of [searchClasses] made so far (roster, subject), and the
      ones that have not settled *)
  fetched : list (string * string);
  inFlight : list pending
}.

Definition set_input (v : string) (st : state) : state :=
  State (currentRoster st) (subjectSet st) v (cachedSubject st) (cachedClasses st)
        (searchResults st) (expandedCourses st) (isSearching st) (searchRequestSeq st)
        (searchError st) (searchStatus st) (searchDebounceTimer st) (fetched st) (inFlight st).

Definition set_cache (subj : option string) (classes : list course) (st : state) : state :=
  State (currentRoster st) (subjectSet st) (searchInput st) subj classes
        (searchResults st) (expandedCourses st) (isSearching st) (searchRequestSeq st)
        (searchError st) (searchStatus st) (searchDebounceTimer st) (fetched st) (inFlight st).

Definition set_results (v : list course) (st : state) : state :=
  State (currentRoster st) (subjectSet st) (searchInput st) (cachedSubject st) (cachedClasses st)
        v (expandedCourses st) (isSearching st) (searchRequestSeq st)
        (searchError st) (searchStatus st) (searchDebounceTimer st) (fetched st) (inFlight st).

Definition set_expanded (v : gset string) (st : state) : state :=
  State (currentRoster st) (subjectSet st) (searchInput st) (cachedSubject st) (cachedClasses st)
        (searchResults st) v (isSearching st) (searchRequestSeq st)
        (searchError st) (searchStatus st) (searchDebounceTimer st) (fetched st) (inFlight st).

Definition set_isSearching (v : bool) (st : state) : state :=
  State (currentRoster st) (subjectSet st) (searchInput st) (cachedSubject st) (cachedClasses st)
        (searchResults st) (expandedCourses st) v (searchRequestSeq st)
        (searchError st) (searchStatus st) (searchDebounceTimer st) (fetched st) (inFlight st).

Definition set_seq (v : nat) (st : state) : state :=
  State (currentRoster st) (subjectSet st) (searchInput st) (cachedSubject st) (cachedClasses st)
        (searchResults st) (expandedCourses st) (isSearching st) v
        (searchError st) (searchStatus st) (searchDebounceTimer st) (fetched st) (inFlight st).

Definition set_error (v : option string) (st : state) : state :=
  State (currentRoster st) (subjectSet st) (searchInput st) (cachedSubject st) (cachedClasses st)
        (searchResults st) (expandedCourses st) (isSearching st) (searchRequestSeq st)
        v (searchStatus st) (searchDebounceTimer st) (fetched st) (inFlight st).

Definition setSearchStatus (v : string) (st : state) : state :=
  State (currentRoster st) (subjectSet st) (searchInput st) (cachedSubject st) (cachedClasses st)
        (searchResults st) (expandedCourses st) (isSearching st) (searchRequestSeq st)
        (searchError st) v (searchDebounceTimer st) (fetched st) (inFlight st).

Definition set_timer (v : bool) (st : state) : state :=
  State (currentRoster st) (subjectSet st) (searchInput st) (cachedSubject st) (cachedClasses st)
        (searchResults st) (expandedCourses st) (isSearching st) (searchRequestSeq st)
        (searchError st) (searchStatus st) v (fetched st) (inFlight st).

Definition set_fetches (issued : list (string * string)) (waiting : list pending)
    (st : state) : state :=
  State (currentRoster st) (subjectSet st) (searchInput st) (cachedSubject st) (cachedClasses st)
        (searchResults st) (expandedCourses st) (isSearching st) (searchRequestSeq st)
        (searchError st) (searchStatus st) (searchDebounceTimer st) issued waiting.

(** The state once the subjects of the roster [r] are loaded and nothing
    has been searched yet (app.js 19-51). *)
Definition fresh (r : string) (subjects : gset string) : state :=
  State r subjects "" None [] [] ∅ false 0 None "" false [] [].

(** *** [performSearch] *)

(** [isCurrentSearch()] for the call that captured [p]. *)
Definition isCurrentSearch (p : pending) (st : state) : bool :=
  bool_decide (p_requestSeq p = searchRequestSeq st)
  && String.eqb (normalize (searchInput st)) (p_normalizedInput p).

(** From the last staleness check to the end (app.js 833-857). *)
Definition showResults (p : pending) (st : state) : state :=
  if negb (isCurrentSearch p st) then st
  else
    let st := set_error None st in
    let st :=
      if negb (String.eqb (p_query p) "")
      then
        let st := set_results
                    (filter (λ crs, String.prefix (p_query p) (crs_catalogNbr crs) = true)
                            (cachedClasses st)) st in
        setSearchStatus ("Showing " +:+ pretty (length (searchResults st))
                         +:+ " result(s) for " +:+ p_subject p +:+ " " +:+ p_query p) st
      else
        let st := set_results (cachedClasses st) st in
        setSearchStatus ("Showing " +:+ pretty (length (searchResults st))
                         +:+ " class(es) in " +:+ p_subject p) st in
    match searchResults st with
    | [crs] => set_expanded {[crs_subject crs +:+ "-" +:+ crs_catalogNbr crs]} st
    | _ => st
    end.

(** The call of [performSearch] up to its [await], or to its end when it
    does not fetch (app.js 783-812, 833-857). *)
Definition performSearch (st : state) : state :=
  let inputValue := searchInput st in
  let normalizedInput := normalize inputValue in
  let requestSeq := S (searchRequestSeq st) in
  let st := set_seq requestSeq st in
  match parseSearchInput (subjectSet st) inputValue with
  | None =>
      let st := set_results [] st in
      let st := set_cache None [] st in
      let st := set_expanded ∅ st in
      let st := set_error None st in
      setSearchStatus "" st
  | Some (subject, query) =>
      let p := Pending requestSeq normalizedInput subject query in
      let needsFetch := negb (bool_decide (cachedSubject st = Some subject)) in
      if needsFetch
      then
        let st := set_expanded ∅ st in
        let st := set_isSearching true st in
        set_fetches (fetched st ++ [(currentRoster st, subject)]) (inFlight st ++ [p]) st
      else showResults p st
  end.

(** What the [await] of the suspended call [p] resumes with (app.js
    813-831, then 833-857). *)
Definition resumeSearch (p : pending) (result : settled (list course)) (st : state) : state :=
  match result with
  | Fulfilled classes =>
      if negb (isCurrentSearch p st) then st
      else
        let st := set_cache (Some (p_subject p)) classes st in
        if negb (isCurrentSearch p st) then st
        else showResults p (set_isSearching false st)
  | Rejected error =>
      if negb (isCurrentSearch p st) then st
      else
        let st := set_error (Some (getUserFriendlyError error "Subject")) st in
        let st := setSearchStatus "" st in
        let st := set_cache None [] st in
        let st := set_results [] st in
        set_isSearching false st
  end.

(** [debounceSearch] (app.js 860-873) *)
Definition debounceSearch (st : state) : state :=
  match parseSearchInput (subjectSet st) (searchInput st) with
  | Some (subject, _) =>
      if bool_decide (Some subject = cachedSubject st)
      then performSearch (set_timer false st)
      else set_timer true (set_timer false st)
  | None => set_timer true (set_timer false st)
  end.

(** [onSearchInput] (app.js 1116-1121) *)
Definition onSearchInput (st : state) : state :=
  let st := if String.eqb (trim (searchInput st)) "" then setSearchStatus "" st else st in
  debounceSearch st.

(** *** What can happen to the coordinator *)

Inductive event : Type :=
| Input (text : string)
| DebounceFires
| Respond (k : nat) (result : settled (list course)).

(** [Input]: the user edits the box.  [DebounceFires]: the pending timer
    runs [performSearch].  [Respond k r]: the [k]-th unsettled fetch
    settles with [r] and its caller resumes. *)
Definition step (st : state) (e : event) : state :=
  match e with
  | Input text => onSearchInput (set_input text st)
  | DebounceFires =>
      if searchDebounceTimer st then performSearch (set_timer false st) else st
  | Respond k result =>
      match inFlight st !! k with
      | Some p => resumeSearch p result (set_fetches (fetched st) (delete k (inFlight st)) st)
      | None => st
      end
  end.

Definition run (es : list event) (st : state) : state := foldl step st es.

(** *** Notions used to state the properties *)

(** What [showResults] displays when the call is still current. *)
Definition shown (p : pending) (classes : list course) : list course :=
  if String.eqb (p_query p) "" then classes
  else filter (λ crs, String.prefix (p_query p) (crs_catalogNbr crs) = true) classes.

End Search.

(** ** Scenarios *)

Module Scenarios.

(** *** Scheduler: three calls made in the same millisecond, the second
    and the third of which fail. *)

Definition burst : list (Scheduler.call nat) :=
  [ Scheduler.Call "u1" 5000 0 0 120
      (Scheduler.Response true 200 (Scheduler.Envelope "success" "" 1%nat));
    Scheduler.Call "u2" 5000 0 3 80 (Scheduler.Response false 500 (Scheduler.Malformed ""));
    Scheduler.Call "u3" 5000 1 0 2500 (Scheduler.NetworkFailure "Failed to fetch") ].

(** *** Application *)

Import App.

Definition cs2110 : string := "FA25:1234".

(** The first visit. *)
Definition firstVisit : state := init "FA25" 0 None None.

(** The service reports section 1234 of CS as open. *)
Definition csOpen : string → string → reply :=
  λ _ _, Reply 2000 (Fulfilled [Course "CS" "2110" [EnrollGroup [ClassSection 1234 "O"]]]).

(** A closed section is tracked, a tick sees it open (the alert goes
    off), and later the page is loaded again. *)
Definition reloaded : state :=
  foldl act firstVisit
        [ Track 0 "1234" "CS" "2110" "OOP" "001" "LEC" "C";
          Tick 1000 csOpen;
          Reload "FA25" 5000 ].

(** An open section is tracked and its alert dismissed at 1 s; it is
    untracked, tracked again at 271 s, and its alert is dismissed again at
    272 s. *)
Definition dismissedTwice : state :=
  foldl act firstVisit
        [ Track 0 "1234" "CS" "2110" "OOP" "001" "LEC" "O";
          Dismiss 1000 cs2110;
          Untrack 2000 "1234" (Some "FA25");
          Elapse 271000;
          Track 271000 "1234" "CS" "2110" "OOP" "001" "LEC" "O";
          Dismiss 272000 cs2110 ].

(** Three tracked sections in two groups, CS and MATH. *)
Definition secA : TrackedSection := Tracked "1234" "FA25" "CS" "2110" "OOP" "001" "LEC" "C" 0.
Definition secB : TrackedSection := Tracked "5678" "FA25" "CS" "3110" "FP" "001" "LEC" "O" 0.
Definition secC : TrackedSection := Tracked "9012" "FA25" "MATH" "1920" "Calc" "002" "DIS" "W" 0.

Definition threeTracked : state :=
  init "FA25" 0 (Some [secA; secB; secC]) None.

Definition csListing : list course :=
  [ Course "CS" "2110" [EnrollGroup [ClassSection 1234 "O"]];
    Course "CS" "3110" [EnrollGroup [ClassSection 5678 "O"]] ].

(** The CS listing arrives, the fetch for MATH fails. *)
Definition mathDown : string → string → reply :=
  λ _ subject,
    if String.eqb subject "CS" then Reply 2000 (Fulfilled csListing)
    else Reply 3000 (Rejected "API error: 503").

Definition csGroup : string * group := ("FA25:CS", Group "FA25" "CS" [0; 1]%nat).
Definition mathGroup : string * group := ("FA25:MATH", Group "FA25" "MATH" [2]%nat).

(** *** Search *)

Import Search.

Definition searchStart : Search.state := Search.fresh "FA25" {["CS"; "MATH"]}.

Definition csCourses : list course := [Course "CS" "2110" []; Course "CS" "3110" []].

(** "CS" has been entered and its fetch is in flight. *)
Definition csInFlight : Search.state := run [Input "CS"; DebounceFires] searchStart.

(** The fetch for "CS" has completed. *)
Definition csCached : Search.state := step csInFlight (Respond 0 (Fulfilled csCourses)).

(** "CS2110" is entered while the fetch for "CS" is in flight. *)
Definition csEdited : Search.state := step csInFlight (Input "CS2110").

(** With "CS" cached, "MATH" has been entered and its fetch is in
    flight. *)
Definition mathInFlight : Search.state := run [Input "MATH"; DebounceFires] csCached.

End Scenarios.

(** ** More of the application *)

(** *** Catalog records, rosters, and notions used to state the properties
    (app.js 596-604, 748-767, 1202-1210) *)

Module Catalog.

Import App.


(** A roster as [fetchRosters] returns it. *)
Record rosterRecord : Type := Roster {
  slug : string;
  descr : string;
  isDefaultRoster : string
}.

(** The roster that [loadRosters] selects (app.js 753-754): the first one
    flagged ['Y'], else the first one, else none ([undefined]). *)
Definition selectRoster (rosters : list rosterRecord) : option string :=
  match list_find (λ r, isDefaultRoster r = "Y") rosters with
  | Some (_, defaultRoster) => Some (slug defaultRoster)
  | None => slug <$> head rosters
  end.

(** A tracked section is open and the registry does not hold an entry
    for it that is still running at [now]. *)
Definition openUnsuppressed (now : Z) (st : state) (item : TrackedSection) : Prop :=
  lastStatus item = "O"
  ∧ ¬ ∃ expirationTime,
        dismissedAlerts st !! trackedKey item = Some expirationTime ∧ now ≤ expirationTime.

(** The stored list and the list in memory hold the same sections, in
    the same order (their statuses may differ). *)
Definition sameKeysStored (st : state) : Prop :=
  trackedKey <$> default [] (storedTracked st) = trackedKey <$> trackedSections st.

(** The key under which [refreshTrackedSections] groups a section:
    [`${item.roster}:${item.subject}`]. *)
Definition groupKey (item : TrackedSection) : string :=
  roster item +:+ ":" +:+ subject item.



(** A tracked section without what a tick observes: its status and the
    time of its last check. *)
Definition catalogEntry (item : TrackedSection) : TrackedSection := observed item "" 0.


(** The page shows the tracked sections: the rendered items are the
    tracked sections, in their order, and every overlay is attached to a
    rendered item. *)
Definition onPage (st : state) : Prop :=
  trackedItems st = trackedKey <$> trackedSections st
  ∧ ∀ key, key ∈ alertOverlays st → key ∈ trackedItems st.

(** From [st] to [st'] the rendered items and the keys of the tracked
    sections are kept, and every overlay was there or has been attached
    to a rendered item. *)
Definition rendered (st st' : state) : Prop :=
  trackedItems st' = trackedItems st
  ∧ trackedKey <$> trackedSections st' = trackedKey <$> trackedSections st
  ∧ ∀ key, key ∈ alertOverlays st' → key ∈ alertOverlays st ∨ key ∈ trackedItems st.





(** [onTestSound] (app.js 1202-1210) *)
Definition onTestSound (st : state) : state :=
  if isAlerting st then stopAlertSound st else startAlertSound st.

End Catalog.

(** *** Settings (app.js 396-424, 1197-1200, 1280-1291) *)

Module Settings.

Import App.

Definition POLLING_OPTIONS : list Z := [10; 30; 60; 300].

(** The record stored under [csw.settings].  It is one that
    [saveSettings] wrote, or the default: two booleans and a number. *)
Record settings : Type := StoredSettings {
  s_soundEnabled : bool;
  s_notifyEnabled : bool;
  s_pollingIntervalSec : Z
}.

(** The application state with the stored settings beside it. *)
Record store : Type := Store {
  app : App.state;
  storedSettings : option settings
}.

Definition set_settings (sound notify : bool) (interval : Z) (st : App.state) : App.state :=
  State (currentRoster st) interval (pollingTimer st)
        (trackedSections st) (trackedKeySet st) (dismissedAlerts st)
        (evictionTimers st) sound notify (isAlerting st)
        (isRefreshing st) (storedTracked st) (storedDismissed st)
        (trackedItems st) (alertOverlays st) (trackedStatus st) (requests st).

(** [loadSettings]; [support] is what [hasNotificationSupport()]
    answers. *)
Definition loadSettings (support : bool) (s : store) : store :=
  let stored := default (StoredSettings true true 60) (storedSettings s) in
  let notify := if negb support then false else s_notifyEnabled stored in
  let interval :=
    if bool_decide (s_pollingIntervalSec stored ∈ POLLING_OPTIONS)
    then s_pollingIntervalSec stored else 60 in
  Store (set_settings (s_soundEnabled stored) notify interval (app s)) (storedSettings s).

Definition saveSettings (s : store) : store :=
  Store (app s)
        (Some (StoredSettings (soundEnabled (app s)) (notifyEnabled (app s))
                              (pollingIntervalSec (app s)))).

(** [onSoundToggle], with the state of the check box. *)
Definition onSoundToggle (checked : bool) (s : store) : store :=
  saveSettings
    (Store (set_settings checked (notifyEnabled (app s)) (pollingIntervalSec (app s)) (app s))
           (storedSettings s)).

(** [onPollingClick], with the number read from the button's
    [data-interval]. *)
Definition onPollingClick (intervalSec : Z) (s : store) : store :=
  if negb (bool_decide (intervalSec ∈ POLLING_OPTIONS)) then s
  else
    let s := Store (set_settings (soundEnabled (app s)) (notifyEnabled (app s)) intervalSec
                                 (app s))
                   (storedSettings s) in
    let s := saveSettings s in
    Store (startPolling (app s)) (storedSettings s).

(** What can happen to the settings. *)
Inductive action : Type :=
| Load (support : bool)
| SoundToggle (checked : bool)
| PollingClick (intervalSec : Z)
| StartPolling
| StopPolling.

Definition act (s : store) (a : action) : store :=
  match a with
  | Load support => loadSettings support s
  | SoundToggle checked => onSoundToggle checked s
  | PollingClick intervalSec => onPollingClick intervalSec s
  | StartPolling => Store (startPolling (app s)) (storedSettings s)
  | StopPolling => Store (stopPolling (app s)) (storedSettings s)
  end.




End Settings.

(** *** Attribute escaping (app.js 719-726) *)

Module Markup.

(** [str.replace(/c/g, rep)] for a single character [c].  A text is
    taken byte by byte; the five characters replaced are ASCII. *)
Fixpoint replaceAll (c : Ascii.ascii) (rep : string) (s : string) : string :=
  match s with
  | EmptyString => EmptyString
  | String a s' =>
      if Ascii.eqb a c then rep +:+ replaceAll c rep s' else String a (replaceAll c rep s')
  end.

Definition ampersand : Ascii.ascii := Ascii.ascii_of_N 38.
Definition doubleQuote : Ascii.ascii := Ascii.ascii_of_N 34.
Definition singleQuote : Ascii.ascii := Ascii.ascii_of_N 39.
Definition lessThan : Ascii.ascii := Ascii.ascii_of_N 60.
Definition greaterThan : Ascii.ascii := Ascii.ascii_of_N 62.

(** [escapeAttr(str)], for a string [str]. *)
Definition escapeAttr (str : string) : string :=
  replaceAll greaterThan "&gt;"
    (replaceAll lessThan "&lt;"
       (replaceAll singleQuote "&#39;"
          (replaceAll doubleQuote "&quot;"
             (replaceAll ampersand "&amp;" str)))).

Fixpoint occurs (c : Ascii.ascii) (s : string) : bool :=
  match s with
  | EmptyString => false
  | String a s' => Ascii.eqb a c || occurs c s'
  end.


(** What the five replacements make of one character, and of a string
    taken character by character. *)
Definition entity (a : Ascii.ascii) : string :=
  if Ascii.eqb a ampersand then "&amp;"
  else if Ascii.eqb a doubleQuote then "&quot;"
  else if Ascii.eqb a singleQuote then "&#39;"
  else if Ascii.eqb a lessThan then "&lt;"
  else if Ascii.eqb a greaterThan then "&gt;"
  else String a EmptyString.

Fixpoint escapeEach (s : string) : string :=
  match s with
  | EmptyString => EmptyString
  | String a s' => entity a +:+ escapeEach s'
  end.


End Markup.

(** *** More handlers of the search panel (app.js 878-890, 1123-1135,
    1188-1195) *)

Module SearchHandlers.

Import Search.

(** [toggleCourse(courseId)] *)
Definition toggleCourse (courseId : string) (st : state) : state :=
  if bool_decide (courseId ∈ expandedCourses st)
  then set_expanded (expandedCourses st ∖ {[courseId]}) st
  else set_expanded ({[courseId]} ∪ expandedCourses st) st.

(** The search part of [onRefreshClick]: a cached subject (a non-empty
    string) is forgotten and the search is made again. *)
Definition onRefreshClick (st : state) : state :=
  match cachedSubject st with
  | Some subject =>
      if String.eqb subject "" then st
      else performSearch (set_cache None (cachedClasses st) st)
  | None => st
  end.

(** [onSearchShortcutClick], for a button of the panel whose
    [data-subject] is [subject]. *)
Definition onSearchShortcutClick (subject : string) (st : state) : state :=
  let subject := normalize subject in
  if String.eqb subject "" then st
  else performSearch (set_timer false (setSearchStatus "" (set_input subject st))).


(** What can happen to the search panel: the events of the coordinator
    and the three clicks handled above.  Of [onRefreshClick] only the part
    that concerns the search is here. *)
Inductive panelEvent : Type :=
| Coordinator (e : event)
| ShortcutClick (subject : string)
| RefreshClick
| ToggleCourse (courseId : string).

Definition handle (st : state) (e : panelEvent) : state :=
  match e with
  | Coordinator e => step st e
  | ShortcutClick subject => onSearchShortcutClick subject st
  | RefreshClick => onRefreshClick st
  | ToggleCourse courseId => toggleCourse courseId st
  end.

(** The events that call [performSearch] otherwise than from the
    handler of the text box. *)
Definition mayFetch (e : panelEvent) : bool :=
  match e with
  | Coordinator DebounceFires | ShortcutClick _ | RefreshClick => true
  | _ => false
  end.

(** What holds of the panel for the roster [r] with the subjects
    [subjects]: every fetch made was for [r] and one of the subjects; the
    suspended calls wait in the order of their sequence numbers, none of
    which is beyond the latest, each for one of the subjects; the results
    are taken from the cached listing; and the cached subject is one of
    the subjects. *)
Definition coherent (r : string) (subjects : gset string) (st : state) : Prop :=
  currentRoster st = r
  ∧ subjectSet st = subjects
  ∧ Forall (λ rs, rs.1 = r ∧ rs.2 ∈ subjects) (fetched st)
  ∧ Forall (λ p, (p_requestSeq p ≤ searchRequestSeq st)%nat ∧ p_subject p ∈ subjects)
           (inFlight st)
  ∧ (∀ i j p q, (i < j)%nat → inFlight st !! i = Some p → inFlight st !! j = Some q →
                (p_requestSeq p < p_requestSeq q)%nat)
  ∧ searchResults st `sublist_of` cachedClasses st
  ∧ (∀ s, cachedSubject st = Some s → s ∈ subjects).

(** The responses of a list of settled fetches, as events. *)
Definition responses (rs : list (nat * settled (list App.course))) : list event :=
  (λ kr, Respond kr.1 kr.2) <$> rs.

(** Every character of [s] satisfies [p]. *)
Fixpoint allChars (p : Ascii.ascii → bool) (s : string) : bool :=
  match s with
  | String a s' => p a && allChars p s'
  | EmptyString => true
  end.


End SearchHandlers.

(** ** What the user is told when a fetch fails (app.js 429-444, 457-467) *)

Module Failures.

Import Scheduler App.

(** The text that a caller of the scheduler shows for the answer [t] of
    the transport, when it reports errors with [context]: the task throws
    (app.js 457-467), the caller's [catch] passes the error to
    [getUserFriendlyError].  [None] when the task returns the data. *)
Definition reported {D : Type} (t : transport D) (context : string) : option string :=
  match receive t with
  | Rejected message => Some (getUserFriendlyError message context)
  | Fulfilled _ => None
  end.

End Failures.


(** ** More scenarios *)

Module MoreScenarios.

Import App.

(** An open section is tracked with the tone going, and nothing else. *)
Definition oneOpen : state :=
  foldl act Scenarios.firstVisit [Track 0 "1234" "CS" "2110" "OOP" "001" "LEC" "O"].


(** Every fetch for a class listing succeeds, with the CS listing. *)
Definition allUp : string → string → reply :=
  λ _ _, Reply 2000 (Fulfilled Scenarios.csListing).




End MoreScenarios.


(** * Properties *)

(** ** The request scheduler *)

Module SchedulerFacts.

Import Scheduler Scenarios.

Section WithPayload.

Context {D : Type}.

Implicit Types (c : call D) (st : sched) (ds : list dispatch).

Lemma spaced_snoc ds d :
  spaced ds →
  (∀ a, last ds = Some a →
        d_start a + RATE_LIMIT_MS ≤ d_start d ∧ d_finish a ≤ d_start d) →
  spaced (ds ++ [d]).
Proof.
  induction ds as [|a [|b ds'] IH]; intros Hsp Hlast.
  - exact I.
  - simpl. specialize (Hlast a eq_refl). tauto.
  - destruct Hsp as (H1 & H2 & H3).
    change (d_start a + RATE_LIMIT_MS ≤ d_start b ∧ d_finish a ≤ d_start b
            ∧ spaced ((b :: ds') ++ [d])).
    split; [exact H1|]. split; [exact H2|].
    apply IH; [exact H3|]. intros x Hx. apply Hlast. exact Hx.
Qed.

Lemma spaced_lookup ds i a b :
  spaced ds → ds !! i = Some a → ds !! S i = Some b →
  d_start a + RATE_LIMIT_MS ≤ d_start b ∧ d_finish a ≤ d_start b.
Proof.
  revert i. induction ds as [|x [|y ds'] IH]; intros i Hsp Ha Hb.
  - discriminate.
  - destruct i; discriminate.
  - destruct Hsp as (H1 & H2 & H3). destruct i as [|i].
    + simpl in Ha, Hb. injection Ha as <-. injection Hb as <-. tauto.
    + apply (IH i); assumption.
Qed.

(** What one call does to the scheduler, whatever way the queue's promise
    had settled. *)
Lemma rateLimitedFetch_unfold c st :
  rateLimitedFetch c st =
  (let now := Z.max (c_submitted c) (settledAt (requestQueue st)) + c_lag c in
   let r := task c now st in
   (Sched (lastRequestTime r.1) (catch_ r.2) (dispatched r.1), r.2)).
Proof.
  unfold rateLimitedFetch, then_. destruct (outcome (requestQueue st)); reflexivity.
Qed.

Lemma catch_settledAt {A} (p : promise A) : settledAt (catch_ p) = settledAt p.
Proof. unfold catch_. destruct (outcome p); reflexivity. Qed.

Lemma catch_outcome {A} (p : promise A) : outcome (catch_ p) = Fulfilled tt.
Proof. unfold catch_. destruct (outcome p); reflexivity. Qed.

Lemma rateLimitedFetch_dispatched c st :
  ∃ d, dispatched (rateLimitedFetch c st).1 = dispatched st ++ [d] ∧ d_url d = c_url c.
Proof. rewrite rateLimitedFetch_unfold. eexists. split; reflexivity. Qed.

Lemma rateLimitedFetch_outcome c st :
  outcome (rateLimitedFetch c st).2 = receive (c_answer c).
Proof. rewrite rateLimitedFetch_unfold. reflexivity. Qed.

Lemma rateLimitedFetch_queue c st :
  outcome (requestQueue (rateLimitedFetch c st).1) = Fulfilled tt.
Proof. rewrite rateLimitedFetch_unfold. apply catch_outcome. Qed.

(** The heart of the rate limit: the delay computed from
    [state.lastRequestTime] puts the new dispatch a full interval after
    the previous one. *)
Lemma rateLimitedFetch_keeps c st :
  timely c → linked st → spaced (dispatched st) →
  linked (rateLimitedFetch c st).1 ∧ spaced (dispatched (rateLimitedFetch c st).1).
Proof.
  intros (Hlag & Hlate & Htook) Hlink Hsp.
  rewrite rateLimitedFetch_unfold. cbn -[Z.max Z.add Z.sub Z.ltb].
  split.
  - unfold linked. cbn -[Z.max Z.add Z.sub Z.ltb]. rewrite last_snoc.
    cbn -[Z.max Z.add Z.sub Z.ltb]. rewrite catch_settledAt.
    cbn -[Z.max Z.add Z.sub Z.ltb]. split; [reflexivity|lia].
  - apply spaced_snoc; [exact Hsp|].
    intros a Ha. unfold linked in Hlink. rewrite Ha in Hlink.
    destruct Hlink as [Hstart Hfin].
    cbn -[Z.max Z.add Z.sub Z.ltb]. unfold RATE_LIMIT_MS in *.
    destruct (Z.ltb_spec
                (Z.max (c_submitted c) (settledAt (requestQueue st)) + c_lag c
                 - lastRequestTime st) 1000); lia.
Qed.

Lemma submitAll_keeps (cs : list (call D)) st :
  Forall timely cs → linked st → spaced (dispatched st) →
  linked (submitAll cs st).1 ∧ spaced (dispatched (submitAll cs st).1).
Proof.
  revert st. induction cs as [|c cs IH]; intros st Hall Hlink Hsp.
  - split; assumption.
  - inversion Hall as [|? ? Hc Hcs]; subst. simpl.
    destruct (rateLimitedFetch_keeps c st Hc Hlink Hsp) as [Hl' Hs'].
    destruct (rateLimitedFetch c st) as [st1 p] eqn:E1. simpl in Hl', Hs'.
    specialize (IH st1 Hcs Hl' Hs').
    destruct (submitAll cs st1) as [st2 ps]. exact IH.
Qed.

Lemma submitAll_urls (cs : list (call D)) st :
  d_url <$> dispatched (submitAll cs st).1 = (d_url <$> dispatched st) ++ (c_url <$> cs).
Proof.
  revert st. induction cs as [|c cs IH]; intros st.
  - simpl. rewrite app_nil_r. reflexivity.
  - simpl. destruct (rateLimitedFetch_dispatched c st) as (d & Hd & Hu).
    destruct (rateLimitedFetch c st) as [st1 p] eqn:E1. simpl in Hd.
    specialize (IH st1). destruct (submitAll cs st1) as [st2 ps]. simpl in *.
    rewrite IH, Hd, fmap_app, <- app_assoc. simpl. rewrite Hu. reflexivity.
Qed.

Lemma submitAll_outcomes (cs : list (call D)) st :
  outcome <$> (submitAll cs st).2 = (λ c, receive (c_answer c)) <$> cs.
Proof.
  revert st. induction cs as [|c cs IH]; intros st.
  - reflexivity.
  - simpl. pose proof (rateLimitedFetch_outcome c st) as Ho.
    destruct (rateLimitedFetch c st) as [st1 p] eqn:E1. simpl in Ho.
    specialize (IH st1). destruct (submitAll cs st1) as [st2 ps].
    cbn [fst snd] in *. rewrite !fmap_cons. f_equal; assumption.
Qed.

Lemma submitAll_queue (cs : list (call D)) st :
  outcome (requestQueue st) = Fulfilled tt →
  outcome (requestQueue (submitAll cs st).1) = Fulfilled tt.
Proof.
  revert st. induction cs as [|c cs IH]; intros st Hq.
  - exact Hq.
  - simpl. pose proof (rateLimitedFetch_queue c st) as Ho.
    destruct (rateLimitedFetch c st) as [st1 p] eqn:E1. simpl in Ho.
    specialize (IH st1 Ho). destruct (submitAll cs st1) as [st2 ps]. exact IH.
Qed.

End WithPayload.

(** C1.  Whatever calls are made to the scheduler and however close
    together, as long as the clock and the timers do not run backwards:
    the URLs are fetched in the order of the calls, one fetch per call;
    any two consecutive fetches start at least [RATE_LIMIT_MS] = 1000 ms
    apart; and a fetch starts only after the task of the previous one has
    settled. *)
Theorem C1_dispatch_order_and_spacing {D : Type} (cs : list (call D)) (t0 : Z) :
  Forall timely cs →
  let ds := dispatched (submitAll cs (initial t0)).1 in
  RATE_LIMIT_MS = 1000
  ∧ d_url <$> ds = c_url <$> cs
  ∧ ∀ i a b, ds !! i = Some a → ds !! S i = Some b →
             d_start a + 1000 ≤ d_start b ∧ d_finish a ≤ d_start b.
Proof.
  intros Hall ds. split; [reflexivity|]. split.
  - subst ds. rewrite submitAll_urls. reflexivity.
  - intros i a b Ha Hb.
    destruct (submitAll_keeps cs (initial t0) Hall I I) as [_ Hsp].
    exact (spaced_lookup _ i a b Hsp Ha Hb).
Qed.

(** [C1_dispatch_order_and_spacing] on [burst]. *)
Lemma C1_witness :
  Forall timely burst ∧
  let ds := dispatched (submitAll burst (initial 4000)).1 in
  RATE_LIMIT_MS = 1000
  ∧ d_url <$> ds = c_url <$> burst
  ∧ ∀ i a b, ds !! i = Some a → ds !! S i = Some b →
             d_start a + 1000 ≤ d_start b ∧ d_finish a ≤ d_start b.
Proof.
  assert (H : Forall timely burst).
  { repeat constructor; simpl; lia. }
  split; [exact H|]. exact (C1_dispatch_order_and_spacing burst 4000 H).
Defined.

(** C7.  Whatever the transport answers to each call: every call is
    dispatched, in order (a failure neither halts the queue nor makes it
    skip a call); the promise returned to a caller settles the way that
    caller's own answer dictates, so a failure is the rejection of that
    call and of no other; and the queue's own promise is never rejected. *)
Theorem C7_failure_stays_with_its_caller {D : Type} (cs : list (call D)) (t0 : Z) :
  let r := submitAll cs (initial t0) in
  d_url <$> dispatched r.1 = c_url <$> cs
  ∧ outcome <$> r.2 = (λ c, receive (c_answer c)) <$> cs
  ∧ outcome (requestQueue r.1) = Fulfilled tt.
Proof.
  intros r. subst r. split; [|split].
  - rewrite submitAll_urls. reflexivity.
  - apply submitAll_outcomes.
  - apply submitAll_queue. reflexivity.
Qed.

(** The three calls of [burst]: all are dispatched, a second apart, and
    each caller gets its own outcome. *)
Example failures_in_burst :
  let r := submitAll burst (initial 4000) in
  d_url <$> dispatched r.1 = ["u1"; "u2"; "u3"]
  ∧ d_start <$> dispatched r.1 = [5000; 6003; 7003]
  ∧ outcome <$> r.2
    = [Fulfilled 1%nat; Rejected "API error: 500"; Rejected "Failed to fetch"]
  ∧ outcome (requestQueue r.1) = Fulfilled tt.
Proof. vm_compute. done. Qed.

End SchedulerFacts.

(** ** The polling engine, the tracking store and the alerts *)

Module AppFacts.

Import App Scenarios.

Implicit Types (st : state) (item : TrackedSection) (items : list nat).

(** *** One group of a tick *)

Lemma refreshItem_other now (idx : gmap string string) st (no : list nat) uc j i :
  j ≠ i →
  let r := refreshItem now idx (st, no, uc) j in
  trackedSections r.1.1 !! i = trackedSections st !! i ∧ (i ∈ r.1.2 ↔ i ∈ no).
Proof.
  intros Hne. unfold refreshItem.
  destruct (trackedSections st !! j) as [item|] eqn:Hj; [|by simpl].
  destruct (idx !! classNbr item) as [new|]; [|by simpl].
  cbn [fst snd trackedSections set_tracked]. split.
  - by apply list_lookup_insert_ne.
  - destruct (opens (lastStatus item) new); [|done].
    rewrite elem_of_app, list_elem_of_singleton. intuition congruence.
Qed.

Lemma refreshItems_other now (idx : gmap string string) items st (no : list nat) uc i :
  i ∉ items →
  let r := refreshItems now idx items (st, no, uc) in
  trackedSections r.1.1 !! i = trackedSections st !! i ∧ (i ∈ r.1.2 ↔ i ∈ no).
Proof.
  revert st no uc. induction items as [|j items IH]; intros st no uc Hni; [by simpl|].
  apply not_elem_of_cons in Hni as [Hne Hni].
  unfold refreshItems. cbn [foldl].
  destruct (refreshItem_other now idx st no uc j i (not_eq_sym Hne)) as [H1 H2].
  destruct (refreshItem now idx (st, no, uc) j) as [[st1 no1] uc1].
  cbn [fst snd] in H1, H2.
  destruct (IH st1 no1 uc1 Hni) as [H3 H4]. unfold refreshItems in H3, H4.
  cbn zeta in *. rewrite H3, H4, H1, H2. done.
Qed.

Lemma opens_spec old new : opens old new = true ↔ old ≠ "O" ∧ new = "O".
Proof.
  unfold opens. rewrite andb_true_iff, negb_true_iff.
  rewrite String.eqb_neq, String.eqb_eq. done.
Qed.

Lemma refreshItem_self now (idx : gmap string string) st (no : list nat) uc i item :
  trackedSections st !! i = Some item →
  let r := refreshItem now idx (st, no, uc) i in
  match idx !! classNbr item with
  | None => trackedSections r.1.1 !! i = Some item ∧ (i ∈ r.1.2 ↔ i ∈ no)
  | Some newStatus =>
      trackedSections r.1.1 !! i = Some (observed item newStatus now)
      ∧ (i ∈ r.1.2 ↔ i ∈ no ∨ (lastStatus item ≠ "O" ∧ newStatus = "O"))
  end.
Proof.
  intros Hi. unfold refreshItem. rewrite Hi.
  destruct (idx !! classNbr item) as [new|]; [|by simpl].
  cbn [fst snd trackedSections set_tracked]. split.
  - apply list_lookup_insert_eq. by eapply lookup_lt_Some.
  - destruct (opens (lastStatus item) new) eqn:Ho.
    + apply opens_spec in Ho. rewrite elem_of_app, list_elem_of_singleton. tauto.
    + assert (¬ (lastStatus item ≠ "O" ∧ new = "O")).
      { intros H%opens_spec. congruence. }
      tauto.
Qed.

Lemma refreshItems_spec now (idx : gmap string string) items st (no : list nat) uc :
  NoDup items →
  let r := refreshItems now idx items (st, no, uc) in
  ∀ i item, i ∈ items → trackedSections st !! i = Some item →
    match idx !! classNbr item with
    | None => trackedSections r.1.1 !! i = Some item ∧ (i ∈ r.1.2 ↔ i ∈ no)
    | Some newStatus =>
        trackedSections r.1.1 !! i = Some (observed item newStatus now)
        ∧ (i ∈ r.1.2 ↔ i ∈ no ∨ (lastStatus item ≠ "O" ∧ newStatus = "O"))
    end.
Proof.
  intros Hnd.
  revert st no uc. induction items as [|j items IH]; intros st no uc r i item Hin Hi.
  - by apply elem_of_nil in Hin.
  - apply NoDup_cons in Hnd as [Hj Hnd]. subst r. unfold refreshItems. cbn [foldl].
    destruct (decide (j = i)) as [->|Hne].
    + pose proof (refreshItem_self now idx st no uc i item Hi) as Hself.
      destruct (refreshItem now idx (st, no, uc) i) as [[st1 no1] uc1].
      cbn [fst snd] in Hself.
      destruct (refreshItems_other now idx items st1 no1 uc1 i Hj) as [H1 H2].
      unfold refreshItems in H1, H2. cbn zeta in *.
      destruct (idx !! classNbr item) as [new|].
      * destruct Hself as [Ha Hb]. rewrite H1, H2. done.
      * destruct Hself as [Ha Hb]. rewrite H1, H2. done.
    + apply elem_of_cons in Hin as [->|Hin]; [done|].
      destruct (refreshItem_other now idx st no uc j i Hne) as [H1 H2].
      destruct (refreshItem now idx (st, no, uc) j) as [[st1 no1] uc1].
      cbn [fst snd] in H1, H2. rewrite <- H1 in Hi.
      specialize (IH Hnd st1 no1 uc1 i item Hin Hi). cbn zeta in IH.
      unfold refreshItems in IH.
      destruct (idx !! classNbr item) as [new|].
      * destruct IH as (Ha & Hd). rewrite Hd, H2. done.
      * destruct IH as [Ha Hb]. rewrite Hb, H2. done.
Qed.

(** C3.  In the loop that a tick runs over the sections of a fetched
    group, with the lookup [statusIndex] built from the response: a
    section whose class number is not in the lookup keeps its record
    (status and time stamp) and is not classified; a section whose class
    number is there gets the reported status and the time stamp of the
    observation, and is classified newly opened exactly when its stored
    status was not ['O'] and the reported one is ['O'] (so not when
    ['O'] is observed again). *)
Theorem C3_group_items_update now (classes : list course) items st (no : list nat) uc :
  NoDup items →
  let statusIndex := statusIndexOf classes in
  let r := refreshItems now statusIndex items (st, no, uc) in
  ∀ i item, i ∈ items → trackedSections st !! i = Some item →
    match statusIndex !! classNbr item with
    | None => trackedSections r.1.1 !! i = Some item ∧ (i ∈ r.1.2 ↔ i ∈ no)
    | Some newStatus =>
        trackedSections r.1.1 !! i = Some (observed item newStatus now)
        ∧ lastStatus (observed item newStatus now) = newStatus
        ∧ lastCheckedAt (observed item newStatus now) = now
        ∧ (i ∈ r.1.2 ↔ i ∈ no ∨ (lastStatus item ≠ "O" ∧ newStatus = "O"))
    end.
Proof.
  intros Hnd statusIndex r i item Hin Hi.
  pose proof (refreshItems_spec now statusIndex items st no uc Hnd i item Hin Hi) as H.
  fold r in H. destruct (statusIndex !! classNbr item); [|exact H].
  destruct H as [Ha Hb]. done.
Qed.

(** *** A whole tick *)

Lemma refreshItem_untracked now (idx : gmap string string) st (no : list nat) uc j :
  untracked (refreshItem now idx (st, no, uc) j).1.1 = untracked st.
Proof.
  unfold refreshItem.
  destruct (trackedSections st !! j) as [item|]; [|done].
  destruct (idx !! classNbr item); done.
Qed.

Lemma refreshItems_untracked now (idx : gmap string string) items st (no : list nat) uc :
  untracked (refreshItems now idx items (st, no, uc)).1.1 = untracked st.
Proof.
  revert st no uc. induction items as [|j items IH]; intros st no uc; [done|].
  unfold refreshItems. cbn [foldl].
  pose proof (refreshItem_untracked now idx st no uc j) as H1.
  destruct (refreshItem now idx (st, no, uc) j) as [[st1 no1] uc1].
  cbn [fst snd] in H1. rewrite <- H1. apply IH.
Qed.

(** The loop over the groups can be cut at any group. *)
Lemma refreshGroups_app api (gs1 gs2 : list (string * group)) now (acc : progress) :
  refreshGroups api (gs1 ++ gs2) now acc =
  match refreshGroups api gs1 now acc with
  | inl (acc', now') => refreshGroups api gs2 now' acc'
  | inr e => inr e
  end.
Proof.
  revert now acc. induction gs1 as [|[k g] gs1 IH]; intros now [[st no] uc]; [done|].
  cbn [app refreshGroups]. destruct (r_result (api (g_roster g) (g_subject g))); [|done].
  apply IH.
Qed.

(** While the fetches succeed the loop goes on, and touches nothing but
    the tracked list and the log of fetches. *)
Lemma refreshGroups_fulfilled api (gs : list (string * group)) now st (no : list nat) uc :
  (∀ kg, kg ∈ gs → ∃ classes, r_result (api (g_roster kg.2) (g_subject kg.2)) = Fulfilled classes) →
  ∃ st1 no1 uc1 now1,
    refreshGroups api gs now (st, no, uc) = inl (st1, no1, uc1, now1)
    ∧ untracked st1 = logAll (fetchOf <$> gs) (untracked st).
Proof.
  revert now st no uc. induction gs as [|[k g] gs IH]; intros now st no uc Hall.
  - by exists st, no, uc, now.
  - destruct (Hall (k, g)) as [classes Hc]; [by left|]. cbn [fst snd] in Hc.
    cbn [refreshGroups]. rewrite Hc.
    pose proof (refreshItems_untracked (r_at (api (g_roster g) (g_subject g)))
                  (statusIndexOf classes) (g_items g)
                  (log (FetchClasses (g_roster g) (g_subject g)) st) no uc) as Hu.
    destruct (refreshItems _ _ _ _) as [[st1 no1] uc1]. cbn [fst snd] in Hu.
    destruct (IH (r_at (api (g_roster g) (g_subject g))) st1 no1 uc1)
      as (st2 & no2 & uc2 & now2 & Hrun & Hst2).
    { intros kg Hkg. apply Hall. by right. }
    exists st2, no2, uc2, now2. split; [exact Hrun|].
    rewrite Hst2, Hu. done.
Qed.

Lemma logAll_set rs st : logAll rs st = set_requests (requests st ++ rs) st.
Proof.
  revert st. induction rs as [|r rs IH]; intros st.
  - simpl. rewrite app_nil_r. by destruct st.
  - unfold logAll in *. cbn [foldl]. rewrite IH. unfold set_requests, log. simpl.
    by rewrite <- app_assoc.
Qed.

(** C4.  A tick during which the fetch of some group is rejected, after
    the fetches of the groups before it have succeeded.  The tick ends
    there: the tracked list is the one that the updates of the earlier
    groups have produced; the error is shown as the tracked-list status;
    the only requests made are one fetch for each group up to the failing
    one (none is repeated, none is made for the groups after it), so no
    indicator, tone or notification is requested; the overlays and the
    tone are as they were; and the engine is ready for the next tick, with
    its timer untouched. *)
Theorem C4_failed_tick now api st
    (earlier : list (string * group)) (failing : string * group)
    (later : list (string * group)) (error : string) :
  trackedSections st ≠ [] →
  isRefreshing st = false →
  groupTracked (trackedSections st) = earlier ++ failing :: later →
  (∀ kg, kg ∈ earlier →
     ∃ classes, r_result (api (g_roster kg.2) (g_subject kg.2)) = Fulfilled classes) →
  r_result (api (g_roster failing.2) (g_subject failing.2)) = Rejected error →
  let st' := refreshTrackedSections now api st in
  ∃ st1 no1 uc1 now1,
    refreshGroups api earlier now
      (set_trackedStatus "Refreshing..." (set_isRefreshing true st), [], 0%nat)
      = inl (st1, no1, uc1, now1)
    ∧ trackedSections st' = trackedSections st1
    ∧ trackedStatus st' = getUserFriendlyError error "Refresh"
    ∧ requests st' = requests st ++ (fetchOf <$> earlier) ++ [fetchOf failing]
    ∧ alertOverlays st' = alertOverlays st
    ∧ isAlerting st' = isAlerting st
    ∧ isRefreshing st' = false
    ∧ pollingTimer st' = pollingTimer st.
Proof.
  intros Hne Hidle Hgroups Hearlier Hfail st'.
  destruct (refreshGroups_fulfilled api earlier now
              (set_trackedStatus "Refreshing..." (set_isRefreshing true st)) [] 0%nat Hearlier)
    as (st1 & no1 & uc1 & now1 & Hrun & Hst1).
  exists st1, no1, uc1, now1. split; [exact Hrun|].
  assert (Hst' : st' = set_isRefreshing false
            (set_trackedStatus (getUserFriendlyError error "Refresh")
               (log (fetchOf failing) st1))).
  { subst st'. unfold refreshTrackedSections.
    destruct (trackedSections st) as [|x l] eqn:Hl; [done|]. rewrite Hidle.
    cbn [trackedSections set_trackedStatus set_isRefreshing]. rewrite Hl.
    rewrite Hgroups, refreshGroups_app, Hrun.
    destruct failing as [k g]. cbn [refreshGroups]. cbn [fst snd] in Hfail.
    rewrite Hfail. done. }
  rewrite logAll_set in Hst1.
  rewrite Hst'. cbn.
  repeat split.
  - apply (f_equal requests) in Hst1. cbn in Hst1. rewrite Hst1, <- app_assoc. done.
  - apply (f_equal alertOverlays) in Hst1. exact Hst1.
  - apply (f_equal isAlerting) in Hst1. exact Hst1.
  - apply (f_equal pollingTimer) in Hst1. exact Hst1.
Qed.

(** *** What the registry and the alerts leave alone *)

Lemma isAlertDismissed_unregistered now key st :
  unregistered (isAlertDismissed now key st).2 = unregistered st.
Proof.
  unfold isAlertDismissed. destruct (dismissedAlerts st !! key) as [e|]; [|done].
  destruct (e <? now); done.
Qed.

Lemma isAlertDismissed_tracking now key st :
  tracking (isAlertDismissed now key st).2 = tracking st.
Proof.
  pose proof (isAlertDismissed_unregistered now key st) as H.
  apply (f_equal tracking) in H. exact H.
Qed.

Lemma someOpenUndismissed_unregistered now (l : list TrackedSection) st :
  unregistered (someOpenUndismissed now l st).2 = unregistered st.
Proof.
  revert st. induction l as [|item l IH]; intros st; [done|]. cbn [someOpenUndismissed].
  destruct (String.eqb (lastStatus item) "O"); [|apply IH].
  pose proof (isAlertDismissed_unregistered now (trackedKey item) st) as H.
  destruct (isAlertDismissed now (trackedKey item) st) as [d st1]. cbn [snd] in H.
  destruct d; cbn [negb]; [|exact H]. rewrite IH. exact H.
Qed.

Lemma someOpenUndismissed_tracking now (l : list TrackedSection) st :
  tracking (someOpenUndismissed now l st).2 = tracking st.
Proof.
  pose proof (someOpenUndismissed_unregistered now l st) as H.
  apply (f_equal tracking) in H. exact H.
Qed.

Lemma showAlertOverItem_tracking key st : tracking (showAlertOverItem key st) = tracking st.
Proof. unfold showAlertOverItem. case_bool_decide; done. Qed.

Lemma alertOne_tracking now (acc : state * list TrackedSection) item :
  tracking (alertOne now acc item).1 = tracking acc.1.
Proof.
  destruct acc as [st acts]. unfold alertOne.
  case_bool_decide; cbn [negb]; [|done].
  pose proof (isAlertDismissed_tracking now (trackedKey item) st) as Hd.
  destruct (isAlertDismissed now (trackedKey item) st) as [d st1]. cbn [fst snd] in *.
  destruct d; [done|]. case_bool_decide; [|done].
  cbn [fst]. by rewrite showAlertOverItem_tracking.
Qed.

Lemma foldl_alertOne_tracking now (l : list TrackedSection) (acc : state * list TrackedSection) :
  tracking (foldl (alertOne now) acc l).1 = tracking acc.1.
Proof.
  revert acc. induction l as [|item l IH]; intros acc; [done|].
  cbn [foldl]. rewrite IH. apply alertOne_tracking.
Qed.

Lemma triggerOpenAlert_tracking now (l : list TrackedSection) st :
  tracking (triggerOpenAlert now l st) = tracking st.
Proof.
  unfold triggerOpenAlert. destruct l as [|x l]; [done|].
  pose proof (foldl_alertOne_tracking now (x :: l) (st, [])) as H.
  destruct (foldl (alertOne now) (st, []) (x :: l)) as [st1 acts]. cbn [fst] in H.
  rewrite <- H. unfold startAlertSound, showNotification.
  repeat (case_match; try done).
Qed.

Lemma filterAsking_tracking now before after (l : list TrackedSection) st :
  tracking (filterAsking now before after l st).2 = tracking st.
Proof.
  revert st. induction l as [|item l IH]; intros st; [done|]. cbn [filterAsking].
  destruct (before item); [|apply IH].
  pose proof (isAlertDismissed_tracking now (trackedKey item) st) as H.
  destruct (isAlertDismissed now (trackedKey item) st) as [d st1]. cbn [snd] in H.
  specialize (IH st1). destruct (filterAsking now before after l st1) as [kept st2].
  cbn [snd] in *. congruence.
Qed.

Lemma foldl_resurface_tracking (l : list TrackedSection) st :
  tracking (foldl resurface st l) = tracking st.
Proof.
  revert st. induction l as [|item l IH]; intros st; [done|].
  cbn [foldl]. rewrite IH. unfold resurface. case_bool_decide; [|done].
  apply showAlertOverItem_tracking.
Qed.

Lemma dismissAlertFor5Minutes_tracking now key st :
  tracking (dismissAlertFor5Minutes now key st) = tracking st.
Proof.
  unfold dismissAlertFor5Minutes, hasActiveUndismissedOpenAlerts.
  match goal with |- context [someOpenUndismissed ?n ?l ?s] =>
    pose proof (someOpenUndismissed_tracking n l s) as Hs;
    destruct (someOpenUndismissed n l s) as [a st1] end.
  cbn [snd] in Hs. change (tracking st) with
    (tracking (saveDismissedAlerts
       (set_dismissed (<[key:=now + FIVE_MINUTES]> (dismissedAlerts st)) st))).
  rewrite <- Hs. destruct a; cbn [negb]; [done|].
  unfold stopAlertSound. by destruct (negb (isAlerting (log StopTone st1))).
Qed.

Lemma runDue_tracking now (timers : list (Z * string)) st :
  tracking (runDue now timers st) = tracking st.
Proof.
  revert st. induction timers as [|[due key] timers IH]; intros st; [done|].
  cbn [runDue]. destruct (due <=? now).
  - rewrite IH. done.
  - specialize (IH st). destruct (runDue now timers st). exact IH.
Qed.

Lemma advance_tracking now st : tracking (advance now st) = tracking st.
Proof. apply runDue_tracking. Qed.

Lemma showAlertsForOpenSections_tracking now later st :
  tracking (showAlertsForOpenSections now later st) = tracking st.
Proof.
  unfold showAlertsForOpenSections.
  match goal with |- context [filterAsking ?n ?b ?a ?l ?s] =>
    pose proof (filterAsking_tracking n b a l s) as Hf;
    destruct (filterAsking n b a l s) as [kept st1] end.
  cbn [snd] in Hf. case_bool_decide; [|done]. by rewrite triggerOpenAlert_tracking.
Qed.

(** *** The tracked set *)

Lemma consistent_tracking st st' : tracking st' = tracking st → consistent st → consistent st'.
Proof.
  unfold tracking, consistent. intros [= H1 H2 H3]. rewrite H1, H2, H3. done.
Qed.

Lemma loadTrackedSections_consistent st :
  (∀ l, storedTracked st = Some l → NoDup (trackedKey <$> l)) →
  consistent (loadTrackedSections st).
Proof.
  intros Hst. unfold consistent, loadTrackedSections. cbn. split; [|split].
  - destruct (storedTracked st) as [l|]; cbn; [by apply Hst|constructor].
  - done.
  - exact Hst.
Qed.

Lemma init_consistent r now tracked dismissed :
  (∀ l, tracked = Some l → NoDup (trackedKey <$> l)) →
  consistent (init r now tracked dismissed).
Proof.
  intros Hst. unfold init.
  apply (consistent_tracking (loadTrackedSections (fresh r tracked dismissed))).
  - unfold startPolling, stopPolling. by case_match.
  - by apply loadTrackedSections_consistent.
Qed.

Lemma toggleTrack_consistent now c s n t sec comp status st :
  consistent st → consistent (toggleTrack now c s n t sec comp status st).
Proof.
  intros (Hnd & Hset & Hst). unfold toggleTrack. case_bool_decide as Hin.
  { done. }
  set (item := Tracked c (currentRoster st) s n t sec comp status now).
  set (st1 := renderTrackedList _).
  assert (Hc : consistent st1).
  { subst st1. unfold consistent. cbn. rewrite fmap_snoc.
    change (trackedKey item) with (currentRoster st +:+ ":" +:+ c).
    assert (Hnd' : NoDup ((trackedKey <$> trackedSections st) ++ [currentRoster st +:+ ":" +:+ c])).
    { apply NoDup_app. split; [exact Hnd|]. split; [|apply NoDup_singleton].
      intros k Hk Hk'. apply list_elem_of_singleton in Hk'. subst k.
      apply Hin. rewrite Hset. by apply elem_of_list_to_set. }
    split; [exact Hnd'|]. split.
    - rewrite list_to_set_snoc_L, Hset. set_solver.
    - intros l [= <-]. rewrite fmap_snoc. exact Hnd'. }
  destruct (String.eqb status "O"); [|exact Hc].
  eapply consistent_tracking; [apply triggerOpenAlert_tracking|exact Hc].
Qed.

Lemma foldl_forgetKey (keys : list string) st :
  trackedSections (foldl forgetKey st keys) = trackedSections st
  ∧ storedTracked (foldl forgetKey st keys) = storedTracked st
  ∧ trackedKeySet (foldl forgetKey st keys) = trackedKeySet st ∖ list_to_set keys.
Proof.
  revert st. induction keys as [|k keys IH]; intros st.
  - cbn. repeat split. set_solver.
  - cbn [foldl]. destruct (IH (forgetKey st k)) as (H1 & H2 & H3).
    rewrite H1, H2, H3. unfold forgetKey.
    destruct (dismissedAlerts (set_keySet (trackedKeySet st ∖ {[k]}) st) !! k);
      cbn; repeat split; set_solver.
Qed.

Lemma NoDup_fmap_same {A B} (f : A → B) (l : list A) x y :
  NoDup (f <$> l) → x ∈ l → y ∈ l → f x = f y → x = y.
Proof.
  induction l as [|a l IH]; intros Hnd Hx Hy Hf.
  - by apply elem_of_nil in Hx.
  - rewrite fmap_cons in Hnd. apply NoDup_cons in Hnd as [Ha Hnd].
    apply elem_of_cons in Hx as [->|Hx]; apply elem_of_cons in Hy as [->|Hy].
    + done.
    + exfalso. apply Ha. rewrite Hf. by apply list_elem_of_fmap_2.
    + exfalso. apply Ha. rewrite <- Hf. by apply list_elem_of_fmap_2.
    + by apply IH.
Qed.

Lemma NoDup_fmap_filter {A B} (f : A → B) (P : A → Prop) `{∀ x, Decision (P x)} (l : list A) :
  NoDup (f <$> l) → NoDup (f <$> filter P l).
Proof.
  induction l as [|a l IH]; intros Hnd; [constructor|].
  rewrite fmap_cons in Hnd. apply NoDup_cons in Hnd as [Ha Hnd].
  rewrite filter_cons. destruct (decide (P a)); [|by apply IH].
  rewrite fmap_cons. apply NoDup_cons. split; [|by apply IH].
  intros Hin. apply Ha. apply list_elem_of_fmap in Hin as (x & -> & Hx).
  apply list_elem_of_filter in Hx as [_ Hx]. by apply list_elem_of_fmap_2.
Qed.

Lemma untrack_consistent now c r st : consistent st → consistent (untrack now c r st).
Proof.
  intros (Hnd & Hset & Hst). unfold untrack.
  set (gone := filter (λ t, matchesUntrack c r t = true) (trackedSections st)).
  set (kept := filter (λ t, matchesUntrack c r t ≠ true) (trackedSections st)).
  destruct (foldl_forgetKey (trackedKey <$> gone) (set_tracked kept st)) as (H1 & H2 & H3).
  set (st1 := foldl forgetKey (set_tracked kept st) (trackedKey <$> gone)) in *.
  cbn in H1, H2, H3.
  assert (Hkept : NoDup (trackedKey <$> kept)) by by apply NoDup_fmap_filter.
  assert (Hc : consistent st1).
  { unfold consistent. rewrite H1, H2, H3. split; [exact Hkept|]. split; [|exact Hst].
    rewrite Hset. apply set_eq. intros k.
    rewrite elem_of_difference, !elem_of_list_to_set, !list_elem_of_fmap. split.
    - intros [(x & -> & Hx) Hno]. exists x. split; [done|].
      apply list_elem_of_filter. split; [|exact Hx].
      intros Hm. apply Hno. exists x. split; [done|]. by apply list_elem_of_filter.
    - intros (x & -> & Hx). apply list_elem_of_filter in Hx as [Hm Hx]. split.
      + by exists x.
      + intros (y & Hk & Hy). apply list_elem_of_filter in Hy as [Hmy Hy].
        assert (x = y) as -> by exact (NoDup_fmap_same trackedKey _ x y Hnd Hx Hy Hk).
        done. }
  unfold hasActiveUndismissedOpenAlerts.
  pose proof (someOpenUndismissed_tracking now (trackedSections st1) st1) as Hs.
  destruct (someOpenUndismissed now (trackedSections st1) st1) as [a st2]. cbn [snd] in Hs.
  assert (Hc2 : consistent (if negb a then stopAlertSound st2 else st2)).
  { eapply consistent_tracking; [|exact Hc]. rewrite <- Hs.
    destruct a; cbn [negb]; [done|]. unfold stopAlertSound.
    by destruct (negb (isAlerting (log StopTone st2))). }
  destruct Hc2 as (Ha & Hb & Hd). unfold consistent. cbn. split; [exact Ha|].
  split; [exact Hb|]. by intros l [= <-].
Qed.

Lemma refreshItem_keys now (idx : gmap string string) st (no : list nat) uc j :
  trackedKey <$> trackedSections (refreshItem now idx (st, no, uc) j).1.1
  = trackedKey <$> trackedSections st.
Proof.
  unfold refreshItem.
  destruct (trackedSections st !! j) as [item|] eqn:Hj; [|done].
  destruct (idx !! classNbr item); [|done].
  cbn [fst snd trackedSections set_tracked]. rewrite list_fmap_insert.
  apply list_insert_id. rewrite list_lookup_fmap, Hj. done.
Qed.

Lemma refreshItems_keys now (idx : gmap string string) items st (no : list nat) uc :
  trackedKey <$> trackedSections (refreshItems now idx items (st, no, uc)).1.1
  = trackedKey <$> trackedSections st.
Proof.
  revert st no uc. induction items as [|j items IH]; intros st no uc; [done|].
  unfold refreshItems. cbn [foldl].
  pose proof (refreshItem_keys now idx st no uc j) as H1.
  destruct (refreshItem now idx (st, no, uc) j) as [[st1 no1] uc1].
  cbn [fst snd] in H1. rewrite <- H1. apply IH.
Qed.

Lemma refreshGroups_keeps api (gs : list (string * group)) now st (no : list nat) uc :
  let st1 := loopEnd (refreshGroups api gs now (st, no, uc)) in
  trackedKey <$> trackedSections st1 = trackedKey <$> trackedSections st
  ∧ skeleton st1 = skeleton st.
Proof.
  revert now st no uc. induction gs as [|[k g] gs IH]; intros now st no uc; [done|].
  cbn [refreshGroups]. destruct (r_result (api (g_roster g) (g_subject g))) as [classes|e].
  - set (st0 := log (FetchClasses (g_roster g) (g_subject g)) st).
    pose proof (refreshItems_keys (r_at (api (g_roster g) (g_subject g)))
                  (statusIndexOf classes) (g_items g) st0 no uc) as Hk.
    pose proof (refreshItems_untracked (r_at (api (g_roster g) (g_subject g)))
                  (statusIndexOf classes) (g_items g) st0 no uc) as Hu.
    destruct (refreshItems _ _ _ _) as [[st1 no1] uc1]. cbn [fst snd] in Hk, Hu.
    destruct (IH (r_at (api (g_roster g) (g_subject g))) st1 no1 uc1) as [H1 H2].
    cbn zeta in *. rewrite H1, H2, Hk. split; [done|].
    apply (f_equal (set_requests [])) in Hu. exact Hu.
  - done.
Qed.

Lemma refreshFinish_tracking now (no : list nat) st :
  tracking (refreshFinish now no st)
  = (trackedSections st, trackedKeySet st, Some (trackedSections st)).
Proof.
  unfold refreshFinish.
  set (st1 := set_trackedStatus "" (renderTrackedList (saveTrackedSections st))).
  assert (H1 : tracking st1 = (trackedSections st, trackedKeySet st, Some (trackedSections st)))
    by done.
  set (actionable := filter _ _).
  set (st2 := if bool_decide (0 < length actionable)%nat then _ else _).
  assert (H2 : tracking st2 = tracking st1).
  { subst st2. case_bool_decide; [|done]. apply triggerOpenAlert_tracking. }
  match goal with |- context [filterAsking ?n ?b ?a ?l ?s] =>
    pose proof (filterAsking_tracking n b a l s) as Hf;
    destruct (filterAsking n b a l s) as [open st3] end.
  cbn [snd] in Hf. rewrite foldl_resurface_tracking. congruence.
Qed.

Lemma refreshTrackedSections_consistent now api st :
  consistent st → consistent (refreshTrackedSections now api st).
Proof.
  intros Hc. unfold refreshTrackedSections.
  destruct (trackedSections st) as [|x l] eqn:Hl.
  { eapply consistent_tracking; [|exact Hc]. done. }
  destruct (isRefreshing st); [done|].
  cbn [trackedSections set_trackedStatus set_isRefreshing]. rewrite Hl.
  destruct (refreshGroups_keeps api (groupTracked (x :: l)) now
              (set_trackedStatus "Refreshing..." (set_isRefreshing true st)) [] 0%nat)
    as [Hk Hs].
  destruct (refreshGroups _ _ _ _) as [[[[st1 no1] uc1] now1]|[st1 e]];
    cbn [loopEnd] in Hk, Hs; cbn [trackedSections set_trackedStatus set_isRefreshing] in Hk.
  - pose proof (refreshFinish_tracking now1 no1 st1) as Hf.
    destruct Hc as (Ha & Hb & Hd). unfold consistent.
    unfold tracking in Hf. injection Hf as Hf1 Hf2 Hf3. cbn. rewrite Hf1, Hf2, Hf3, Hk.
    split; [exact Ha|]. split.
    + apply (f_equal trackedKeySet) in Hs. cbn in Hs. rewrite Hs. exact Hb.
    + intros l' [= <-]. rewrite Hk. exact Ha.
  - destruct Hc as (Ha & Hb & Hd). unfold consistent. cbn. rewrite Hk.
    split; [exact Ha|]. split.
    + apply (f_equal trackedKeySet) in Hs. cbn in Hs. rewrite Hs. exact Hb.
    + apply (f_equal storedTracked) in Hs. cbn in Hs. rewrite Hs. exact Hd.
Qed.

Lemma act_consistent st a : consistent st → consistent (act st a).
Proof.
  intros Hc. destruct a; cbn [act].
  - apply init_consistent. apply Hc.
  - by apply toggleTrack_consistent.
  - by apply untrack_consistent.
  - case_bool_decide; [|exact Hc].
    eapply consistent_tracking; [|exact Hc]. unfold clickDismiss.
    rewrite <- (dismissAlertFor5Minutes_tracking now key st). done.
  - by apply refreshTrackedSections_consistent.
  - eapply consistent_tracking; [apply showAlertsForOpenSections_tracking|exact Hc].
  - eapply consistent_tracking; [apply advance_tracking|exact Hc].
Qed.

(** C10.  From the first visit on (nothing stored yet), whatever the
    user and the engine do afterwards, in any order and across page
    loads: the tracked list has at most one entry per key and per
    (roster, classNbr) identity, and [trackedKeySet] is exactly the set
    of the keys of the list. *)
Theorem C10_tracked_set_consistent (r : string) (now : Z) (history : list action) :
  let st := foldl act (init r now None None) history in
  NoDup (identity <$> trackedSections st)
  ∧ NoDup (trackedKey <$> trackedSections st)
  ∧ trackedKeySet st = list_to_set (trackedKey <$> trackedSections st).
Proof.
  intros st.
  assert (Hc : consistent st).
  { subst st. induction history as [|a history IH] using rev_ind.
    - by apply init_consistent.
    - rewrite foldl_app. cbn [foldl]. by apply act_consistent. }
  destruct Hc as (Ha & Hb & _). split; [|by split].
  apply (NoDup_fmap_1 (λ ident, ident.1 +:+ ":" +:+ ident.2)).
  rewrite <- list_fmap_compose. exact Ha.
Qed.

(** *** Which requests the alerts make *)

Lemma indicated_refl st : indicated st st [].
Proof.
  unfold indicated. rewrite app_nil_r. repeat split; try done.
  - tauto.
  - intros [H|H]; [done|]. by apply elem_of_nil in H.
Qed.

Lemma indicated_trans st0 st1 st2 (a b : list request) :
  indicated st0 st1 a → indicated st1 st2 b → indicated st0 st2 (a ++ b).
Proof.
  intros (H1 & H2 & H3 & H4 & H5) (G1 & G2 & G3 & G4 & G5). unfold indicated.
  rewrite G1, H1, app_assoc. split; [done|]. split; [by apply Forall_app|].
  split; [|split; congruence].
  intros key. rewrite G3, H3, elem_of_app. tauto.
Qed.

Lemma isAlertDismissed_indicated now key st :
  indicated st (isAlertDismissed now key st).2 [].
Proof.
  pose proof (isAlertDismissed_unregistered now key st) as H.
  unfold indicated. rewrite app_nil_r.
  split; [exact (f_equal requests H)|]. split; [constructor|]. split.
  - intros k. apply (f_equal alertOverlays) in H. cbn in H. rewrite H.
    split; [tauto|]. intros [?|Hk]; [done|]. by apply elem_of_nil in Hk.
  - split; [exact (f_equal isAlerting H)|]. exact (f_equal quiet H).
Qed.

Lemma showAlertOverItem_indicated key st :
  ∃ added, indicated st (showAlertOverItem key st) added
           ∧ key ∈ alertOverlays (showAlertOverItem key st).
Proof.
  unfold showAlertOverItem. case_bool_decide as Hin.
  - exists []. split; [apply indicated_refl|exact Hin].
  - exists [ShowIndicator key]. split; [|cbn; set_solver].
    unfold indicated. cbn. split; [done|]. split.
    + constructor; [by exists key|constructor].
    + split; [|done]. intros k. rewrite elem_of_union, elem_of_singleton, list_elem_of_singleton.
      split; [intros [->|?]; tauto|]. intros [?|[= ->]]; tauto.
Qed.

Lemma indicated_overlays st0 st added key :
  indicated st0 st added → key ∈ alertOverlays st0 → key ∈ alertOverlays st.
Proof. intros (_ & _ & H & _) Hk. apply H. by left. Qed.

Lemma alertOne_indicated now st (acts : list TrackedSection) item :
  ∃ added,
    indicated st (alertOne now (st, acts) item).1 added
    ∧ ((alertOne now (st, acts) item).2 = acts
       ∨ ((alertOne now (st, acts) item).2 = acts ++ [item]
          ∧ trackedKey item ∈ alertOverlays (alertOne now (st, acts) item).1)).
Proof.
  unfold alertOne. case_bool_decide; cbn [negb].
  2:{ exists []. split; [apply indicated_refl|by left]. }
  pose proof (isAlertDismissed_indicated now (trackedKey item) st) as Hd.
  destruct (isAlertDismissed now (trackedKey item) st) as [d st1]. cbn [snd] in Hd.
  destruct d.
  { exists []. split; [exact Hd|by left]. }
  case_bool_decide.
  2:{ exists []. split; [exact Hd|by left]. }
  destruct (showAlertOverItem_indicated (trackedKey item) st1) as (added & Hi & Hk).
  exists added. cbn [fst snd]. split; [|by right].
  exact (indicated_trans _ _ _ _ _ Hd Hi).
Qed.

Lemma foldl_alertOne_indicated now (l : list TrackedSection) st (acts : list TrackedSection) :
  ∃ added,
    indicated st (foldl (alertOne now) (st, acts) l).1 added
    ∧ ∀ x, x ∈ (foldl (alertOne now) (st, acts) l).2 →
           x ∈ acts ∨ (x ∈ l ∧ trackedKey x ∈ alertOverlays (foldl (alertOne now) (st, acts) l).1).
Proof.
  revert st acts. induction l as [|item l IH]; intros st acts.
  - exists []. split; [apply indicated_refl|]. intros x Hx. by left.
  - cbn [foldl]. destruct (alertOne_indicated now st acts item) as (a1 & H1 & Hacts).
    destruct (alertOne now (st, acts) item) as [st1 acts1]. cbn [fst snd] in H1, Hacts.
    destruct (IH st1 acts1) as (a2 & H2 & Hx). exists (a1 ++ a2).
    split; [exact (indicated_trans _ _ _ _ _ H1 H2)|].
    intros x Hin. destruct (Hx x Hin) as [Hin1|[Hl Hk]].
    + destruct Hacts as [->|[-> Hk]]; [by left|].
      apply elem_of_app in Hin1 as [?|Hin1]; [by left|].
      apply list_elem_of_singleton in Hin1 as ->. right. split; [by left|].
      exact (indicated_overlays _ _ _ _ H2 Hk).
    + right. split; [by right|exact Hk].
Qed.

Lemma triggerOpenAlert_requests now (l : list TrackedSection) st :
  alertOverlays st = ∅ →
  ∃ ind loud,
    requests (triggerOpenAlert now l st) = requests st ++ ind ++ loud
    ∧ Forall isIndicator ind
    ∧ loudPart loud
    ∧ (loud ≠ [] → ∃ item, item ∈ l ∧ ShowIndicator (trackedKey item) ∈ ind)
    ∧ quiet (triggerOpenAlert now l st) = quiet st.
Proof.
  intros Hnone. unfold triggerOpenAlert. destruct l as [|x l].
  { exists [], []. rewrite app_nil_r. repeat split; try done. by exists false, false, "". }
  destruct (foldl_alertOne_indicated now (x :: l) st []) as (ind & Hind & Hacts).
  destruct (foldl (alertOne now) (st, []) (x :: l)) as [st1 acts]. cbn [fst snd] in Hind, Hacts.
  destruct Hind as (Hreq & Hfor & Hov & Hal & Hq).
  set (tone := bool_decide (0 < length acts)%nat && soundEnabled st1).
  set (st2 := if tone then startAlertSound st1 else st1).
  set (note := bool_decide (0 < length acts)%nat && notifyEnabled st2).
  exists ind, ((if tone then [StartTone] else [])
               ++ (if note then [Notify "CourseSnag Alert" (alertMessage acts)] else [])).
  assert (H2 : requests st2 = requests st1 ++ (if tone then [StartTone] else [])
               ∧ quiet st2 = quiet st1).
  { subst st2. destruct tone; [|by rewrite app_nil_r].
    unfold startAlertSound. by destruct (isAlerting (log StartTone st1)). }
  destruct H2 as [Hreq2 Hq2].
  split; [|split; [exact Hfor|split; [by eexists _, _, _|split]]].
  - destruct note; cbn [showNotification log requests]; rewrite Hreq2, Hreq;
      rewrite <- ?app_assoc; [done|by rewrite app_nil_r].
  - intros Hloud. assert (Hpos : (0 < length acts)%nat).
    { unfold tone, note in Hloud.
      destruct (bool_decide (0 < length acts)%nat) eqn:Hb; [by apply bool_decide_eq_true in Hb|].
      done. }
    destruct acts as [|a acts]; [cbn in Hpos; lia|].
    destruct (Hacts a) as [Hin|[Hin Hk]]; [by left|by apply elem_of_nil in Hin|].
    exists a. split; [exact Hin|]. apply Hov in Hk as [Hk|Hk]; [|exact Hk].
    rewrite Hnone in Hk. set_solver.
  - destruct note; cbn; rewrite <- Hq, <- Hq2; done.
Qed.

Lemma filterAsking_indicated now before after (l : list TrackedSection) st :
  indicated st (filterAsking now before after l st).2 [].
Proof.
  revert st. induction l as [|item l IH]; intros st; [apply indicated_refl|].
  cbn [filterAsking]. destruct (before item); [|apply IH].
  pose proof (isAlertDismissed_indicated now (trackedKey item) st) as Hd.
  destruct (isAlertDismissed now (trackedKey item) st) as [d st1]. cbn [snd] in Hd.
  specialize (IH st1). destruct (filterAsking now before after l st1) as [kept st2].
  cbn [snd] in *. exact (indicated_trans _ _ _ _ _ Hd IH).
Qed.

Lemma foldl_resurface_indicated (l : list TrackedSection) st :
  ∃ added, indicated st (foldl resurface st l) added.
Proof.
  revert st. induction l as [|item l IH]; intros st.
  - exists []. apply indicated_refl.
  - cbn [foldl].
    assert (∃ a1, indicated st (resurface st item) a1) as [a1 H1].
    { unfold resurface. case_bool_decide.
      - destruct (showAlertOverItem_indicated (trackedKey item) st) as (a & Ha & _). by exists a.
      - exists []. apply indicated_refl. }
    destruct (IH (resurface st item)) as [a2 H2]. exists (a1 ++ a2).
    exact (indicated_trans _ _ _ _ _ H1 H2).
Qed.

(** The requests of the end of a successful tick: overlays for the newly
    opened sections, then at most one tone and one notification, then
    overlays again; and the tone or the notification only with an overlay
    for one of the newly opened sections before it. *)
Lemma refreshFinish_requests now (no : list nat) st :
  ∃ ind loud again,
    requests (refreshFinish now no st) = requests st ++ ind ++ loud ++ again
    ∧ Forall isIndicator ind ∧ loudPart loud ∧ Forall isIndicator again
    ∧ (loud ≠ [] → ∃ i item, i ∈ no ∧ trackedSections st !! i = Some item
                             ∧ ShowIndicator (trackedKey item) ∈ ind).
Proof.
  unfold refreshFinish.
  set (st1 := set_trackedStatus "" (renderTrackedList (saveTrackedSections st))).
  change (trackedSections st1) with (trackedSections st).
  set (actionable := filter _ _).
  set (st2 := if bool_decide (0 < length actionable)%nat then _ else _).
  assert (H2 : ∃ ind loud,
             requests st2 = requests st ++ ind ++ loud
             ∧ Forall isIndicator ind ∧ loudPart loud
             ∧ (loud ≠ [] → ∃ item, item ∈ actionable ∧ ShowIndicator (trackedKey item) ∈ ind)
             ∧ trackedSections st2 = trackedSections st).
  { subst st2. case_bool_decide.
    - destruct (triggerOpenAlert_requests now actionable st1 eq_refl)
        as (ind & loud & Hr & Hi & Hl & Hw & Hq).
      exists ind, loud. repeat split; try done.
      exact (f_equal trackedSections Hq).
    - exists [], []. rewrite app_nil_r. repeat split; try done. by exists false, false, "". }
  destruct H2 as (ind & loud & Hr & Hi & Hl & Hw & Hts).
  rewrite Hts.
  match goal with |- context [filterAsking ?n ?b ?a ?l ?s] =>
    pose proof (filterAsking_indicated n b a l s) as Hf;
    destruct (filterAsking n b a l s) as [open st3] end.
  cbn [snd] in Hf. destruct (foldl_resurface_indicated open st3) as [again Hagain].
  pose proof (indicated_trans _ _ _ _ _ Hf Hagain) as (Hr3 & Hi3 & _).
  exists ind, loud, again. rewrite Hr3, Hr, <- !app_assoc.
  repeat split; try done.
  intros Hloud. destruct (Hw Hloud) as (item & Hin & Hshown).
  subst actionable. apply list_elem_of_filter in Hin as [_ Hin].
  apply list_elem_of_omap in Hin as (i & Hi' & Hitem). by exists i, item.
Qed.

(** *** Grouping *)

Lemma allItems_cons (kg : string * group) (gs : list (string * group)) :
  allItems (kg :: gs) = g_items kg.2 ++ allItems gs.
Proof. done. Qed.

Lemma addToGroups_items key item i (gs : list (string * group)) :
  allItems (addToGroups key item i gs) ≡ₚ i :: allItems gs.
Proof.
  induction gs as [|[k g] gs IH]; [done|]. cbn [addToGroups].
  destruct (String.eqb k key).
  - rewrite !allItems_cons. cbn [snd g_items].
    rewrite <- app_assoc. cbn [app]. symmetry. apply Permutation_middle.
  - rewrite !allItems_cons, IH. cbn [snd]. symmetry. apply Permutation_middle.
Qed.

(** Every tracked section is in exactly one group. *)
Lemma groupTracked_items (l : list TrackedSection) :
  allItems (groupTracked l) ≡ₚ seq 0 (length l).
Proof.
  unfold groupTracked. induction l as [|x l IH] using rev_ind; [done|].
  rewrite imap_app, foldl_app, length_app. cbn [imap foldl length].
  rewrite addToGroups_items, IH. cbn [fst].
  rewrite Nat.add_0_r, Nat.add_1_r, seq_S. cbn [Nat.add].
  by rewrite <- Permutation_cons_append.
Qed.

Lemma groupTracked_NoDup (l : list TrackedSection) : NoDup (allItems (groupTracked l)).
Proof. rewrite groupTracked_items. apply NoDup_seq. Qed.

(** So the references of one group are distinct, as [C3_group_items_update]
    asks. *)
Lemma groupTracked_group_NoDup (l : list TrackedSection) (kg : string * group) :
  kg ∈ groupTracked l → NoDup (g_items kg.2).
Proof.
  intros Hin. pose proof (groupTracked_NoDup l) as Hnd. unfold allItems in Hnd.
  induction (groupTracked l) as [|kg' gs IH]; [by apply elem_of_nil in Hin|].
  rewrite fmap_cons in Hnd. cbn [concat] in Hnd.
  apply NoDup_app in Hnd as (H1 & _ & H2).
  apply elem_of_cons in Hin as [->|Hin]; [exact H1|by apply IH].
Qed.

Lemma groupTracked_in_range (l : list TrackedSection) i :
  i ∈ allItems (groupTracked l) → is_Some (l !! i).
Proof.
  rewrite groupTracked_items, elem_of_seq. intros [_ Hi]. by apply lookup_lt_is_Some.
Qed.

(** *** The sections that a tick classifies as newly opened *)

Lemma refreshGroups_newlyOpened api (orig : list TrackedSection)
    (gs : list (string * group)) now st (no : list nat) uc st1 no1 uc1 now1 :
  NoDup (allItems gs) →
  (∀ i, i ∈ allItems gs →
        ∃ item, orig !! i = Some item ∧ trackedSections st !! i = Some item) →
  (∀ i, i ∈ no → (i ∉ allItems gs) ∧ justOpened orig (trackedSections st) i) →
  refreshGroups api gs now (st, no, uc) = inl (st1, no1, uc1, now1) →
  ∀ i, i ∈ no1 → justOpened orig (trackedSections st1) i.
Proof.
  revert now st no uc. induction gs as [|[k g] gs IH]; intros now st no uc Hnd Hfresh Hno Hrun.
  - cbn in Hrun. injection Hrun as <- <- <- <-. intros i Hi. by apply Hno.
  - cbn [refreshGroups] in Hrun.
    destruct (r_result (api (g_roster g) (g_subject g))) as [classes|e]; [|done].
    rewrite allItems_cons in Hnd, Hfresh, Hno. cbn [snd] in Hnd, Hfresh, Hno.
    apply NoDup_app in Hnd as (Hnd1 & Hdisj & Hnd2).
    set (st0 := log (FetchClasses (g_roster g) (g_subject g)) st) in *.
    set (at_ := r_at (api (g_roster g) (g_subject g))) in *.
    set (idx := statusIndexOf classes) in *.
    pose proof (refreshItems_spec at_ idx (g_items g) st0 no uc Hnd1) as Hin.
    pose proof (λ i, refreshItems_other at_ idx (g_items g) st0 no uc i) as Hout.
    destruct (refreshItems at_ idx (g_items g) (st0, no, uc)) as [[st2 no2] uc2].
    cbn [fst snd] in Hin, Hout. cbn zeta in Hin, Hout.
    apply (IH at_ st2 no2 uc2 Hnd2); [| |exact Hrun].
    + intros i Hi. destruct (Hfresh i) as (item & Ho & Hc).
      { apply elem_of_app. by right. }
      exists item. split; [exact Ho|].
      destruct (Hout i) as [-> _]; [|exact Hc].
      intros Hg. exact (Hdisj i Hg Hi).
    + intros i Hi. destruct (decide (i ∈ g_items g)) as [Hg|Hg].
      * split; [by apply Hdisj|].
        destruct (Hfresh i) as (item & Ho & Hc). { apply elem_of_app. by left. }
        specialize (Hin i item Hg Hc).
        assert (Hnew : i ∉ no).
        { intros Hold. destruct (Hno i Hold) as [Habs _]. apply Habs, elem_of_app. by left. }
        destruct (idx !! classNbr item) as [new|].
        -- destruct Hin as [Hl Hm]. apply Hm in Hi as [Hi|[Hold Hopen]]; [done|].
           exists item, (observed item new at_). by repeat split.
        -- destruct Hin as [Hl Hm]. apply Hm in Hi. done.
      * destruct (Hout i Hg) as [Hl Hm]. apply Hm in Hi.
        destruct (Hno i Hi) as [Habs Hjo]. split.
        -- intros Hr. apply Habs, elem_of_app. by right.
        -- unfold justOpened. rewrite Hl. exact Hjo.
Qed.

Lemma refreshGroups_fetches api (gs : list (string * group)) now st (no : list nat) uc :
  ∃ fetches,
    requests (loopEnd (refreshGroups api gs now (st, no, uc))) = requests st ++ fetches
    ∧ Forall isFetch fetches.
Proof.
  revert now st no uc. induction gs as [|[k g] gs IH]; intros now st no uc.
  - exists []. by rewrite app_nil_r.
  - cbn [refreshGroups].
    destruct (r_result (api (g_roster g) (g_subject g))) as [classes|e].
    + set (st0 := log (FetchClasses (g_roster g) (g_subject g)) st).
      pose proof (refreshItems_untracked (r_at (api (g_roster g) (g_subject g)))
                    (statusIndexOf classes) (g_items g) st0 no uc) as Hu.
      destruct (refreshItems _ _ _ _) as [[st1 no1] uc1]. cbn [fst snd] in Hu.
      destruct (IH (r_at (api (g_roster g) (g_subject g))) st1 no1 uc1) as (fs & Hr & Hf).
      exists (FetchClasses (g_roster g) (g_subject g) :: fs).
      split; [|constructor; [by eexists _, _|exact Hf]].
      rewrite Hr. apply (f_equal requests) in Hu. cbn in Hu. rewrite Hu.
      by rewrite <- app_assoc.
    + exists [FetchClasses (g_roster g) (g_subject g)].
      split; [done|]. constructor; [by eexists _, _|constructor].
Qed.

(** C9, as the code has it.  The requests that a polling tick makes
    are, in this order: fetches; overlays for newly opened sections; at
    most one request for the tone and at most one for a notification;
    overlays again, for the sections that were open already.  The tone or
    the notification is requested only if the overlay of a section that
    went from a status other than ['O'] to ['O'] during this tick has
    just been put up. *)
Theorem C9_tick_alerts_only_for_newly_opened now api st :
  let st' := refreshTrackedSections now api st in
  ∃ fetches ind loud again,
    requests st' = requests st ++ fetches ++ ind ++ loud ++ again
    ∧ Forall isFetch fetches
    ∧ Forall isIndicator ind
    ∧ loudPart loud
    ∧ Forall isIndicator again
    ∧ (loud ≠ [] →
       ∃ i item item',
         trackedSections st !! i = Some item ∧ lastStatus item ≠ "O"
         ∧ trackedSections st' !! i = Some item' ∧ lastStatus item' = "O"
         ∧ ShowIndicator (trackedKey item) ∈ ind).
Proof.
  intros st'. subst st'. unfold refreshTrackedSections.
  assert (Hnothing : ∀ s : state, requests s = requests st →
            ∃ fetches ind loud again,
              requests s = requests st ++ fetches ++ ind ++ loud ++ again
              ∧ Forall isFetch fetches ∧ Forall isIndicator ind ∧ loudPart loud
              ∧ Forall isIndicator again
              ∧ (loud ≠ [] →
                 ∃ i item item',
                   trackedSections st !! i = Some item ∧ lastStatus item ≠ "O"
                   ∧ trackedSections s !! i = Some item' ∧ lastStatus item' = "O"
                   ∧ ShowIndicator (trackedKey item) ∈ ind)).
  { intros s Hs. exists [], [], [], []. rewrite Hs, app_nil_r.
    repeat split; try done. by exists false, false, "". }
  destruct (trackedSections st) as [|x l] eqn:Hl; [by apply Hnothing|].
  destruct (isRefreshing st); [by apply Hnothing|]. clear Hnothing.
  cbn [trackedSections set_trackedStatus set_isRefreshing]. rewrite Hl.
  set (st0 := set_trackedStatus "Refreshing..." (set_isRefreshing true st)).
  destruct (refreshGroups_fetches api (groupTracked (x :: l)) now st0 [] 0%nat)
    as (fetches & Hreq & Hfetch).
  destruct (refreshGroups_keeps api (groupTracked (x :: l)) now st0 [] 0%nat) as [Hkeys _].
  pose proof (refreshGroups_newlyOpened api (x :: l) (groupTracked (x :: l)) now st0 [] 0%nat)
    as Hopen.
  destruct (refreshGroups api (groupTracked (x :: l)) now (st0, [], 0%nat))
    as [[[[st1 no1] uc1] now1]|[st1 e]]; cbn [loopEnd] in Hreq, Hkeys.
  - destruct (refreshFinish_requests now1 no1 st1) as (ind & loud & again & Hr & Hi & Hlp & Ha & Hw).
    pose proof (refreshFinish_tracking now1 no1 st1) as Htr.
    exists fetches, ind, loud, again. cbn [requests set_isRefreshing].
    rewrite Hr, Hreq, <- !app_assoc. repeat split; try done.
    intros Hloud. destruct (Hw Hloud) as (i & item1 & Hin & Hi1 & Hshown).
    specialize (Hopen st1 no1 uc1 now1 (groupTracked_NoDup (x :: l))).
    destruct Hopen with (i := i) as (item & item' & Ho & Hclosed & Hc & Hopened);
      [|intros j Hj; by apply elem_of_nil in Hj|done|exact Hin|].
    { intros j Hj. apply groupTracked_in_range in Hj as [it Hit]. exists it.
      split; [exact Hit|]. subst st0. cbn. by rewrite Hl. }
    exists i, item, item'. rewrite Hc in Hi1. injection Hi1 as <-.
    split; [exact Ho|]. split; [exact Hclosed|]. split.
    + apply (f_equal (λ t, t.1.1)) in Htr. cbn in Htr. cbn. rewrite Htr. exact Hc.
    + split; [exact Hopened|].
      assert (Hk : trackedKey item' = trackedKey item).
      { apply (f_equal (λ ks, ks !! i)) in Hkeys. rewrite !list_lookup_fmap in Hkeys.
        subst st0. cbn in Hkeys. rewrite Hl, Ho, Hc in Hkeys. by injection Hkeys. }
      rewrite <- Hk. exact Hshown.
  - exists fetches, [], [], []. cbn [requests set_isRefreshing set_trackedStatus].
    rewrite Hreq, !app_nil_r. repeat split; try done. by exists false, false, "".
Qed.

(** *** The registry *)

Lemma isAlertDismissed_keeps now k st key exp :
  dismissedAlerts st !! key = Some exp → ¬ exp < now →
  dismissedAlerts (isAlertDismissed now k st).2 !! key = Some exp.
Proof.
  intros Hkey Hexp. unfold isAlertDismissed.
  destruct (dismissedAlerts st !! k) as [e|] eqn:Hk; [|exact Hkey].
  destruct (Z.ltb_spec e now); [|exact Hkey]. cbn.
  destruct (decide (k = key)) as [->|Hne].
  - rewrite Hkey in Hk. injection Hk as ->. done.
  - by rewrite lookup_delete_ne.
Qed.

Lemma someOpenUndismissed_keeps now (l : list TrackedSection) st key exp :
  dismissedAlerts st !! key = Some exp → ¬ exp < now →
  dismissedAlerts (someOpenUndismissed now l st).2 !! key = Some exp.
Proof.
  intros Hkey Hexp. revert st Hkey. induction l as [|item l IH]; intros st Hkey; [exact Hkey|].
  cbn [someOpenUndismissed]. destruct (String.eqb (lastStatus item) "O"); [|by apply IH].
  pose proof (isAlertDismissed_keeps now (trackedKey item) st key exp Hkey Hexp) as Hd.
  destruct (isAlertDismissed now (trackedKey item) st) as [d st1]. cbn [snd] in Hd.
  destruct d; cbn [negb]; [by apply IH|exact Hd].
Qed.

(** A dismissal writes its entry and queues its eviction. *)
Lemma dismissAlertFor5Minutes_entry now key st :
  dismissedAlerts (dismissAlertFor5Minutes now key st) !! key = Some (now + FIVE_MINUTES)
  ∧ evictionTimers (dismissAlertFor5Minutes now key st)
    = evictionTimers st ++ [(now + FIVE_MINUTES, key)].
Proof.
  unfold dismissAlertFor5Minutes, hasActiveUndismissedOpenAlerts.
  set (st0 := saveDismissedAlerts _).
  assert (H0 : dismissedAlerts st0 !! key = Some (now + FIVE_MINUTES))
    by apply lookup_insert_eq.
  assert (Hfresh : ¬ now + FIVE_MINUTES < now) by (unfold FIVE_MINUTES; lia).
  pose proof (someOpenUndismissed_keeps now (trackedSections st0) st0 key _ H0 Hfresh) as Hk.
  pose proof (someOpenUndismissed_unregistered now (trackedSections st0) st0) as Hu.
  destruct (someOpenUndismissed now (trackedSections st0) st0) as [a st1]. cbn [snd] in Hk, Hu.
  apply (f_equal evictionTimers) in Hu. cbn in Hu.
  destruct a; cbn [negb].
  - cbn. by rewrite Hu.
  - unfold stopAlertSound. destruct (negb (isAlerting (log StopTone st1))); cbn; by rewrite Hu.
Qed.

(** What running the due evictions does to the entry of a key. *)
Lemma runDue_lookup now (timers : list (Z * string)) st key :
  dismissedAlerts (runDue now timers st) !! key
  = if dueFor now key timers then None else dismissedAlerts st !! key.
Proof.
  revert st. induction timers as [|[due k] timers IH]; intros st; [done|].
  cbn [runDue dueFor existsb fst snd]. fold (dueFor now key timers).
  destruct (due <=? now); cbn [andb orb].
  - rewrite IH. destruct (dueFor now key timers); [by rewrite orb_true_r|].
    rewrite orb_false_r. cbn. destruct (String.eqb_spec k key) as [->|Hne].
    + apply lookup_delete_eq.
    + by apply lookup_delete_ne.
  - specialize (IH st). destruct (runDue now timers st). exact IH.
Qed.

Lemma dueFor_app now key (t1 t2 : list (Z * string)) :
  dueFor now key (t1 ++ t2) = dueFor now key t1 || dueFor now key t2.
Proof. apply existsb_app. Qed.

Lemma dueFor_none now key (timers : list (Z * string)) :
  (∀ due, (due, key) ∈ timers → now < due) → dueFor now key timers = false.
Proof.
  intros H. unfold dueFor. apply not_true_is_false. intros Hex.
  apply existsb_exists in Hex as ([due k] & Hin & Hdue). cbn in Hdue.
  apply andb_true_iff in Hdue as [Hd Hk]. apply String.eqb_eq in Hk. subst k.
  apply Z.leb_le in Hd. apply list_elem_of_In in Hin. specialize (H due Hin). lia.
Qed.

(** The registry does what C8 says whenever no eviction left over from
    an earlier dismissal of the same key falls due within the minute:
    suppressed one minute after the dismissal; not suppressed six minutes
    after it, with the entry gone, both when the pending evictions have
    run by then and when the query finds the expired entry itself (it
    then deletes it and stores the map). *)
Lemma dismissal_without_stale_timer st key (T : Z) :
  (∀ due, (due, key) ∈ evictionTimers st → T + 60000 < due) →
  let st1 := dismissAlertFor5Minutes T key st in
  (isAlertDismissed (T + 60000) key (advance (T + 60000) st1)).1 = true
  ∧ (let r := isAlertDismissed (T + 360000) key (advance (T + 360000) st1) in
     r.1 = false ∧ dismissedAlerts r.2 !! key = None)
  ∧ (let r := isAlertDismissed (T + 360000) key st1 in
     r.1 = false ∧ dismissedAlerts r.2 !! key = None
     ∧ storedDismissed r.2 = Some (dismissedAlerts r.2)).
Proof.
  intros Hstale st1. destruct (dismissAlertFor5Minutes_entry T key st) as [Hentry Htimers].
  fold st1 in Hentry, Htimers. unfold FIVE_MINUTES in Hentry, Htimers.
  assert (Hearly : dismissedAlerts (advance (T + 60000) st1) !! key = Some (T + 5 * 60 * 1000)).
  { unfold advance. rewrite runDue_lookup, Htimers, dueFor_app.
    rewrite (dueFor_none _ _ _ Hstale). cbn [dueFor existsb fst snd orb].
    destruct (Z.leb_spec (T + 5 * 60 * 1000) (T + 60000)); [lia|]. exact Hentry. }
  assert (Hlate : dismissedAlerts (advance (T + 360000) st1) !! key = None).
  { unfold advance. rewrite runDue_lookup, Htimers, dueFor_app.
    cbn [dueFor existsb fst snd]. rewrite String.eqb_refl.
    destruct (Z.leb_spec (T + 5 * 60 * 1000) (T + 360000)); [|lia].
    cbn [andb orb]. by rewrite orb_true_r. }
  split; [|split].
  - unfold isAlertDismissed. rewrite Hearly.
    destruct (Z.ltb_spec (T + 5 * 60 * 1000) (T + 60000)); [lia|done].
  - unfold isAlertDismissed. rewrite Hlate. done.
  - unfold isAlertDismissed. rewrite Hentry.
    destruct (Z.ltb_spec (T + 5 * 60 * 1000) (T + 360000)); [|lia].
    cbn. split; [done|]. split; [apply lookup_delete_eq|done].
Qed.

(** *** The claims on the scenarios *)

(** [C3_group_items_update] on the CS group of [threeTracked], for
    section 1234. *)
Lemma C3_witness :
  NoDup [0; 1]%nat
  ∧ 0%nat ∈ [0; 1]%nat
  ∧ trackedSections threeTracked !! 0%nat = Some secA
  ∧ let statusIndex := statusIndexOf csListing in
    let r := refreshItems 2000 statusIndex [0; 1]%nat (threeTracked, [], 0%nat) in
    match statusIndex !! classNbr secA with
    | None => trackedSections r.1.1 !! 0%nat = Some secA ∧ (0%nat ∈ r.1.2 ↔ 0%nat ∈ [])
    | Some newStatus =>
        trackedSections r.1.1 !! 0%nat = Some (observed secA newStatus 2000)
        ∧ lastStatus (observed secA newStatus 2000) = newStatus
        ∧ lastCheckedAt (observed secA newStatus 2000) = 2000
        ∧ (0%nat ∈ r.1.2 ↔ 0%nat ∈ [] ∨ (lastStatus secA ≠ "O" ∧ newStatus = "O"))
    end.
Proof.
  assert (H1 : NoDup [0; 1]%nat) by compute_done.
  assert (H2 : 0%nat ∈ [0; 1]%nat) by compute_done.
  assert (H3 : trackedSections threeTracked !! 0%nat = Some secA) by reflexivity.
  split; [exact H1|]. split; [exact H2|]. split; [exact H3|].
  exact (C3_group_items_update 2000 csListing [0; 1]%nat threeTracked [] 0%nat H1 0%nat secA H2 H3).
Defined.

(** [C4_failed_tick] on [threeTracked], with the CS listing arriving
    and the fetch for MATH failing. *)
Lemma C4_witness :
  trackedSections threeTracked ≠ []
  ∧ isRefreshing threeTracked = false
  ∧ groupTracked (trackedSections threeTracked) = [csGroup] ++ mathGroup :: []
  ∧ r_result (mathDown "FA25" "MATH") = Rejected "API error: 503"
  ∧ let st := threeTracked in
    let st' := refreshTrackedSections 1000 mathDown st in
    ∃ st1 no1 uc1 now1,
      refreshGroups mathDown [csGroup] 1000
        (set_trackedStatus "Refreshing..." (set_isRefreshing true st), [], 0%nat)
        = inl (st1, no1, uc1, now1)
      ∧ trackedSections st' = trackedSections st1
      ∧ trackedStatus st' = getUserFriendlyError "API error: 503" "Refresh"
      ∧ requests st' = requests st ++ (fetchOf <$> [csGroup]) ++ [fetchOf mathGroup]
      ∧ alertOverlays st' = alertOverlays st
      ∧ isAlerting st' = isAlerting st
      ∧ isRefreshing st' = false
      ∧ pollingTimer st' = pollingTimer st.
Proof.
  assert (H1 : trackedSections threeTracked ≠ []) by (vm_compute; discriminate).
  assert (H2 : isRefreshing threeTracked = false) by reflexivity.
  assert (H3 : groupTracked (trackedSections threeTracked) = [csGroup] ++ mathGroup :: [])
    by (vm_compute; reflexivity).
  assert (H4 : ∀ kg, kg ∈ [csGroup] →
            ∃ classes, r_result (mathDown (g_roster kg.2) (g_subject kg.2)) = Fulfilled classes).
  { intros kg Hkg. apply list_elem_of_singleton in Hkg. subst kg. exists csListing. reflexivity. }
  assert (H5 : r_result (mathDown "FA25" "MATH") = Rejected "API error: 503") by reflexivity.
  split; [exact H1|]. split; [exact H2|]. split; [exact H3|]. split; [exact H5|].
  exact (C4_failed_tick 1000 mathDown threeTracked [csGroup] mathGroup [] "API error: 503"
           H1 H2 H3 H4 H5).
Defined.

(** The loop of [C3_witness], spelled out: section 1234 goes from
    closed to open and is classified; section 5678 is seen open again and
    is not; section 9012, of another subject, is not in the lookup and
    keeps its record. *)
Example group_update_on_threeTracked :
  let r := refreshItems 2000 (statusIndexOf csListing) [0; 1; 2]%nat (threeTracked, [], 0%nat) in
  lastStatus <$> trackedSections r.1.1 = ["O"; "O"; "W"]
  ∧ lastCheckedAt <$> trackedSections r.1.1 = [2000; 2000; 0]
  ∧ r.1.2 = [0%nat]
  ∧ r.2 = 2%nat.
Proof. vm_compute. done. Qed.

(** The tick of [C4_witness], spelled out: the two CS sections have
    been updated, the MATH section is as it was, and the error is
    shown. *)
Example failed_tick_on_threeTracked :
  let st' := refreshTrackedSections 1000 mathDown threeTracked in
  lastStatus <$> trackedSections st' = ["O"; "O"; "W"]
  ∧ lastCheckedAt <$> trackedSections st' = [2000; 2000; 0]
  ∧ trackedStatus st' = "Cornell server error. Try again later."
  ∧ requests st' = [FetchClasses "FA25" "CS"; FetchClasses "FA25" "MATH"]
  ∧ storedTracked st' = Some [secA; secB; secC].
Proof. vm_compute. done. Qed.

(** C8 on [dismissedTwice].  The second dismissal, made at 272 s, is
    in the registry with its expiration 5 minutes later; the timer set by
    the first dismissal is still pending, runs at 301 s and deletes the
    entry; so one minute after the second dismissal the section is not
    suppressed any more. *)
Theorem C8_stale_timer_ends_dismissal_early :
  dismissedAlerts dismissedTwice !! cs2110 = Some (272000 + 5 * 60 * 1000)
  ∧ evictionTimers dismissedTwice = [(301000, cs2110); (572000, cs2110)]
  ∧ (isAlertDismissed (272000 + 60000) cs2110 dismissedTwice).1 = true
  ∧ (isAlertDismissed (272000 + 60000) cs2110 (advance (272000 + 60000) dismissedTwice)).1
    = false.
Proof. vm_compute. done. Qed.

(** C9 fails as it is written: when the page is loaded with a section
    whose stored status is ['O'] already, the overlay that is put up
    again comes with a request for the tone and one for a notification,
    though no status has changed. *)
Lemma C9_counterexample :
  lastStatus <$> trackedSections reloaded = ["O"]
  ∧ requests reloaded = []
  ∧ requests (showAlertsForOpenSections 5000 5100 reloaded)
    = [ShowIndicator cs2110; StartTone; Notify "CourseSnag Alert" "CS 2110 is now OPEN!"].
Proof. vm_compute. done. Qed.

End AppFacts.

(** ** The search coordinator *)

Module SearchFacts.

Import App Search Scenarios.

Implicit Types (st : state) (p : pending).

Lemma isCurrentSearch_spec p st :
  isCurrentSearch p st = true ↔
  p_requestSeq p = searchRequestSeq st ∧ normalize (searchInput st) = p_normalizedInput p.
Proof.
  unfold isCurrentSearch. rewrite andb_true_iff, bool_decide_eq_true, String.eqb_eq. done.
Qed.

Lemma resumeSearch_stale p result st :
  isCurrentSearch p st = false → resumeSearch p result st = st.
Proof. intros H. unfold resumeSearch. rewrite H. by destruct result. Qed.

(** The staleness test reads the sequence number and the text of the box
    only. *)
Lemma isCurrentSearch_frame p st st' :
  searchRequestSeq st' = searchRequestSeq st → searchInput st' = searchInput st →
  isCurrentSearch p st' = isCurrentSearch p st.
Proof. unfold isCurrentSearch. by intros -> ->. Qed.

Lemma resumeSearch_fulfilled p classes st :
  isCurrentSearch p st = true →
  resumeSearch p (Fulfilled classes) st
  = showResults p (set_isSearching false (set_cache (Some (p_subject p)) classes st)).
Proof.
  intros H. unfold resumeSearch. rewrite H. cbn [negb].
  rewrite (isCurrentSearch_frame p st (set_cache (Some (p_subject p)) classes st)) by done.
  rewrite H. done.
Qed.

Lemma showResults_current p st :
  isCurrentSearch p st = true →
  let st' := showResults p st in
  searchResults st' = shown p (cachedClasses st)
  ∧ searchError st' = None
  ∧ cachedSubject st' = cachedSubject st
  ∧ cachedClasses st' = cachedClasses st
  ∧ isSearching st' = isSearching st
  ∧ fetched st' = fetched st
  ∧ inFlight st' = inFlight st
  ∧ searchDebounceTimer st' = searchDebounceTimer st.
Proof.
  intros H. unfold showResults, shown. rewrite H. cbn [negb].
  destruct (String.eqb (p_query p) ""); cbn [negb];
    match goal with |- context [match ?l with [] => _ | _ => _ end] =>
      destruct l as [|? [|? ?]] end; done.
Qed.

(** C2.  When the fetch of a suspended search settles: if the sequence
    number captured by that search is no longer the latest one, or the
    normalized text of the box is no longer the one it captured, the
    state is left as it is (only the call is no longer pending): cache,
    results, error and searching flag are not written.  If both still
    hold and the fetch succeeded, the listing becomes the cache for the
    subject, the results shown are the listing filtered by the query, the
    error is cleared and the searching flag is reset. *)
Theorem C2_response_applied_only_if_current st (k : nat) p (result : settled (list course)) :
  inFlight st !! k = Some p →
  let current :=
    p_requestSeq p = searchRequestSeq st
    ∧ normalize (searchInput st) = p_normalizedInput p in
  let st' := step st (Respond k result) in
  (¬ current → st' = set_fetches (fetched st) (delete k (inFlight st)) st)
  ∧ (current → ∀ classes, result = Fulfilled classes →
       cachedSubject st' = Some (p_subject p)
       ∧ cachedClasses st' = classes
       ∧ searchResults st' = shown p classes
       ∧ searchError st' = None
       ∧ isSearching st' = false).
Proof.
  intros Hk current st'. subst st'. cbn [step]. rewrite Hk.
  set (st1 := set_fetches (fetched st) (delete k (inFlight st)) st).
  assert (Hframe : isCurrentSearch p st1 = isCurrentSearch p st)
    by by apply isCurrentSearch_frame.
  split.
  - intros Hstale. apply resumeSearch_stale. rewrite Hframe.
    destruct (isCurrentSearch p st) eqn:Hc; [|done].
    apply isCurrentSearch_spec in Hc. done.
  - intros Hcur classes ->.
    assert (Hc : isCurrentSearch p st1 = true).
    { rewrite Hframe. by apply isCurrentSearch_spec. }
    rewrite (resumeSearch_fulfilled _ _ _ Hc).
    set (st2 := set_isSearching false _).
    assert (Hc2 : isCurrentSearch p st2 = true).
    { rewrite <- Hc. by apply isCurrentSearch_frame. }
    destruct (showResults_current p st2 Hc2) as (H1 & H2 & H3 & H4 & H5 & _).
    rewrite H1, H2, H3, H4, H5. done.
Qed.

(** C5, as the code has it.  When the text entered parses to the
    subject that is the cached one (the fetch for it has completed), the
    input is served at once from the cache: the results shown are the
    cached listing filtered by the query, no timer is left pending, and no
    fetch is made or left waiting. *)
Theorem C5_cached_subject_is_filtered_locally st (text subject query : string) :
  parseSearchInput (subjectSet st) text = Some (subject, query) →
  cachedSubject st = Some subject →
  let st' := step st (Input text) in
  fetched st' = fetched st
  ∧ inFlight st' = inFlight st
  ∧ searchDebounceTimer st' = false
  ∧ searchResults st'
    = shown (Pending (S (searchRequestSeq st)) (normalize text) subject query) (cachedClasses st)
  ∧ cachedSubject st' = Some subject
  ∧ cachedClasses st' = cachedClasses st.
Proof.
  intros Hparse Hcache st'. subst st'. cbn [step]. unfold onSearchInput.
  set (st1 := if String.eqb _ "" then _ else _).
  assert (H1 : subjectSet st1 = subjectSet st ∧ searchInput st1 = text
               ∧ cachedSubject st1 = Some subject ∧ cachedClasses st1 = cachedClasses st
               ∧ fetched st1 = fetched st ∧ inFlight st1 = inFlight st
               ∧ searchRequestSeq st1 = searchRequestSeq st).
  { subst st1. destruct (String.eqb _ ""); cbn; by rewrite Hcache. }
  destruct H1 as (Hs & Hi & Hc & Hcl & Hf & Hin & Hseq).
  unfold debounceSearch. rewrite Hs, Hi, Hparse, Hc, bool_decide_eq_true_2 by done.
  unfold performSearch. cbn [searchInput set_timer set_seq subjectSet cachedSubject].
  rewrite Hs, Hi, Hparse, Hc, bool_decide_eq_true_2 by done. cbn [negb].
  set (p := Pending _ _ subject query). set (st2 := set_seq _ _).
  assert (Hcur : isCurrentSearch p st2 = true).
  { apply isCurrentSearch_spec. subst p st2. cbn. by rewrite Hi. }
  destruct (showResults_current p st2 Hcur) as (R1 & R2 & R3 & R4 & R5 & R6 & R7 & R8).
  rewrite R1, R3, R4, R6, R7, R8. subst p st2. cbn. rewrite Hseq, Hc, Hcl, Hf, Hin. done.
Qed.

(** When the text entered does not parse to the cached subject, nothing
    is fetched or shown yet: the call of [performSearch] waits for the
    timer. *)
Lemma other_subject_is_debounced st (text : string) :
  (∀ subject query, parseSearchInput (subjectSet st) text = Some (subject, query) →
                    cachedSubject st ≠ Some subject) →
  let st' := step st (Input text) in
  searchDebounceTimer st' = true
  ∧ fetched st' = fetched st
  ∧ searchResults st' = searchResults st
  ∧ searchRequestSeq st' = searchRequestSeq st.
Proof.
  intros Hother st'. subst st'. cbn [step]. unfold onSearchInput.
  set (st1 := if String.eqb _ "" then _ else _).
  assert (H1 : subjectSet st1 = subjectSet st ∧ searchInput st1 = text
               ∧ cachedSubject st1 = cachedSubject st
               ∧ fetched st1 = fetched st ∧ searchResults st1 = searchResults st
               ∧ searchRequestSeq st1 = searchRequestSeq st).
  { subst st1. by destruct (String.eqb _ ""). }
  destruct H1 as (Hs & Hi & Hc & Hf & Hr & Hseq).
  unfold debounceSearch. rewrite Hs, Hi.
  destruct (parseSearchInput (subjectSet st) text) as [[subject query]|] eqn:Hp; [|done].
  rewrite bool_decide_eq_false_2; [done|].
  rewrite Hc. intros Heq. by apply (Hother subject query).
Qed.

(** C6, as the code has it.  When the fetch of a search that is still
    current fails, the error shown is the user's version of the failure
    (with the context ["Subject"]), and the cache is emptied: no cached
    subject, no cached listing, no results, and the searching flag is
    reset. *)
Theorem C6_failure_reports_and_clears_cache st (k : nat) p (error : string) :
  inFlight st !! k = Some p →
  p_requestSeq p = searchRequestSeq st →
  normalize (searchInput st) = p_normalizedInput p →
  let st' := step st (Respond k (Rejected error)) in
  searchError st' = Some (getUserFriendlyError error "Subject")
  ∧ cachedSubject st' = None
  ∧ cachedClasses st' = []
  ∧ searchResults st' = []
  ∧ isSearching st' = false.
Proof.
  intros Hk Hseq Hin st'. subst st'. cbn [step]. rewrite Hk. unfold resumeSearch.
  assert (Hc : isCurrentSearch p (set_fetches (fetched st) (delete k (inFlight st)) st) = true).
  { apply isCurrentSearch_spec. done. }
  rewrite Hc. done.
Qed.

(** *** The claims on the scenarios *)

(** [C2_response_applied_only_if_current] on [csEdited], where the
    response for "CS" finds "CS2110" in the box. *)
Lemma C2_witness :
  inFlight csEdited !! 0%nat = Some (Pending 1 "CS" "CS" "")
  ∧ let st := csEdited in
    let p := Pending 1 "CS" "CS" "" in
    let result := Fulfilled csCourses in
    let current :=
      p_requestSeq p = searchRequestSeq st
      ∧ normalize (searchInput st) = p_normalizedInput p in
    let st' := step st (Respond 0 result) in
    (¬ current → st' = set_fetches (fetched st) (delete 0%nat (inFlight st)) st)
    ∧ (current → ∀ classes, result = Fulfilled classes →
         cachedSubject st' = Some (p_subject p)
         ∧ cachedClasses st' = classes
         ∧ searchResults st' = shown p classes
         ∧ searchError st' = None
         ∧ isSearching st' = false).
Proof.
  assert (H : inFlight csEdited !! 0%nat = Some (Pending 1 "CS" "CS" "")) by reflexivity.
  split; [exact H|].
  exact (C2_response_applied_only_if_current csEdited 0 _ (Fulfilled csCourses) H).
Defined.

(** C5 fails as it is written: with the fetch for "CS" still in flight
    nothing is cached, so "CS2110" is debounced, nothing is shown, and
    when the timer fires a second fetch for CS is made, whether or not
    the first response has arrived in between (it is discarded as
    stale).  Entered before the fetch for "CS" has even started, "CS2110"
    is debounced as well. *)
Lemma C5_counterexample :
  length (inFlight csInFlight) = 1%nat
  ∧ fetched csInFlight = [("FA25", "CS")]
  ∧ cachedSubject csInFlight = None
  ∧ searchDebounceTimer csEdited = true
  ∧ searchResults csEdited = []
  ∧ fetched (step csEdited DebounceFires) = [("FA25", "CS"); ("FA25", "CS")]
  ∧ fetched (run [Respond 0 (Fulfilled csCourses); DebounceFires] csEdited)
    = [("FA25", "CS"); ("FA25", "CS")]
  ∧ searchDebounceTimer (run [Input "CS"; Input "CS2110"] searchStart) = true
  ∧ searchResults (run [Input "CS"; Input "CS2110"] searchStart) = [].
Proof. vm_compute. done. Qed.

(** The whole run of [C5_witness]: one fetch, and the listing filtered
    by the prefix 2110. *)
Example one_fetch_once_cached :
  let st := run [Input "CS"; DebounceFires; Respond 0 (Fulfilled csCourses); Input "CS2110"]
                searchStart in
  fetched st = [("FA25", "CS")]
  ∧ inFlight st = []
  ∧ searchResults st = [Course "CS" "2110" []]
  ∧ searchStatus st = "Showing 1 result(s) for CS 2110".
Proof. vm_compute. done. Qed.

(** [C5_cached_subject_is_filtered_locally] on [csCached]. *)
Lemma C5_witness :
  parseSearchInput (subjectSet csCached) "CS2110" = Some ("CS", "2110")
  ∧ cachedSubject csCached = Some "CS"
  ∧ let st := csCached in
    let st' := step st (Input "CS2110") in
    fetched st' = fetched st
    ∧ inFlight st' = inFlight st
    ∧ searchDebounceTimer st' = false
    ∧ searchResults st'
      = shown (Pending (S (searchRequestSeq st)) (normalize "CS2110") "CS" "2110")
              (cachedClasses st)
    ∧ cachedSubject st' = Some "CS"
    ∧ cachedClasses st' = cachedClasses st.
Proof.
  assert (H1 : parseSearchInput (subjectSet csCached) "CS2110" = Some ("CS", "2110"))
    by (vm_compute; reflexivity).
  assert (H2 : cachedSubject csCached = Some "CS") by reflexivity.
  split; [exact H1|]. split; [exact H2|].
  exact (C5_cached_subject_is_filtered_locally csCached "CS2110" "CS" "2110" H1 H2).
Defined.

(** C6 fails as it is written: with the CS listing cached, a failed
    fetch for MATH that is still current leaves no cached subject and no
    cached listing. *)
Lemma C6_counterexample :
  inFlight mathInFlight !! 0%nat = Some (Pending 2 "MATH" "MATH" "")
  ∧ isCurrentSearch (Pending 2 "MATH" "MATH" "") mathInFlight = true
  ∧ cachedSubject mathInFlight = Some "CS"
  ∧ cachedClasses mathInFlight = csCourses
  ∧ let st' := step mathInFlight (Respond 0 (Rejected "API error: 500")) in
    cachedSubject st' = None ∧ cachedClasses st' = []
    ∧ cachedSubject st' ≠ cachedSubject mathInFlight
    ∧ cachedClasses st' ≠ cachedClasses mathInFlight.
Proof. vm_compute. done. Qed.

(** [C6_failure_reports_and_clears_cache] on [mathInFlight]. *)
Lemma C6_witness :
  inFlight mathInFlight !! 0%nat = Some (Pending 2 "MATH" "MATH" "")
  ∧ let st := mathInFlight in
    let st' := step st (Respond 0 (Rejected "API error: 500")) in
    searchError st' = Some (getUserFriendlyError "API error: 500" "Subject")
    ∧ cachedSubject st' = None
    ∧ cachedClasses st' = []
    ∧ searchResults st' = []
    ∧ isSearching st' = false.
Proof.
  assert (H : inFlight mathInFlight !! 0%nat = Some (Pending 2 "MATH" "MATH" "")) by reflexivity.
  split; [exact H|].
  exact (C6_failure_reports_and_clears_cache mathInFlight 0 _ "API error: 500" H eq_refl eq_refl).
Defined.
End SearchFacts.

(** ** More on the tracking store and the alerts *)

Module MoreAppFacts.

Import App Catalog AppFacts.

Implicit Types (st : state) (item : TrackedSection).

(** *** The registry as the alerts consult it *)

Lemma isAlertDismissed_true now key st :
  (isAlertDismissed now key st).1 = true ↔
  ∃ expirationTime, dismissedAlerts st !! key = Some expirationTime ∧ now ≤ expirationTime.
Proof.
  unfold isAlertDismissed. destruct (dismissedAlerts st !! key) as [e|].
  - destruct (Z.ltb_spec e now); cbn; split.
    + done.
    + intros (e' & [= <-] & He). lia.
    + intros _. exists e. split; [done|lia].
    + done.
  - cbn. split; [done|]. by intros (e' & He & _).
Qed.

Lemma isAlertDismissed_true_same now key st :
  (isAlertDismissed now key st).1 = true → (isAlertDismissed now key st).2 = st.
Proof.
  unfold isAlertDismissed. destruct (dismissedAlerts st !! key) as [e|]; [|done].
  by destruct (e <? now).
Qed.

Lemma someOpenUndismissed_spec now (l : list TrackedSection) st :
  ((someOpenUndismissed now l st).1 = true ↔ ∃ item, item ∈ l ∧ openUnsuppressed now st item)
  ∧ ((someOpenUndismissed now l st).1 = false → (someOpenUndismissed now l st).2 = st).
Proof.
  induction l as [|item l [IH1 IH2]].
  - cbn. split; [|done]. split; [done|]. intros (item & Hin & _). by apply elem_of_nil in Hin.
  - cbn [someOpenUndismissed]. destruct (String.eqb_spec (lastStatus item) "O") as [Ho|Ho].
    + pose proof (isAlertDismissed_true now (trackedKey item) st) as Hd.
      pose proof (isAlertDismissed_true_same now (trackedKey item) st) as Hs.
      destruct (isAlertDismissed now (trackedKey item) st) as [d st1]. cbn [fst snd] in Hd, Hs.
      destruct d; cbn [negb].
      * rewrite (Hs eq_refl). split; [|exact IH2]. rewrite IH1. split.
        -- intros (x & Hx & Hopen). exists x. split; [by right|exact Hopen].
        -- intros (x & Hx & Hopen). apply elem_of_cons in Hx as [->|Hx]; [|by exists x].
           destruct Hopen as [_ Hno]. exfalso. apply Hno. by apply Hd.
      * cbn. split; [|done]. split; [|done]. intros _. exists item. split; [by left|].
        split; [exact Ho|]. intros Hsup. apply Hd in Hsup. done.
    + split; [|exact IH2]. rewrite IH1. split.
      * intros (x & Hx & Hopen). exists x. split; [by right|exact Hopen].
      * intros (x & Hx & Hopen). apply elem_of_cons in Hx as [->|Hx]; [|by exists x].
        by destruct Hopen as [Hopen _].
Qed.

(** X1.  [hasActiveUndismissedOpenAlerts] answers yes exactly when some
    tracked section is open and has no dismissal still running; when it
    answers no it has changed nothing. *)
Theorem hasActiveUndismissedOpenAlerts_spec now st :
  ((hasActiveUndismissedOpenAlerts now st).1 = true ↔
   ∃ item, item ∈ trackedSections st ∧ openUnsuppressed now st item)
  ∧ ((hasActiveUndismissedOpenAlerts now st).1 = false →
     (hasActiveUndismissedOpenAlerts now st).2 = st).
Proof. apply someOpenUndismissed_spec. Qed.

Lemma foldl_alertOne_skips now (l : list TrackedSection) st (acts : list TrackedSection) :
  (∀ item, item ∈ l →
     (trackedKey item ∉ trackedKeySet st)
     ∨ ∃ e, dismissedAlerts st !! trackedKey item = Some e ∧ now ≤ e) →
  foldl (alertOne now) (st, acts) l = (st, acts).
Proof.
  induction l as [|item l IH]; intros Hall; [done|]. cbn [foldl].
  assert (H1 : alertOne now (st, acts) item = (st, acts)).
  { unfold alertOne. case_bool_decide as Hin; cbn [negb]; [|done].
    destruct (Hall item) as [Hno|Hsup]; [by left|done|].
    pose proof (proj2 (isAlertDismissed_true now (trackedKey item) st) Hsup) as Hd.
    pose proof (isAlertDismissed_true_same now (trackedKey item) st Hd) as Hs.
    destruct (isAlertDismissed now (trackedKey item) st) as [d st1]. cbn [fst snd] in Hd, Hs.
    by subst. }
  rewrite H1. apply IH. intros x Hx. apply Hall. by right.
Qed.

(** X2.  [triggerOpenAlert] does nothing at all (no overlay, no tone, no
    notification, no change of state) when each of the sections it is
    given is either not tracked any more or dismissed for a time that has
    not run out. *)
Theorem triggerOpenAlert_skips_untracked_and_dismissed now (l : list TrackedSection) st :
  (∀ item, item ∈ l →
     (trackedKey item ∉ trackedKeySet st)
     ∨ ∃ e, dismissedAlerts st !! trackedKey item = Some e ∧ now ≤ e) →
  triggerOpenAlert now l st = st.
Proof.
  intros Hall. unfold triggerOpenAlert. destruct l as [|x l]; [done|].
  rewrite (foldl_alertOne_skips now (x :: l) st [] Hall). done.
Qed.


(** [triggerOpenAlert_skips_untracked_and_dismissed] on
    [dismissedTwice], whose section is dismissed until 572 s, at 300 s. *)
Lemma triggerOpenAlert_skips_witness :
  let item := Tracked "1234" "FA25" "CS" "2110" "OOP" "001" "LEC" "O" 271000 in
  dismissedAlerts Scenarios.dismissedTwice !! trackedKey item = Some 572000
  ∧ triggerOpenAlert 300000 [item] Scenarios.dismissedTwice = Scenarios.dismissedTwice.
Proof.
  intros item.
  assert (H : dismissedAlerts Scenarios.dismissedTwice !! trackedKey item = Some 572000)
    by (vm_compute; reflexivity).
  split; [exact H|].
  apply (triggerOpenAlert_skips_untracked_and_dismissed 300000 [item] Scenarios.dismissedTwice).
  intros x Hx. apply list_elem_of_singleton in Hx as ->. right. exists 572000.
  split; [exact H|lia].
Defined.

(** X3.  The two switches are obeyed: with the sound switched off
    [triggerOpenAlert] never asks for the tone and leaves [isAlerting] as
    it is, and with notifications switched off it never asks for a
    notification; the requests it makes besides are for overlays. *)
Theorem triggerOpenAlert_obeys_switches now (l : list TrackedSection) st :
  ∃ added,
    requests (triggerOpenAlert now l st) = requests st ++ added
    ∧ (soundEnabled st = false →
       (StartTone ∉ added) ∧ isAlerting (triggerOpenAlert now l st) = isAlerting st)
    ∧ (notifyEnabled st = false → ∀ title body, Notify title body ∉ added)
    ∧ (soundEnabled st = false → notifyEnabled st = false → Forall isIndicator added).
Proof.
  unfold triggerOpenAlert. destruct l as [|x l].
  { exists []. rewrite app_nil_r. repeat split; try done; intros; by apply not_elem_of_nil. }
  destruct (foldl_alertOne_indicated now (x :: l) st []) as (ind & Hind & _).
  destruct (foldl (alertOne now) (st, []) (x :: l)) as [st1 acts]. cbn [fst] in Hind.
  destruct Hind as (Hreq & Hfor & _ & Hal & Hq).
  assert (Hsound : soundEnabled st1 = soundEnabled st) by exact (f_equal soundEnabled Hq).
  assert (Hnotify : notifyEnabled st1 = notifyEnabled st) by exact (f_equal notifyEnabled Hq).
  assert (Hnot : ∀ r, r ∈ ind → isIndicator r).
  { intros r Hr. by eapply Forall_forall in Hfor. }
  set (tone := bool_decide (0 < length acts)%nat && soundEnabled st1).
  set (st2 := if tone then startAlertSound st1 else st1).
  assert (H2 : requests st2 = requests st1 ++ (if tone then [StartTone] else [])
               ∧ notifyEnabled st2 = notifyEnabled st
               ∧ (tone = false → isAlerting st2 = isAlerting st1)).
  { subst st2. destruct tone; [|by rewrite app_nil_r].
    unfold startAlertSound. by destruct (isAlerting (log StartTone st1)). }
  destruct H2 as (Hreq2 & Hnotify2 & Hal2).
  set (note := bool_decide (0 < length acts)%nat && notifyEnabled st2).
  exists (ind ++ (if tone then [StartTone] else [])
          ++ (if note then [Notify "CourseSnag Alert" (alertMessage acts)] else [])).
  split; [|split; [|split]].
  - destruct note; cbn [showNotification log requests]; rewrite Hreq2, Hreq, <- ?app_assoc;
      [done|by rewrite app_nil_r].
  - intros Hoff. assert (Htone : tone = false).
    { subst tone. rewrite Hsound, Hoff. apply andb_false_r. }
    rewrite Htone. split.
    + intros Hin. apply elem_of_app in Hin as [Hin|Hin].
      * apply Hnot in Hin as [k Hk]. done.
      * destruct note; [|by apply elem_of_nil in Hin].
        apply list_elem_of_singleton in Hin. done.
    + rewrite <- Hal, <- (Hal2 Htone). by destruct note.
  - intros Hoff title body Hin. assert (Hnote : note = false).
    { subst note. rewrite Hnotify2, Hoff. apply andb_false_r. }
    rewrite Hnote, app_nil_r in Hin. apply elem_of_app in Hin as [Hin|Hin].
    + apply Hnot in Hin as [k Hk]. done.
    + destruct tone; [|by apply elem_of_nil in Hin].
      apply list_elem_of_singleton in Hin. done.
  - intros Hs Hn. assert (Htone : tone = false).
    { subst tone. rewrite Hsound, Hs. apply andb_false_r. }
    assert (Hnote : note = false).
    { subst note. rewrite Hnotify2, Hn. apply andb_false_r. }
    rewrite Htone, Hnote, !app_nil_r. exact Hfor.
Qed.


(** *** Tracking and untracking *)

Lemma triggerOpenAlert_roster now (l : list TrackedSection) st :
  currentRoster (triggerOpenAlert now l st) = currentRoster st.
Proof.
  unfold triggerOpenAlert. destruct l as [|x l]; [done|].
  destruct (foldl_alertOne_indicated now (x :: l) st []) as (ind & Hind & _).
  destruct (foldl (alertOne now) (st, []) (x :: l)) as [st1 acts]. cbn [fst] in Hind.
  destruct Hind as (_ & _ & _ & _ & Hq). apply (f_equal currentRoster) in Hq. cbn in Hq.
  rewrite <- Hq. unfold startAlertSound, showNotification.
  repeat (case_match; try done).
Qed.

Lemma triggerOpenAlert_keySet now (l : list TrackedSection) st :
  trackedKeySet (triggerOpenAlert now l st) = trackedKeySet st.
Proof.
  pose proof (triggerOpenAlert_tracking now l st) as Ht. unfold tracking in Ht.
  by injection Ht.
Qed.

(** X4.  Tracking is idempotent per class number: once [toggleTrack] has
    been called for a class number, calling it again for that class
    number, with whatever other data and at whatever time, changes
    nothing (no second entry, no second alert). *)
Theorem toggleTrack_again now now' (c s n t sec comp status s' n' t' sec' comp' status' : string)
    st :
  let st1 := toggleTrack now c s n t sec comp status st in
  toggleTrack now' c s' n' t' sec' comp' status' st1 = st1.
Proof.
  intros st1.
  assert (H1 : currentRoster st1 = currentRoster st
               ∧ currentRoster st +:+ ":" +:+ c ∈ trackedKeySet st1).
  { subst st1. unfold toggleTrack. case_bool_decide as Hin; [done|].
    destruct (String.eqb status "O").
    - rewrite triggerOpenAlert_roster, triggerOpenAlert_keySet. cbn. split; [done|]. set_solver.
    - cbn. split; [done|]. set_solver. }
  destruct H1 as [Hr Hk]. unfold toggleTrack at 1. rewrite Hr.
  by rewrite bool_decide_eq_true_2.
Qed.

Lemma matchesUntrack_spec c r item :
  matchesUntrack c r item = true ↔
  classNbr item = c ∧ (r = None ∨ r = Some "" ∨ r = Some (roster item)).
Proof.
  unfold matchesUntrack. rewrite andb_true_iff, String.eqb_eq.
  destruct r as [r|]; [|intuition congruence].
  rewrite orb_true_iff, !String.eqb_eq. intuition congruence.
Qed.

(** The registry only loses entries when it is asked. *)
Lemma isAlertDismissed_None now k st key :
  dismissedAlerts st !! key = None → dismissedAlerts (isAlertDismissed now k st).2 !! key = None.
Proof.
  intros Hkey. unfold isAlertDismissed.
  destruct (dismissedAlerts st !! k) as [e|]; [|exact Hkey].
  destruct (e <? now); [|exact Hkey]. cbn.
  destruct (decide (k = key)) as [->|Hne]; [apply lookup_delete_eq|by rewrite lookup_delete_ne].
Qed.

Lemma someOpenUndismissed_None now (l : list TrackedSection) st key :
  dismissedAlerts st !! key = None →
  dismissedAlerts (someOpenUndismissed now l st).2 !! key = None.
Proof.
  revert st. induction l as [|item l IH]; intros st Hkey; [exact Hkey|].
  cbn [someOpenUndismissed]. destruct (String.eqb (lastStatus item) "O"); [|by apply IH].
  pose proof (isAlertDismissed_None now (trackedKey item) st key Hkey) as Hd.
  destruct (isAlertDismissed now (trackedKey item) st) as [d st1]. cbn [snd] in Hd.
  destruct d; cbn [negb]; [by apply IH|exact Hd].
Qed.

Lemma foldl_forgetKey_dismissed (keys : list string) st key :
  key ∈ keys ∨ dismissedAlerts st !! key = None →
  dismissedAlerts (foldl forgetKey st keys) !! key = None.
Proof.
  revert st. induction keys as [|k keys IH]; intros st Hk.
  - destruct Hk as [Hk|Hk]; [by apply elem_of_nil in Hk|exact Hk].
  - cbn [foldl]. apply IH.
    destruct (decide (key ∈ keys)) as [?|Hno]; [by left|]. right.
    assert (Hcase : key = k ∨ dismissedAlerts st !! key = None).
    { destruct Hk as [Hk|Hk]; [|by right]. apply elem_of_cons in Hk as [->|?]; [by left|done]. }
    unfold forgetKey. cbn [dismissedAlerts set_keySet set_document].
    destruct (dismissedAlerts st !! k) as [e|] eqn:He; cbn.
    + destruct (decide (k = key)) as [->|Hne]; [apply lookup_delete_eq|].
      rewrite lookup_delete_ne by done. destruct Hcase as [->|?]; done.
    + destruct Hcase as [->|?]; done.
Qed.

(** X5.  After [untrack(classNbr, roster)]: the tracked sections are the
    ones there were, in their order, without those with that class number
    (in that roster, when one is given and not empty); the list is
    stored and rendered, without any overlay; and no removed section has
    a dismissal left, so that it alerts again if it is tracked again. *)
Theorem untrack_removes now (c : string) (r : option string) st :
  let st' := untrack now c r st in
  trackedSections st'
  = filter (λ item, ¬ (classNbr item = c ∧ (r = None ∨ r = Some "" ∨ r = Some (roster item))))
           (trackedSections st)
  ∧ storedTracked st' = Some (trackedSections st')
  ∧ trackedItems st' = trackedKey <$> trackedSections st'
  ∧ alertOverlays st' = ∅
  ∧ ∀ item, item ∈ trackedSections st →
            classNbr item = c ∧ (r = None ∨ r = Some "" ∨ r = Some (roster item)) →
            dismissedAlerts st' !! trackedKey item = None.
Proof.
  intros st'. subst st'. unfold untrack.
  set (gone := filter (λ t, matchesUntrack c r t = true) (trackedSections st)).
  set (kept := filter (λ t, matchesUntrack c r t ≠ true) (trackedSections st)).
  destruct (foldl_forgetKey (trackedKey <$> gone) (set_tracked kept st)) as (H1 & H2 & H3).
  pose proof (λ key, foldl_forgetKey_dismissed (trackedKey <$> gone) (set_tracked kept st) key)
    as Hgone.
  set (st1 := foldl forgetKey (set_tracked kept st) (trackedKey <$> gone)) in *.
  cbn in H1. unfold hasActiveUndismissedOpenAlerts.
  pose proof (someOpenUndismissed_tracking now (trackedSections st1) st1) as Hs.
  pose proof (λ key, someOpenUndismissed_None now (trackedSections st1) st1 key) as Hnone.
  destruct (someOpenUndismissed now (trackedSections st1) st1) as [a st2].
  cbn [snd] in Hs, Hnone. unfold tracking in Hs. injection Hs as Hs _ _.
  assert (Hkept : kept = filter (λ item, ¬ (classNbr item = c
                     ∧ (r = None ∨ r = Some "" ∨ r = Some (roster item))))
                   (trackedSections st)).
  { subst kept. apply list_filter_iff. intros x. by rewrite matchesUntrack_spec. }
  assert (H4 : trackedSections (if negb a then stopAlertSound st2 else st2) = kept
               ∧ ∀ key, dismissedAlerts st2 !! key = None →
                   dismissedAlerts (if negb a then stopAlertSound st2 else st2) !! key = None).
  { destruct a; cbn [negb]; [by rewrite Hs, H1|]. unfold stopAlertSound.
    destruct (negb (isAlerting (log StopTone st2))); cbn; by rewrite Hs, H1. }
  destruct H4 as [H4 H5]. cbn. rewrite H4, <- Hkept. repeat split; try done.
  intros item Hin Hm. apply H5, Hnone, Hgone. left.
  apply list_elem_of_fmap_2, list_elem_of_filter. split; [|exact Hin].
  by apply matchesUntrack_spec.
Qed.

Lemma foldl_forgetKey_other (keys : list string) st key :
  key ∉ keys →
  dismissedAlerts (foldl forgetKey st keys) !! key = dismissedAlerts st !! key.
Proof.
  revert st. induction keys as [|k keys IH]; intros st Hk; [done|].
  apply not_elem_of_cons in Hk as [Hne Hk]. cbn [foldl]. rewrite (IH _ Hk).
  unfold forgetKey. cbn [dismissedAlerts set_keySet set_document].
  destruct (dismissedAlerts st !! k); cbn; [by rewrite lookup_delete_ne|done].
Qed.

Lemma foldl_forgetKey_quiet (keys : list string) st :
  requests (foldl forgetKey st keys) = requests st
  ∧ isAlerting (foldl forgetKey st keys) = isAlerting st.
Proof.
  revert st. induction keys as [|k keys IH]; intros st; [done|].
  cbn [foldl]. destruct (IH (forgetKey st k)) as [-> ->]. unfold forgetKey.
  by destruct (dismissedAlerts (set_keySet (trackedKeySet st ∖ {[k]}) st) !! k).
Qed.

(** X6.  Untracking and the tone.  On a list without two entries of the
    same key: if, of the sections that stay, none is open without a
    running dismissal, [untrack] asks for the tone to stop and the tone is
    off afterwards; if one is, [untrack] leaves the tone as it is and asks
    for nothing. *)
Theorem untrack_and_the_tone now (c : string) (r : option string) st :
  NoDup (trackedKey <$> trackedSections st) →
  let stays item := item ∈ trackedSections st ∧ matchesUntrack c r item = false in
  let st' := untrack now c r st in
  ((∀ item, stays item → ¬ openUnsuppressed now st item) →
   requests st' = requests st ++ [StopTone] ∧ isAlerting st' = false)
  ∧ ((∃ item, stays item ∧ openUnsuppressed now st item) →
     requests st' = requests st ∧ isAlerting st' = isAlerting st).
Proof.
  intros Hnd stays st'. subst st'. unfold untrack.
  set (gone := filter (λ t, matchesUntrack c r t = true) (trackedSections st)).
  set (kept := filter (λ t, matchesUntrack c r t ≠ true) (trackedSections st)).
  destruct (foldl_forgetKey (trackedKey <$> gone) (set_tracked kept st)) as (H1 & _ & _).
  destruct (foldl_forgetKey_quiet (trackedKey <$> gone) (set_tracked kept st)) as [Hreq Hal].
  pose proof (λ key, foldl_forgetKey_other (trackedKey <$> gone) (set_tracked kept st) key)
    as Hother.
  set (st1 := foldl forgetKey (set_tracked kept st) (trackedKey <$> gone)) in *.
  cbn in H1, Hreq, Hal, Hother.
  assert (Hsame : ∀ item, item ∈ kept →
            stays item ∧ (openUnsuppressed now st1 item ↔ openUnsuppressed now st item)).
  { intros item Hin. subst kept. apply list_elem_of_filter in Hin as [Hm Hin].
    split; [split; [exact Hin|by destruct (matchesUntrack c r item)]|].
    unfold openUnsuppressed. rewrite Hother; [done|].
    intros Hk. apply list_elem_of_fmap in Hk as (x & Hkx & Hx).
    subst gone. apply list_elem_of_filter in Hx as [Hmx Hx].
    assert (item = x) by exact (NoDup_fmap_same trackedKey _ item x Hnd Hin Hx Hkx).
    subst x. done. }
  unfold hasActiveUndismissedOpenAlerts. rewrite H1.
  destruct (someOpenUndismissed_spec now kept st1) as [Hyes Hno].
  pose proof (someOpenUndismissed_unregistered now kept st1) as Hun.
  destruct (someOpenUndismissed now kept st1) as [a st2]. cbn [fst snd] in Hyes, Hno, Hun.
  assert (Hreq2 : requests st2 = requests st) by (rewrite <- Hreq; exact (f_equal requests Hun)).
  assert (Hal2 : isAlerting st2 = isAlerting st)
    by (rewrite <- Hal; exact (f_equal isAlerting Hun)).
  split.
  - intros Hquiet. destruct a.
    + destruct (proj1 Hyes eq_refl) as (item & Hin & Hopen).
      destruct (Hsame item Hin) as [Hst Hiff]. exfalso. apply (Hquiet item Hst). by apply Hiff.
    + cbn [negb]. unfold stopAlertSound.
      destruct (negb (isAlerting (log StopTone st2))) eqn:Hn; cbn; rewrite Hreq2; [|done].
      split; [done|]. cbn in Hn. by apply negb_true_iff in Hn.
  - intros (item & [Hin Hm] & Hopen). destruct a.
    + cbn [negb]. cbn. done.
    + exfalso. assert (Hk : item ∈ kept).
      { subst kept. apply list_elem_of_filter. split; [by rewrite Hm|exact Hin]. }
      destruct (Hsame item Hk) as [_ Hiff].
      assert (false = true); [|done]. apply Hyes. exists item. split; [exact Hk|by apply Hiff].
Qed.

(** *** What is stored and what is in memory *)


(** [untrack_and_the_tone] on [oneOpen]: the only section, open and with
    the tone going, is untracked. *)
Lemma untrack_and_the_tone_witness :
  let st := MoreScenarios.oneOpen in
  let st' := untrack 1000 "1234" None st in
  NoDup (trackedKey <$> trackedSections st)
  ∧ isAlerting st = true
  ∧ requests st' = requests st ++ [StopTone]
  ∧ isAlerting st' = false.
Proof.
  intros st st'.
  assert (H1 : NoDup (trackedKey <$> trackedSections st))
    by (vm_compute; apply NoDup_singleton).
  split; [exact H1|]. split; [reflexivity|].
  apply (untrack_and_the_tone 1000 "1234" None st H1).
  intros item [Hin Hm]. vm_compute in Hin. apply list_elem_of_singleton in Hin as ->.
  vm_compute in Hm. discriminate.
Defined.

Lemma sameKeysStored_tracking st st' :
  tracking st' = tracking st → sameKeysStored st → sameKeysStored st'.
Proof. unfold tracking, sameKeysStored. intros [= -> _ ->]. done. Qed.

Lemma untrack_stored now (c : string) (r : option string) st :
  storedTracked (untrack now c r st) = Some (trackedSections (untrack now c r st)).
Proof.
  unfold untrack.
  by destruct (hasActiveUndismissedOpenAlerts now _) as [active st1].
Qed.

Lemma act_sameKeysStored st a : sameKeysStored st → sameKeysStored (act st a).
Proof.
  intros Hs. destruct a as [r now|now c s n t sec comp status|now c r|now key|now api|now later|now];
    cbn [act].
  - unfold sameKeysStored, init, startPolling, stopPolling. by case_match.
  - unfold toggleTrack. case_bool_decide; [done|].
    match goal with |- context [renderTrackedList ?s] => set (st1 := renderTrackedList s) end.
    assert (H1 : sameKeysStored st1) by done.
    destruct (String.eqb status "O"); [|done].
    eapply sameKeysStored_tracking; [apply triggerOpenAlert_tracking|exact H1].
  - unfold sameKeysStored. by rewrite untrack_stored.
  - case_bool_decide; [|done]. eapply sameKeysStored_tracking; [|exact Hs].
    unfold clickDismiss. rewrite <- (dismissAlertFor5Minutes_tracking now key st). done.
  - unfold refreshTrackedSections. destruct (trackedSections st) as [|x l] eqn:Hl.
    { eapply sameKeysStored_tracking; [|exact Hs]. unfold tracking. cbn. by rewrite Hl. }
    destruct (isRefreshing st); [done|].
    cbn [trackedSections set_trackedStatus set_isRefreshing]. rewrite Hl.
    destruct (refreshGroups_keeps api (groupTracked (x :: l)) now
                (set_trackedStatus "Refreshing..." (set_isRefreshing true st)) [] 0%nat)
      as [Hk Hsk].
    destruct (refreshGroups _ _ _ _) as [[[[st1 no1] uc1] now1]|[st1 e]];
      cbn [loopEnd] in Hk, Hsk.
    + pose proof (refreshFinish_tracking now1 no1 st1) as Hf.
      unfold tracking in Hf. injection Hf as Hf1 _ Hf3.
      unfold sameKeysStored. cbn. by rewrite Hf1, Hf3.
    + unfold sameKeysStored in *. cbn. rewrite Hk. cbn.
      apply (f_equal storedTracked) in Hsk. cbn in Hsk. rewrite Hsk. exact Hs.
  - eapply sameKeysStored_tracking; [apply showAlertsForOpenSections_tracking|exact Hs].
  - eapply sameKeysStored_tracking; [apply advance_tracking|exact Hs].
Qed.

(** X7.  Whatever the storage holds when the page is first loaded, and
    whatever happens afterwards, the stored list and the list in memory
    hold the same sections in the same order: loading the page again
    neither loses a tracked section nor brings back an untracked one. *)
Theorem stored_list_has_the_tracked_sections (r : string) (now : Z)
    (tracked : option (list TrackedSection)) (dismissed : option (gmap string Z))
    (history : list action) :
  let st := foldl act (init r now tracked dismissed) history in
  trackedKey <$> default [] (storedTracked st) = trackedKey <$> trackedSections st
  ∧ ∀ r' now', trackedKey <$> trackedSections (act st (Reload r' now'))
               = trackedKey <$> trackedSections st.
Proof.
  intros st.
  assert (Hs : sameKeysStored st).
  { subst st. induction history as [|a history IH] using rev_ind.
    - unfold sameKeysStored, init, startPolling, stopPolling. by case_match.
    - rewrite foldl_app. cbn [foldl]. by apply act_sameKeysStored. }
  split; [exact Hs|]. intros r' now'. rewrite <- Hs.
  cbn [act]. unfold init, startPolling, stopPolling. by case_match.
Qed.

(** *** The groups of a tick *)

Lemma addToGroups_keys key item i (gs : list (string * group)) :
  (addToGroups key item i gs).*1
  = if bool_decide (key ∈ gs.*1) then gs.*1 else gs.*1 ++ [key].
Proof.
  induction gs as [|[k g] gs IH].
  - cbn. rewrite bool_decide_eq_false_2; [done|]. apply not_elem_of_nil.
  - cbn [addToGroups]. destruct (String.eqb_spec k key) as [->|Hne].
    + cbn. rewrite bool_decide_eq_true_2; [done|]. by left.
    + cbn. rewrite IH. case_bool_decide as Hin.
      * rewrite bool_decide_eq_true_2; [done|]. by right.
      * rewrite bool_decide_eq_false_2; [done|].
        intros Hk. apply elem_of_cons in Hk as [?|?]; [by subst|done].
Qed.

Lemma addToGroups_member key item i (gs : list (string * group)) k j :
  (∃ g, (k, g) ∈ addToGroups key item i gs ∧ j ∈ g_items g)
  ↔ (∃ g, (k, g) ∈ gs ∧ j ∈ g_items g) ∨ (k = key ∧ j = i).
Proof.
  induction gs as [|[k0 g0] gs IH].
  - cbn. split.
    + intros (g & Hin & Hj). apply list_elem_of_singleton in Hin. injection Hin as -> ->.
      cbn in Hj. apply list_elem_of_singleton in Hj. by right.
    + intros [(g & Hin & _)|[-> ->]]; [by apply elem_of_nil in Hin|].
      eexists. split; [by left|]. cbn. by left.
  - cbn [addToGroups]. destruct (String.eqb_spec k0 key) as [->|Hne].
    + split.
      * intros (g & Hin & Hj). apply elem_of_cons in Hin as [Hin|Hin].
        -- injection Hin as -> ->. cbn in Hj. apply elem_of_app in Hj as [Hj|Hj].
           ++ left. exists g0. split; [by left|done].
           ++ apply list_elem_of_singleton in Hj. by right.
        -- left. exists g. split; [by right|done].
      * intros [(g & Hin & Hj)|[-> ->]].
        -- apply elem_of_cons in Hin as [Hin|Hin].
           ++ injection Hin as -> ->. eexists. split; [by left|]. cbn.
              apply elem_of_app. by left.
           ++ exists g. split; [by right|done].
        -- eexists. split; [by left|]. cbn. apply elem_of_app. right. by left.
    + split.
      * intros (g & Hin & Hj). apply elem_of_cons in Hin as [Hin|Hin].
        -- injection Hin as -> ->. left. exists g0. split; [by left|done].
        -- destruct (proj1 IH) as [(g' & Hg' & Hj')|Hnew]; [by exists g| |by right].
           left. exists g'. split; [by right|done].
      * intros [(g & Hin & Hj)|Hnew].
        -- apply elem_of_cons in Hin as [Hin|Hin].
           ++ injection Hin as -> ->. exists g0. split; [by left|done].
           ++ destruct (proj2 IH) as (g' & Hg' & Hj'); [left; by exists g|].
              exists g'. split; [by right|done].
        -- destruct (proj2 IH) as (g' & Hg' & Hj'); [by right|].
           exists g'. split; [by right|done].
Qed.

Lemma addToGroups_label key item i (gs : list (string * group)) k g :
  (k, g) ∈ addToGroups key item i gs →
  (∃ g0, (k, g0) ∈ gs ∧ g_roster g0 = g_roster g ∧ g_subject g0 = g_subject g)
  ∨ (k = key ∧ g_roster g = roster item ∧ g_subject g = subject item).
Proof.
  induction gs as [|[k0 g0] gs IH]; cbn [addToGroups].
  - intros Hin. apply list_elem_of_singleton in Hin. injection Hin as -> ->. by right.
  - destruct (String.eqb_spec k0 key) as [->|Hne]; intros Hin;
      apply elem_of_cons in Hin as [Hin|Hin].
    + injection Hin as -> ->. left. exists g0. split; [by left|done].
    + left. exists g. split; [by right|done].
    + injection Hin as -> ->. left. exists g0. split; [by left|done].
    + destruct (IH Hin) as [(g1 & Hg1 & Hl)|Hnew]; [|by right].
      left. exists g1. split; [by right|done].
Qed.

Lemma groupTracked_snoc (l : list TrackedSection) x :
  groupTracked (l ++ [x]) = addToGroups (groupKey x) x (length l) (groupTracked l).
Proof.
  unfold groupTracked. rewrite imap_app, foldl_app. cbn [imap foldl fst snd].
  by rewrite Nat.add_0_r.
Qed.

Lemma groupTracked_keys (l : list TrackedSection) :
  NoDup (groupTracked l).*1
  ∧ ∀ k, k ∈ (groupTracked l).*1 ↔ ∃ item, item ∈ l ∧ groupKey item = k.
Proof.
  induction l as [|x l [IH1 IH2]] using rev_ind.
  - split; [constructor|]. intros k. split.
    + intros Hk. by apply elem_of_nil in Hk.
    + intros (item & Hin & _). by apply elem_of_nil in Hin.
  - rewrite groupTracked_snoc, addToGroups_keys. case_bool_decide as Hin.
    + split; [exact IH1|]. intros k. rewrite IH2. split.
      * intros (item & Hi & Hk). exists item. split; [|done]. apply elem_of_app. by left.
      * intros (item & Hi & Hk). apply elem_of_app in Hi as [Hi|Hi]; [by exists item|].
        apply list_elem_of_singleton in Hi. subst item. rewrite <- Hk. by apply IH2.
    + split.
      * apply NoDup_app. split; [exact IH1|]. split; [|apply NoDup_singleton].
        intros k Hk Hk'. apply list_elem_of_singleton in Hk'. by subst.
      * intros k. rewrite elem_of_app, IH2, list_elem_of_singleton. split.
        -- intros [(item & Hi & Hk)| ->].
           ++ exists item. split; [|done]. apply elem_of_app. by left.
           ++ exists x. split; [|done]. apply elem_of_app. right. by left.
        -- intros (item & Hi & Hk). apply elem_of_app in Hi as [Hi|Hi]; [left; by exists item|].
           apply list_elem_of_singleton in Hi. subst item. by right.
Qed.

Lemma groupTracked_member (l : list TrackedSection) k i :
  (∃ g, (k, g) ∈ groupTracked l ∧ i ∈ g_items g)
  ↔ ∃ item, l !! i = Some item ∧ groupKey item = k.
Proof.
  revert k i. induction l as [|x l IH] using rev_ind; intros k i.
  - split.
    + intros (g & Hin & _). by apply elem_of_nil in Hin.
    + intros (item & Hi & _). done.
  - rewrite groupTracked_snoc, addToGroups_member, IH. split.
    + intros [(item & Hi & Hk)|[-> ->]].
      * exists item. split; [|done]. by apply lookup_app_l_Some.
      * exists x. split; [|done]. by rewrite lookup_app_r, Nat.sub_diag.
    + intros (item & Hi & Hk). apply lookup_app_Some in Hi as [Hi|[Hlen Hi]].
      * left. by exists item.
      * right. apply list_lookup_singleton_Some in Hi as [Hz ->]. split; [done|lia].
Qed.

Lemma groupTracked_label (l : list TrackedSection) k g :
  (k, g) ∈ groupTracked l →
  ∃ item, item ∈ l ∧ groupKey item = k
          ∧ roster item = g_roster g ∧ subject item = g_subject g.
Proof.
  revert g. induction l as [|x l IH] using rev_ind; intros g Hin.
  - by apply elem_of_nil in Hin.
  - rewrite groupTracked_snoc in Hin.
    apply addToGroups_label in Hin as [(g0 & Hg0 & Hr & Hs)|(-> & Hr & Hs)].
    + destruct (IH g0 Hg0) as (item & Hi & Hk & Hr' & Hs'). exists item.
      split; [apply elem_of_app; by left|]. repeat split; congruence.
    + exists x. split; [apply elem_of_app; right; by left|]. done.
Qed.

Lemma groupTracked_length (l : list TrackedSection) :
  length (groupTracked l) = size (list_to_set (groupKey <$> l) : gset string).
Proof.
  destruct (groupTracked_keys l) as [Hnd Hkeys].
  rewrite <- (length_fmap fst).
  rewrite <- (size_list_to_set (C := gset string) _ Hnd). f_equal.
  apply set_eq. intros k. rewrite !elem_of_list_to_set, Hkeys, list_elem_of_fmap.
  split; intros (item & H1 & H2); exists item; done.
Qed.

(** X8.  How a tick groups the tracked sections.  The groups have
    distinct keys, one for each [roster:subject] that occurs in the list,
    so that there are as many groups as distinct keys; a section is in the
    group of its key and in no other, once; and the roster and subject
    that a group is fetched for are those of a tracked section with the
    group's key. *)
Theorem groupTracked_partitions (l : list TrackedSection) :
  NoDup (groupTracked l).*1
  ∧ length (groupTracked l) = size (list_to_set (groupKey <$> l) : gset string)
  ∧ allItems (groupTracked l) ≡ₚ seq 0 (length l)
  ∧ (∀ k i, (∃ g, (k, g) ∈ groupTracked l ∧ i ∈ g_items g)
            ↔ ∃ item, l !! i = Some item ∧ groupKey item = k)
  ∧ (∀ k g, (k, g) ∈ groupTracked l →
            ∃ item, item ∈ l ∧ groupKey item = k
                    ∧ roster item = g_roster g ∧ subject item = g_subject g).
Proof.
  split; [apply groupTracked_keys|].
  split; [apply groupTracked_length|split; [apply groupTracked_items|split]].
  - apply groupTracked_member.
  - apply groupTracked_label.
Qed.

(** *** What a tick does to the statuses *)





(** The tick of [successful_tick_witness], spelled out. *)
Example successful_tick_on_threeTracked :
  let st' := refreshTrackedSections 1000 MoreScenarios.allUp Scenarios.threeTracked in
  lastStatus <$> trackedSections st' = ["O"; "O"; "W"]
  ∧ lastCheckedAt <$> trackedSections st' = [2000; 2000; 0]
  ∧ requests st'
    = [ FetchClasses "FA25" "CS"; FetchClasses "FA25" "MATH";
        ShowIndicator "FA25:1234"; StartTone;
        Notify "CourseSnag Alert" (alertMessage [Scenarios.secA]);
        ShowIndicator "FA25:5678" ].
Proof. vm_compute. done. Qed.

(** *** What no tick changes *)

Lemma refreshItem_entries now (idx : gmap string string) st (no : list nat) uc j :
  catalogEntry <$> trackedSections (refreshItem now idx (st, no, uc) j).1.1
  = catalogEntry <$> trackedSections st.
Proof.
  unfold refreshItem.
  destruct (trackedSections st !! j) as [item|] eqn:Hj; [|done].
  destruct (idx !! classNbr item); [|done].
  cbn [fst snd trackedSections set_tracked]. rewrite list_fmap_insert.
  apply list_insert_id. rewrite list_lookup_fmap, Hj. done.
Qed.

Lemma refreshItems_entries now (idx : gmap string string) items st (no : list nat) uc :
  catalogEntry <$> trackedSections (refreshItems now idx items (st, no, uc)).1.1
  = catalogEntry <$> trackedSections st.
Proof.
  revert st no uc. induction items as [|j items IH]; intros st no uc; [done|].
  unfold refreshItems. cbn [foldl].
  pose proof (refreshItem_entries now idx st no uc j) as H1.
  destruct (refreshItem now idx (st, no, uc) j) as [[st1 no1] uc1].
  cbn [fst snd] in H1. rewrite <- H1. apply IH.
Qed.

Lemma refreshGroups_entries api (gs : list (string * group)) now st (no : list nat) uc :
  catalogEntry <$> trackedSections (loopEnd (refreshGroups api gs now (st, no, uc)))
  = catalogEntry <$> trackedSections st.
Proof.
  revert now st no uc. induction gs as [|[k g] gs IH]; intros now st no uc; [done|].
  cbn [refreshGroups]. destruct (r_result (api (g_roster g) (g_subject g))) as [classes|e];
    [|done].
  pose proof (refreshItems_entries (r_at (api (g_roster g) (g_subject g)))
                (statusIndexOf classes) (g_items g)
                (log (FetchClasses (g_roster g) (g_subject g)) st) no uc) as Hk.
  destruct (refreshItems _ _ _ _) as [[st1 no1] uc1]. cbn [fst snd] in Hk.
  rewrite IH. exact Hk.
Qed.

Lemma refreshGroups_rejected api (gs : list (string * group)) now st (no : list nat) uc :
  (∃ kg error, kg ∈ gs ∧ r_result (api (g_roster kg.2) (g_subject kg.2)) = Rejected error) →
  ∃ st1 error, refreshGroups api gs now (st, no, uc) = inr (st1, error).
Proof.
  revert now st no uc. induction gs as [|[k g] gs IH]; intros now st no uc (kg & e & Hin & Hr).
  { by apply elem_of_nil in Hin. }
  cbn [refreshGroups]. destruct (r_result (api (g_roster g) (g_subject g))) as [classes|e0] eqn:Hg.
  - destruct (refreshItems _ _ _ _) as [[st1 no1] uc1]. apply IH.
    apply elem_of_cons in Hin as [->|Hin]; [|by exists kg, e].
    cbn [snd] in Hr. congruence.
  - by eexists _, _.
Qed.

(** X10.  Whatever the service answers, a tick changes nothing of a
    tracked section but its status and the time of its last check: the
    list keeps its length and its order, and every section its class
    number, roster, subject, catalog number, title, section and
    component; the set of tracked keys is as it was; and the stored list
    is either as it was or the list in memory. *)
Theorem tick_touches_only_status_and_time now api st :
  let st' := refreshTrackedSections now api st in
  catalogEntry <$> trackedSections st' = catalogEntry <$> trackedSections st
  ∧ trackedKeySet st' = trackedKeySet st
  ∧ (storedTracked st' = storedTracked st ∨ storedTracked st' = Some (trackedSections st')).
Proof.
  intros st'. subst st'. unfold refreshTrackedSections.
  destruct (trackedSections st) as [|x l] eqn:Hl.
  { cbn. rewrite Hl. split; [done|split; [done|by left]]. }
  destruct (isRefreshing st).
  { rewrite Hl. split; [done|split; [done|by left]]. }
  change (trackedSections (set_trackedStatus "Refreshing..." (set_isRefreshing true st)))
    with (trackedSections st).
  set (st0 := set_trackedStatus "Refreshing..." (set_isRefreshing true st)).
  pose proof (refreshGroups_entries api (groupTracked (trackedSections st)) now st0 [] 0%nat)
    as He.
  pose proof (refreshGroups_keeps api (groupTracked (trackedSections st)) now st0 [] 0%nat)
    as [_ Hs]. cbn zeta in Hs.
  rewrite <- Hl.
  destruct (refreshGroups api (groupTracked (trackedSections st)) now (st0, [], 0%nat))
    as [[[[st1 no1] uc1] now1]|[st1 error]]; cbn [loopEnd] in He, Hs.
  - pose proof (refreshFinish_tracking now1 no1 st1) as Htr. unfold tracking in Htr.
    injection Htr as Ht1 Ht2 Ht3.
    cbn [trackedSections trackedKeySet storedTracked set_isRefreshing].
    rewrite Ht1, Ht2, Ht3. split; [exact He|]. split; [|by right].
    apply (f_equal trackedKeySet) in Hs. exact Hs.
  - cbn [trackedSections trackedKeySet storedTracked set_isRefreshing set_trackedStatus].
    split; [exact He|]. split.
    + apply (f_equal trackedKeySet) in Hs. exact Hs.
    + left. apply (f_equal storedTracked) in Hs. exact Hs.
Qed.

(** X11.  A tick during which some fetch is rejected writes nothing to
    storage and renders nothing: the stored list and the rendered list
    are as before the tick, although the sections of the groups fetched
    before the failure have their new statuses in memory.  So after a
    failed tick the page shows, and a reload restores, the statuses of
    before the tick. *)
Theorem failed_tick_stores_nothing now api st :
  isRefreshing st = false →
  (∃ kg error, kg ∈ groupTracked (trackedSections st)
               ∧ r_result (api (g_roster kg.2) (g_subject kg.2)) = Rejected error) →
  let st' := refreshTrackedSections now api st in
  storedTracked st' = storedTracked st
  ∧ trackedItems st' = trackedItems st
  ∧ dismissedAlerts st' = dismissedAlerts st
  ∧ Forall isFetch (drop (length (requests st)) (requests st')).
Proof.
  intros Hidle Hrej st'. subst st'. unfold refreshTrackedSections.
  destruct (trackedSections st) as [|x l] eqn:Hl.
  { destruct Hrej as (kg & e & Hin & _). by apply elem_of_nil in Hin. }
  rewrite Hidle.
  change (trackedSections (set_trackedStatus "Refreshing..." (set_isRefreshing true st)))
    with (trackedSections st).
  set (st0 := set_trackedStatus "Refreshing..." (set_isRefreshing true st)).
  rewrite <- Hl in Hrej.
  destruct (refreshGroups_rejected api _ now st0 [] 0%nat Hrej) as (st1 & error & Hrun).
  pose proof (refreshGroups_keeps api (groupTracked (trackedSections st)) now st0 [] 0%nat)
    as [_ Hs]. cbn zeta in Hs.
  destruct (refreshGroups_fetches api (groupTracked (trackedSections st)) now st0 [] 0%nat)
    as (fetches & Hreq & Hf).
  rewrite Hrun in *. cbn [loopEnd] in Hs, Hreq.
  cbn [storedTracked trackedItems dismissedAlerts requests set_isRefreshing set_trackedStatus].
  split; [by apply (f_equal storedTracked) in Hs|].
  split; [by apply (f_equal trackedItems) in Hs|].
  split; [by apply (f_equal dismissedAlerts) in Hs|].
  rewrite Hreq. change (requests st0) with (requests st). by rewrite drop_app_length.
Qed.

(** [failed_tick_stores_nothing] on [threeTracked] with the fetch for
    MATH failing. *)
Lemma failed_tick_stores_nothing_witness :
  let st := Scenarios.threeTracked in
  let st' := refreshTrackedSections 1000 Scenarios.mathDown st in
  isRefreshing st = false
  ∧ Scenarios.mathGroup ∈ groupTracked (trackedSections st)
  ∧ storedTracked st' = storedTracked st
  ∧ trackedItems st' = trackedItems st
  ∧ lastStatus <$> trackedSections st' = ["O"; "O"; "W"]
  ∧ lastStatus <$> default [] (storedTracked st') = ["C"; "O"; "W"].
Proof.
  intros st st'.
  assert (H1 : isRefreshing st = false) by reflexivity.
  assert (H2 : Scenarios.mathGroup ∈ groupTracked (trackedSections st))
    by (vm_compute; apply list_elem_of_In; right; left; reflexivity).
  destruct (failed_tick_stores_nothing 1000 Scenarios.mathDown st H1) as (Hs & Hi & _).
  { exists Scenarios.mathGroup, "API error: 503". split; [exact H2|reflexivity]. }
  split; [exact H1|]. split; [exact H2|]. split; [exact Hs|]. split; [exact Hi|].
  split; vm_compute; reflexivity.
Defined.

(** *** The status index of a response *)






(** *** The suppression registry over time and over a page load *)

Lemma isAlertDismissed_synced now k st :
  storedDismissed st = Some (dismissedAlerts st) →
  storedDismissed (isAlertDismissed now k st).2
  = Some (dismissedAlerts (isAlertDismissed now k st).2).
Proof.
  intros Hs. unfold isAlertDismissed. destruct (dismissedAlerts st !! k) as [e|]; [|exact Hs].
  by destruct (e <? now).
Qed.

Lemma someOpenUndismissed_synced now (l : list TrackedSection) st :
  storedDismissed st = Some (dismissedAlerts st) →
  storedDismissed (someOpenUndismissed now l st).2
  = Some (dismissedAlerts (someOpenUndismissed now l st).2).
Proof.
  revert st. induction l as [|item l IH]; intros st Hs; [exact Hs|].
  cbn [someOpenUndismissed]. destruct (String.eqb (lastStatus item) "O"); [|by apply IH].
  pose proof (isAlertDismissed_synced now (trackedKey item) st Hs) as Hd.
  destruct (isAlertDismissed now (trackedKey item) st) as [d st1]. cbn [snd] in Hd.
  destruct d; cbn [negb]; [by apply IH|exact Hd].
Qed.

Lemma dismissAlertFor5Minutes_synced now key st :
  storedDismissed (dismissAlertFor5Minutes now key st)
  = Some (dismissedAlerts (dismissAlertFor5Minutes now key st)).
Proof.
  unfold dismissAlertFor5Minutes, hasActiveUndismissedOpenAlerts.
  set (st0 := saveDismissedAlerts _).
  pose proof (someOpenUndismissed_synced now (trackedSections st0) st0 eq_refl) as Hs.
  destruct (someOpenUndismissed now (trackedSections st0) st0) as [active st1].
  cbn [snd] in Hs. destruct active; cbn [negb]; [exact Hs|].
  unfold stopAlertSound. cbn. by destruct (isAlerting st1).
Qed.

(** X13.  How long a dismissal lasts.  After [dismissAlertFor5Minutes]
    at [T], with the evictions that are due run as time passes: at any
    instant [t] from [T] on by which no eviction left over from an earlier
    dismissal of the same key is due, the key is suppressed exactly when
    [t] is less than five minutes after [T]; and the stored registry is
    the registry in memory. *)
Theorem dismissal_lasts_five_minutes st key (T t : Z) :
  T ≤ t →
  (∀ due, (due, key) ∈ evictionTimers st → t < due) →
  let st1 := dismissAlertFor5Minutes T key st in
  (isAlertDismissed t key (advance t st1)).1 = bool_decide (t < T + FIVE_MINUTES)
  ∧ storedDismissed st1 = Some (dismissedAlerts st1).
Proof.
  intros Hle Hstale st1. split; [|apply dismissAlertFor5Minutes_synced].
  destruct (dismissAlertFor5Minutes_entry T key st) as [Hentry Htimers].
  fold st1 in Hentry, Htimers.
  unfold isAlertDismissed, advance.
  rewrite runDue_lookup, Htimers, dueFor_app, (dueFor_none _ _ _ Hstale).
  cbn [dueFor existsb fst snd orb]. rewrite String.eqb_refl, Hentry.
  destruct (Z.leb_spec (T + FIVE_MINUTES) t); cbn [andb orb fst];
    case_bool_decide; try lia; try done.
  destruct (Z.ltb_spec (T + FIVE_MINUTES) t); [lia|done].
Qed.

(** [dismissal_lasts_five_minutes] on [oneOpen], dismissed at 1 s and
    asked about four minutes later. *)
Lemma dismissal_lasts_five_minutes_witness :
  let st1 := dismissAlertFor5Minutes 1000 Scenarios.cs2110 MoreScenarios.oneOpen in
  evictionTimers MoreScenarios.oneOpen = []
  ∧ (isAlertDismissed 241000 Scenarios.cs2110 (advance 241000 st1)).1 = true.
Proof.
  intros st1.
  assert (H : evictionTimers MoreScenarios.oneOpen = []) by reflexivity.
  split; [exact H|].
  apply (dismissal_lasts_five_minutes MoreScenarios.oneOpen Scenarios.cs2110 1000 241000).
  - lia.
  - intros due Hin. rewrite H in Hin. by apply elem_of_nil in Hin.
Defined.

(** X14.  A dismissal and a page load.  The page is loaded at [now]
    after a dismissal made at [T].  If [now] is within the five minutes,
    the entry is restored, and since the evictions that were pending are
    gone with the old page, the key stays suppressed up to the end of the
    five minutes whatever was pending before; from then on a query removes
    the entry.  If the five minutes are over at [now], the entry is not
    restored. *)
Theorem dismissal_across_reload st key (T now : Z) (r : string) :
  let st1 := dismissAlertFor5Minutes T key st in
  let st2 := act st1 (Reload r now) in
  evictionTimers st2 = []
  ∧ (now < T + FIVE_MINUTES →
     ∀ t, (isAlertDismissed t key (advance t st2)).1 = bool_decide (t ≤ T + FIVE_MINUTES))
  ∧ (T + FIVE_MINUTES ≤ now → dismissedAlerts st2 !! key = None).
Proof.
  intros st1 st2.
  destruct (dismissAlertFor5Minutes_entry T key st) as [Hentry _].
  pose proof (dismissAlertFor5Minutes_synced T key st) as Hsync.
  fold st1 in Hentry, Hsync.
  assert (Hmap : dismissedAlerts st2
                 = filter (λ kv, now < kv.2) (dismissedAlerts st1) ∪ ∅).
  { subst st2. cbn [act]. rewrite Hsync. unfold init, startPolling, stopPolling. cbn.
    done. }
  assert (Htimers : evictionTimers st2 = []) by reflexivity.
  split; [exact Htimers|]. split.
  - intros Hin t. unfold isAlertDismissed, advance.
    rewrite runDue_lookup, Htimers. cbn [dueFor existsb].
    rewrite Hmap, (right_id_L ∅ (∪)).
    rewrite (map_lookup_filter_Some_2 _ _ key (T + FIVE_MINUTES)); [|exact Hentry|exact Hin].
    destruct (Z.ltb_spec (T + FIVE_MINUTES) t); case_bool_decide; try lia; done.
  - intros Hout. rewrite Hmap, (right_id_L ∅ (∪)).
    apply map_lookup_filter_None_2. right. intros x Hx. rewrite Hentry in Hx.
    injection Hx as <-. cbn. lia.
Qed.

(** *** The roster, and the test button of the sound *)

(** X15.  The roster that [loadRosters] selects: none exactly when the
    service lists no roster; the first roster flagged as default when one
    is flagged; the first roster when none is; always one of the
    list. *)
Theorem selectRoster_spec (rosters : list rosterRecord) :
  (selectRoster rosters = None ↔ rosters = [])
  ∧ (∀ s, selectRoster rosters = Some s → ∃ ro, ro ∈ rosters ∧ slug ro = s)
  ∧ (∀ before ro after,
       rosters = before ++ ro :: after →
       isDefaultRoster ro = "Y" →
       Forall (λ x, isDefaultRoster x ≠ "Y") before →
       selectRoster rosters = Some (slug ro))
  ∧ (∀ ro rest,
       rosters = ro :: rest →
       Forall (λ x, isDefaultRoster x ≠ "Y") rosters →
       selectRoster rosters = Some (slug ro)).
Proof.
  unfold selectRoster. split; [|split; [|split]].
  - destruct (list_find _ rosters) as [[i ro]|] eqn:Hf.
    + apply list_find_Some in Hf as (Hi & _). split; [done|]. intros ->. by rewrite lookup_nil in Hi.
    + destruct rosters; cbn; [done|]. split; done.
  - intros s. destruct (list_find _ rosters) as [[i ro]|] eqn:Hf.
    + apply list_find_Some in Hf as (Hi & _). intros [= <-]. exists ro.
      split; [|done]. by apply list_elem_of_lookup_2 in Hi.
    + destruct rosters as [|ro rest]; cbn; [done|]. intros [= <-]. exists ro.
      split; [by left|done].
  - intros before ro after -> Hy Hbefore.
    assert (Hf : list_find (λ r, isDefaultRoster r = "Y") (before ++ ro :: after)
                 = Some (length before, ro)).
    { apply list_find_Some. split; [by rewrite list_lookup_middle|]. split; [done|].
      intros j y Hj Hlt. rewrite lookup_app_l in Hj by done.
      rewrite Forall_forall in Hbefore. apply Hbefore. by apply list_elem_of_lookup_2 in Hj. }
    by rewrite Hf.
  - intros ro rest -> Hnone.
    assert (Hf : list_find (λ r, isDefaultRoster r = "Y") (ro :: rest) = None).
    { apply list_find_None. exact Hnone. }
    by rewrite Hf.
Qed.

(** X16.  The test button of the sound is a switch: [onTestSound]
    requests the tone when it is off and its end when it is on, inverts
    [isAlerting] and changes nothing else; two clicks leave the state as
    it was, but for the two requests made. *)
Theorem onTestSound_switches (st : App.state) :
  let st' := onTestSound st in
  isAlerting st' = negb (isAlerting st)
  ∧ requests st' = requests st ++ [if isAlerting st then StopTone else StartTone]
  ∧ quiet st' = quiet st
  ∧ dismissedAlerts st' = dismissedAlerts st
  ∧ set_requests [] (onTestSound st') = set_requests [] st.
Proof.
  intros st'. subst st'. unfold onTestSound, startAlertSound, stopAlertSound.
  destruct st as [? ? ? ? ? ? ? ? ? [] ? ? ? ? ? ? ?]; cbn; done.
Qed.


(** *** What the page shows *)

Lemma rendered_refl st : rendered st st.
Proof. split; [done|]. split; [done|]. intros key Hk. by left. Qed.

Lemma rendered_trans st1 st2 st3 : rendered st1 st2 → rendered st2 st3 → rendered st1 st3.
Proof.
  intros (A1 & A2 & A3) (B1 & B2 & B3). split; [congruence|]. split; [congruence|].
  intros key Hk. destruct (B3 key Hk) as [H|H]; [by apply A3|]. right. by rewrite <- A1.
Qed.

Lemma rendered_onPage st st' : rendered st st' → onPage st → onPage st'.
Proof.
  intros (A1 & A2 & A3) [P1 P2]. split; [by rewrite A1, A2|].
  intros key Hk. rewrite A1. destruct (A3 key Hk) as [H|H]; [by apply P2|done].
Qed.

(** A step that leaves the document and the tracked list alone. *)
Lemma rendered_same st st' :
  trackedItems st' = trackedItems st → alertOverlays st' = alertOverlays st →
  trackedSections st' = trackedSections st → rendered st st'.
Proof. intros H1 H2 H3. split; [done|]. split; [by rewrite H3|]. rewrite H2. by left. Qed.

Lemma isAlertDismissed_rendered now key st : rendered st (isAlertDismissed now key st).2.
Proof.
  unfold isAlertDismissed. destruct (dismissedAlerts st !! key) as [e|]; [|apply rendered_refl].
  destruct (e <? now); [|apply rendered_refl]. by apply rendered_same.
Qed.

Lemma someOpenUndismissed_rendered now (l : list TrackedSection) st :
  rendered st (someOpenUndismissed now l st).2.
Proof.
  revert st. induction l as [|item l IH]; intros st; [apply rendered_refl|].
  cbn [someOpenUndismissed]. destruct (String.eqb (lastStatus item) "O"); [|apply IH].
  pose proof (isAlertDismissed_rendered now (trackedKey item) st) as Hd.
  destruct (isAlertDismissed now (trackedKey item) st) as [d st1]. cbn [snd] in Hd.
  destruct d; cbn [negb]; [|exact Hd]. eapply rendered_trans; [exact Hd|apply IH].
Qed.

Lemma showAlertOverItem_rendered key st :
  key ∈ trackedItems st → rendered st (showAlertOverItem key st).
Proof.
  intros Hk. unfold showAlertOverItem. case_bool_decide; [apply rendered_refl|].
  split; [done|]. split; [done|]. cbn. intros k Hin.
  apply elem_of_union in Hin as [Hin|Hin]; [|by left].
  apply elem_of_singleton in Hin as ->. by right.
Qed.

Lemma alertOne_rendered now st (acts : list TrackedSection) item :
  rendered st (alertOne now (st, acts) item).1.
Proof.
  unfold alertOne. case_bool_decide; cbn [negb]; [|apply rendered_refl].
  pose proof (isAlertDismissed_rendered now (trackedKey item) st) as Hd.
  destruct (isAlertDismissed now (trackedKey item) st) as [d st1]. cbn [snd] in Hd.
  destruct d; [exact Hd|]. case_bool_decide as Hin; [|exact Hd]. cbn [fst].
  eapply rendered_trans; [exact Hd|]. by apply showAlertOverItem_rendered.
Qed.

Lemma foldl_alertOne_rendered now (l : list TrackedSection) st (acts : list TrackedSection) :
  rendered st (foldl (alertOne now) (st, acts) l).1.
Proof.
  revert st acts. induction l as [|item l IH]; intros st acts; [apply rendered_refl|].
  cbn [foldl]. pose proof (alertOne_rendered now st acts item) as H1.
  destruct (alertOne now (st, acts) item) as [st1 acts1]. cbn [fst] in H1.
  eapply rendered_trans; [exact H1|apply IH].
Qed.

Lemma triggerOpenAlert_rendered now (l : list TrackedSection) st :
  rendered st (triggerOpenAlert now l st).
Proof.
  unfold triggerOpenAlert. destruct l as [|x l]; [apply rendered_refl|].
  pose proof (foldl_alertOne_rendered now (x :: l) st []) as H1.
  destruct (foldl (alertOne now) (st, []) (x :: l)) as [st1 acts]. cbn [fst] in H1.
  eapply rendered_trans; [exact H1|].
  set (tone := bool_decide (0 < length acts)%nat && soundEnabled st1).
  set (st2 := if tone then startAlertSound st1 else st1).
  assert (H2 : rendered st1 st2).
  { subst st2. destruct tone; [|apply rendered_refl]. unfold startAlertSound.
    destruct (isAlerting (log StartTone st1)); by apply rendered_same. }
  eapply rendered_trans; [exact H2|].
  destruct (bool_decide (0 < length acts)%nat && notifyEnabled st2); [|apply rendered_refl].
  by apply rendered_same.
Qed.

Lemma filterAsking_rendered now before after (l : list TrackedSection) st :
  rendered st (filterAsking now before after l st).2.
Proof.
  revert st. induction l as [|item l IH]; intros st; [apply rendered_refl|].
  cbn [filterAsking]. destruct (before item); [|apply IH].
  pose proof (isAlertDismissed_rendered now (trackedKey item) st) as Hd.
  destruct (isAlertDismissed now (trackedKey item) st) as [d st1]. cbn [snd] in Hd.
  specialize (IH st1). destruct (filterAsking now before after l st1) as [kept st2].
  cbn [snd] in *. eapply rendered_trans; [exact Hd|exact IH].
Qed.

Lemma foldl_resurface_rendered (l : list TrackedSection) st :
  rendered st (foldl resurface st l).
Proof.
  revert st. induction l as [|item l IH]; intros st; [apply rendered_refl|].
  cbn [foldl]. eapply rendered_trans; [|apply IH].
  unfold resurface. case_bool_decide; [|apply rendered_refl].
  by apply showAlertOverItem_rendered.
Qed.

Lemma stopAlertSound_rendered st : rendered st (stopAlertSound st).
Proof. unfold stopAlertSound. destruct (negb _); by apply rendered_same. Qed.

Lemma dismissAlertFor5Minutes_rendered now key st :
  rendered st (dismissAlertFor5Minutes now key st).
Proof.
  unfold dismissAlertFor5Minutes, hasActiveUndismissedOpenAlerts.
  set (st0 := saveDismissedAlerts _).
  assert (H0 : rendered st st0) by by apply rendered_same.
  pose proof (someOpenUndismissed_rendered now (trackedSections st0) st0) as H1.
  destruct (someOpenUndismissed now (trackedSections st0) st0) as [active st1].
  cbn [snd] in H1.
  assert (H2 : rendered st1 (if negb active then stopAlertSound st1 else st1)).
  { destruct active; [apply rendered_refl|apply stopAlertSound_rendered]. }
  eapply rendered_trans; [exact H0|]. eapply rendered_trans; [exact H1|].
  eapply rendered_trans; [exact H2|]. by apply rendered_same.
Qed.

Lemma runDue_rendered now (timers : list (Z * string)) st : rendered st (runDue now timers st).
Proof.
  revert st. induction timers as [|[due key] timers IH]; intros st.
  - by apply rendered_same.
  - cbn [runDue]. destruct (due <=? now).
    + eapply rendered_trans; [|apply IH]. by apply rendered_same.
    + eapply rendered_trans; [apply IH|]. by apply rendered_same.
Qed.

Lemma renderTrackedList_onPage st : onPage (renderTrackedList st).
Proof. split; [done|]. cbn. intros key Hk. by apply elem_of_empty in Hk. Qed.

Lemma toggleTrack_onPage now (c s n t sec comp status : string) st :
  onPage st → onPage (toggleTrack now c s n t sec comp status st).
Proof.
  intros Hp. unfold toggleTrack. case_bool_decide; [exact Hp|].
  match goal with |- context [renderTrackedList ?s] => set (st1 := renderTrackedList s) end.
  assert (H1 : onPage st1) by apply renderTrackedList_onPage.
  destruct (String.eqb status "O"); [|exact H1].
  eapply rendered_onPage; [apply triggerOpenAlert_rendered|exact H1].
Qed.

Lemma untrack_onPage now (c : string) (r : option string) st : onPage (untrack now c r st).
Proof.
  unfold untrack. destruct (hasActiveUndismissedOpenAlerts now _) as [active st1].
  apply renderTrackedList_onPage.
Qed.

Lemma refreshFinish_onPage now (no : list nat) st : onPage (refreshFinish now no st).
Proof.
  unfold refreshFinish.
  set (st1 := set_trackedStatus "" (renderTrackedList (saveTrackedSections st))).
  assert (H1 : onPage st1).
  { split; [done|]. cbn. intros key Hk. by apply elem_of_empty in Hk. }
  set (actionable := filter _ _).
  set (st2 := if bool_decide (0 < length actionable)%nat then _ else _).
  assert (H2 : onPage st2).
  { subst st2. case_bool_decide; [|exact H1].
    eapply rendered_onPage; [apply triggerOpenAlert_rendered|exact H1]. }
  match goal with |- context [filterAsking ?n ?b ?a ?l ?s] =>
    pose proof (filterAsking_rendered n b a l s) as Hf;
    destruct (filterAsking n b a l s) as [open st3] end.
  cbn [snd] in Hf.
  eapply rendered_onPage; [apply foldl_resurface_rendered|].
  eapply rendered_onPage; [exact Hf|exact H2].
Qed.

Lemma refreshTrackedSections_onPage now api st :
  onPage st → onPage (refreshTrackedSections now api st).
Proof.
  intros [P1 P2]. unfold refreshTrackedSections.
  destruct (trackedSections st) as [|x l] eqn:Hl; [split; cbn; by rewrite ?Hl|].
  destruct (isRefreshing st); [split; by rewrite ?Hl|].
  change (trackedSections (set_trackedStatus "Refreshing..." (set_isRefreshing true st)))
    with (trackedSections st).
  set (st0 := set_trackedStatus "Refreshing..." (set_isRefreshing true st)).
  pose proof (refreshGroups_keeps api (groupTracked (trackedSections st)) now st0 [] 0%nat)
    as [Hk Hs]. cbn zeta in Hk, Hs.
  destruct (refreshGroups api (groupTracked (trackedSections st)) now (st0, [], 0%nat))
    as [[[[st1 no1] uc1] now1]|[st1 error]]; cbn [loopEnd] in Hk, Hs.
  - split; [apply refreshFinish_onPage|apply refreshFinish_onPage].
  - split.
    + cbn. rewrite Hk. apply (f_equal trackedItems) in Hs. cbn in Hs. rewrite Hs.
      change (trackedSections st0) with (trackedSections st). rewrite Hl. exact P1.
    + cbn. apply (f_equal trackedItems) in Hs as Hi. apply (f_equal alertOverlays) in Hs.
      cbn in Hs, Hi. rewrite Hs, Hi. exact P2.
Qed.

Lemma act_onPage st a : onPage st → onPage (act st a).
Proof.
  intros Hp. destruct a as [r now|now c s n t sec comp status|now c r|now key|now api|now later|now];
    cbn [act].
  - unfold init, startPolling, stopPolling. split; [by case_match|].
    case_match; cbn; intros key Hk; by apply elem_of_empty in Hk.
  - by apply toggleTrack_onPage.
  - apply untrack_onPage.
  - case_bool_decide; [|exact Hp]. unfold clickDismiss.
    pose proof (dismissAlertFor5Minutes_rendered now key st) as Hd.
    destruct (rendered_onPage _ _ Hd Hp) as [Q1 Q2]. split; [done|].
    cbn. intros k Hk. apply Q2. by apply elem_of_difference in Hk as [? _].
  - by apply refreshTrackedSections_onPage.
  - unfold showAlertsForOpenSections.
    match goal with |- context [filterAsking ?n ?b ?a ?l ?s] =>
      pose proof (filterAsking_rendered n b a l s) as Hf;
      destruct (filterAsking n b a l s) as [open st1] end.
    cbn [snd] in Hf. pose proof (rendered_onPage _ _ Hf Hp) as H1.
    case_bool_decide; [|exact H1].
    eapply rendered_onPage; [apply triggerOpenAlert_rendered|exact H1].
  - eapply rendered_onPage; [apply runDue_rendered|exact Hp].
Qed.

(** X17.  The page shows the tracked sections.  From a page load on
    (whatever the storage held), through any sequence of page loads,
    track, untrack, dismiss, ticks (successful or not), page-load alerts
    and timers: the rendered items are the tracked sections, in their
    order, and every overlay is attached to a rendered item, so no
    overlay is shown for a section that is not tracked. *)
Theorem page_shows_the_tracked_sections (r : string) (now : Z)
    (tracked : option (list TrackedSection)) (dismissed : option (gmap string Z))
    (history : list action) :
  let st := foldl act (init r now tracked dismissed) history in
  trackedItems st = trackedKey <$> trackedSections st
  ∧ (∀ key, key ∈ alertOverlays st →
       ∃ item, item ∈ trackedSections st ∧ trackedKey item = key).
Proof.
  intros st.
  assert (Hp : onPage st).
  { subst st. induction history as [|a history IH] using rev_ind.
    - unfold init, startPolling, stopPolling. split; [by case_match|].
      case_match; cbn; intros key Hk; by apply elem_of_empty in Hk.
    - rewrite foldl_app. cbn [foldl]. by apply act_onPage. }
  destruct Hp as [P1 P2]. split; [exact P1|].
  intros key Hk. apply P2 in Hk. rewrite P1 in Hk.
  apply list_elem_of_fmap in Hk as (item & -> & Hin). by exists item.
Qed.


(** *** Dismissing and the tone *)

(** X18.  Dismissing and the tone.  [dismissAlertFor5Minutes] for a key
    asks for the tone to stop, and the tone is off afterwards, when no
    tracked section with another key is open without a running dismissal;
    when there is such a section it leaves the tone as it is and asks for
    nothing.  So the tone goes on until the last alert is dismissed. *)
Theorem dismiss_and_the_tone now (key : string) st :
  let others item := item ∈ trackedSections st ∧ trackedKey item ≠ key in
  let st' := dismissAlertFor5Minutes now key st in
  ((∀ item, others item → ¬ openUnsuppressed now st item) →
   requests st' = requests st ++ [StopTone] ∧ isAlerting st' = false)
  ∧ ((∃ item, others item ∧ openUnsuppressed now st item) →
     requests st' = requests st ∧ isAlerting st' = isAlerting st).
Proof.
  intros others st'. subst st'. unfold dismissAlertFor5Minutes, hasActiveUndismissedOpenAlerts.
  set (st0 := saveDismissedAlerts _).
  change (trackedSections st0) with (trackedSections st).
  assert (Hsame : ∀ item,
            openUnsuppressed now st0 item
            ↔ trackedKey item ≠ key ∧ openUnsuppressed now st item).
  { intros item. unfold openUnsuppressed. cbn [dismissedAlerts st0 saveDismissedAlerts
      set_storedDismissed set_dismissed].
    destruct (decide (trackedKey item = key)) as [->|Hne].
    - rewrite lookup_insert_eq. split; [|tauto]. intros [_ Hno]. exfalso. apply Hno.
      exists (now + FIVE_MINUTES). split; [done|]. unfold FIVE_MINUTES. lia.
    - rewrite lookup_insert_ne by done. tauto. }
  destruct (someOpenUndismissed_spec now (trackedSections st) st0) as [Hyes Hno].
  pose proof (someOpenUndismissed_unregistered now (trackedSections st) st0) as Hun.
  destruct (someOpenUndismissed now (trackedSections st) st0) as [a st2].
  cbn [fst snd] in Hyes, Hno, Hun.
  assert (Hreq2 : requests st2 = requests st) by exact (f_equal requests Hun).
  assert (Hal2 : isAlerting st2 = isAlerting st) by exact (f_equal isAlerting Hun).
  split.
  - intros Hquiet. destruct a.
    + destruct (proj1 Hyes eq_refl) as (item & Hin & Hopen).
      apply Hsame in Hopen as [Hne Hopen]. exfalso. by apply (Hquiet item).
    + cbn [negb]. unfold stopAlertSound.
      destruct (negb (isAlerting (log StopTone st2))) eqn:Hn; cbn; rewrite Hreq2; [|done].
      split; [done|]. cbn in Hn. by apply negb_true_iff in Hn.
  - intros (item & [Hin Hne] & Hopen). destruct a.
    + cbn [negb]. cbn. done.
    + exfalso. assert (false = true); [|done]. apply Hyes. exists item.
      split; [exact Hin|]. by apply Hsame.
Qed.

(** *** The alerts of a page load *)












(** *** Tracking a new section *)



End MoreAppFacts.

(** ** More on the request scheduler *)

Module MoreSchedulerFacts.

Import Scheduler Failures.

Section WithPayload.

Context {D : Type}.

Implicit Types (c : call D) (st : sched) (ds : list dispatch).

Lemma spaced_gap ds (k i : nat) a b :
  spaced ds → ds !! i = Some a → ds !! (i + k)%nat = Some b →
  d_start a + RATE_LIMIT_MS * Z.of_nat k ≤ d_start b.
Proof.
  intros Hsp Ha. revert b. induction k as [|k IH]; intros b Hb.
  - rewrite Nat.add_0_r, Ha in Hb. injection Hb as <-. unfold RATE_LIMIT_MS. lia.
  - destruct (ds !! (i + k)%nat) as [m|] eqn:Hm.
    + specialize (IH m eq_refl). replace (i + S k)%nat with (S (i + k)) in Hb by lia.
      destruct (SchedulerFacts.spaced_lookup ds (i + k) m b Hsp Hm Hb) as [H1 _].
      unfold RATE_LIMIT_MS in *. lia.
    + apply lookup_ge_None in Hm. apply lookup_lt_Some in Hb. lia.
Qed.

Lemma rateLimitedFetch_timing c st :
  timely c →
  ∃ d, dispatched (rateLimitedFetch c st).1 = dispatched st ++ [d]
       ∧ settledAt (rateLimitedFetch c st).2 = d_finish d
       ∧ c_submitted c ≤ d_start d ∧ d_start d ≤ d_finish d.
Proof.
  intros (Hlag & Hlate & Htook). rewrite SchedulerFacts.rateLimitedFetch_unfold.
  eexists. split; [reflexivity|]. split; [reflexivity|].
  cbn -[Z.max Z.add Z.sub Z.ltb]. unfold RATE_LIMIT_MS.
  destruct (Z.ltb_spec
              (Z.max (c_submitted c) (settledAt (requestQueue st)) + c_lag c
               - lastRequestTime st) 1000); lia.
Qed.

Lemma submitAll_timing (cs : list (call D)) st :
  Forall timely cs →
  ∃ ds', dispatched (submitAll cs st).1 = dispatched st ++ ds'
         ∧ settledAt <$> (submitAll cs st).2 = d_finish <$> ds'
         ∧ Forall2 (λ c d, c_submitted c ≤ d_start d ∧ d_start d ≤ d_finish d) cs ds'.
Proof.
  revert st. induction cs as [|c cs IH]; intros st Hall.
  - exists []. cbn. by rewrite app_nil_r.
  - inversion Hall as [|? ? Hc Hcs]; subst. cbn [submitAll].
    destruct (rateLimitedFetch_timing c st Hc) as (d & Hd & Hs & Hcd).
    destruct (rateLimitedFetch c st) as [st1 p]. cbn [fst snd] in Hd, Hs.
    destruct (IH st1 Hcs) as (ds' & Hds & Hset & Hf).
    destruct (submitAll cs st1) as [st2 ps]. cbn [fst snd] in *.
    exists (d :: ds'). rewrite Hds, Hd, <- app_assoc. split; [done|].
    split; [by rewrite !fmap_cons, Hs, Hset|]. by constructor.
Qed.

End WithPayload.

(** X21.  The timing of a burst, as long as the clock and the timers do
    not run backwards.  No fetch starts before its call was made; the
    promise returned for a call settles when the task of its fetch ends,
    never before the fetch started; and the fetch of the [k]-th next call
    starts at least [k] seconds after the fetch of a call, so a burst of
    [n] calls keeps the scheduler busy for at least [n - 1] seconds. *)
Theorem burst_timing {D : Type} (cs : list (call D)) (t0 : Z) :
  Forall timely cs →
  let ds := dispatched (submitAll cs (initial t0)).1 in
  let ps := (submitAll cs (initial t0)).2 in
  length ds = length cs
  ∧ settledAt <$> ps = d_finish <$> ds
  ∧ (∀ i c d, cs !! i = Some c → ds !! i = Some d →
              c_submitted c ≤ d_start d ∧ d_start d ≤ d_finish d)
  ∧ (∀ (i k : nat) a b, ds !! i = Some a → ds !! (i + k)%nat = Some b →
                        d_start a + 1000 * Z.of_nat k ≤ d_start b).
Proof.
  intros Hall ds ps.
  destruct (submitAll_timing cs (initial t0) Hall) as (ds' & Hds & Hset & Hf).
  cbn [initial dispatched app] in Hds. fold ds in Hds. fold ps in Hset. subst ds'.
  split; [symmetry; exact (Forall2_length _ _ _ Hf)|]. split; [exact Hset|]. split.
  - intros i c d Hc Hd. exact (Forall2_lookup_lr _ _ _ _ _ _ Hf Hc Hd).
  - intros i k a b Ha Hb.
    destruct (SchedulerFacts.submitAll_keeps cs (initial t0) Hall I I) as [_ Hsp].
    exact (spaced_gap ds k i a b Hsp Ha Hb).
Qed.

(** [burst_timing] on [burst]. *)
Lemma burst_timing_witness :
  Forall timely Scenarios.burst
  ∧ let ds := dispatched (submitAll Scenarios.burst (initial 4000)).1 in
    length ds = 3%nat
    ∧ ∀ (i k : nat) a b, ds !! i = Some a → ds !! (i + k)%nat = Some b →
                          d_start a + 1000 * Z.of_nat k ≤ d_start b.
Proof.
  assert (H : Forall timely Scenarios.burst).
  { repeat constructor; simpl; lia. }
  split; [exact H|].
  destruct (burst_timing Scenarios.burst 4000 H) as (Hlen & _ & _ & Hgap).
  split; [exact Hlen|exact Hgap].
Defined.

(** X22.  What the user is told when a fetch fails.  A response that is
    not [ok] is reported by its status: 404 as the context followed by
    [not found.], 429 as too many requests, every status from 500 to 599
    as a server error; every other status from 100 to 499 is shown as
    [API error:] and the number.  A transport failure whose message is
    [Failed to fetch] is reported as a connection problem.  A body that is
    not a success envelope is reported by its message, or by a fixed text
    when the message is empty.  The text is never empty. *)
Theorem failure_messages {D : Type} (context : string) :
  (∀ payload, reported (D := D) (Response false 404 payload) context
              = Some (context +:+ " not found."))
  ∧ (∀ payload, reported (D := D) (Response false 429 payload) context
                = Some "Too many requests. Please wait a moment.")
  ∧ (∀ status payload, 500 ≤ status ≤ 599 →
       reported (D := D) (Response false status payload) context
       = Some "Cornell server error. Try again later.")
  ∧ (∀ status payload, 100 ≤ status ≤ 499 → status ≠ 404 → status ≠ 429 →
       reported (D := D) (Response false status payload) context
       = Some ("API error: " +:+ pretty status))
  ∧ reported (D := D) (NetworkFailure "Failed to fetch") context
    = Some "Unable to connect. Check your internet connection."
  ∧ (∀ (data : D), reported (Response true 200 (Envelope "error" "" data)) context
                   = Some "API returned error status")
  ∧ (∀ (t : transport D), reported t context ≠ Some "").
Proof.
  split; [done|]. split; [done|]. split; [|split; [|split; [done|split; [done|]]]].
  - intros status payload Hs.
    assert (Hall : forallb (λ s, String.eqb
                     (App.getUserFriendlyError ("API error: " +:+ pretty s) context)
                     "Cornell server error. Try again later.") (seqZ 500 100) = true)
      by (vm_compute; reflexivity).
    rewrite forallb_forall in Hall.
    specialize (Hall status). unfold reported. cbn [receive negb].
    f_equal. apply String.eqb_eq, Hall, list_elem_of_In, elem_of_seqZ. lia.
  - intros status payload Hs H404 H429.
    assert (Hall : forallb (λ s, (s =? 404) || (s =? 429) || String.eqb
                     (App.getUserFriendlyError ("API error: " +:+ pretty s) context)
                     ("API error: " +:+ pretty s)) (seqZ 100 400) = true)
      by (vm_compute; reflexivity).
    rewrite forallb_forall in Hall.
    specialize (Hall status). unfold reported. cbn [receive negb].
    f_equal. apply String.eqb_eq.
    assert (Hin : In status (seqZ 100 400)) by (apply list_elem_of_In, elem_of_seqZ; lia).
    specialize (Hall Hin). destruct (Z.eqb_spec status 404); [done|].
    destruct (Z.eqb_spec status 429); [done|]. exact Hall.
  - intros t. unfold reported. destruct (receive t) as [v|message]; [done|].
    intros [= H]. unfold App.getUserFriendlyError in H.
    repeat match type of H with
           | (if ?b then _ else _) = _ => destruct b eqn:?; try discriminate
           end.
    + by destruct context.
    + by destruct message.
Qed.

End MoreSchedulerFacts.

(** ** Settings *)

Module SettingsFacts.

Import App Settings.








End SettingsFacts.

(** ** Attribute escaping *)

Module MarkupFacts.

Import Markup.

Lemma append_cons a (s t : string) : String a s +:+ t = String a (s +:+ t).
Proof. reflexivity. Qed.

Lemma append_nil (t : string) : EmptyString +:+ t = t.
Proof. reflexivity. Qed.

Lemma append_assoc (s1 s2 s3 : string) : (s1 +:+ s2) +:+ s3 = s1 +:+ (s2 +:+ s3).
Proof.
  induction s1 as [|a s1 IH]; [done|].
  change (String a s1 +:+ s2) with (String a (s1 +:+ s2)).
  change (String a (s1 +:+ s2) +:+ s3) with (String a ((s1 +:+ s2) +:+ s3)).
  by rewrite IH.
Qed.

Lemma replaceAll_app c rep (s1 s2 : string) :
  replaceAll c rep (s1 +:+ s2) = replaceAll c rep s1 +:+ replaceAll c rep s2.
Proof.
  induction s1 as [|a s1 IH]; [done|].
  change (String a s1 +:+ s2) with (String a (s1 +:+ s2)). cbn [replaceAll].
  destruct (Ascii.eqb a c); rewrite IH; [|done].
  by rewrite append_assoc.
Qed.

(** The five passes over the whole string do what one pass does that
    replaces each character by its entity: no replacement text contains a
    character that a later pass replaces. *)
Lemma escapeAttr_escapeEach (str : string) : escapeAttr str = escapeEach str.
Proof.
  induction str as [|a str IH]; [done|].
  unfold escapeAttr in *. cbn [escapeEach]. unfold entity. cbn [replaceAll].
  destruct (Ascii.eqb a ampersand) eqn:E1.
  { rewrite !replaceAll_app, IH. done. }
  cbn [replaceAll]. destruct (Ascii.eqb a doubleQuote) eqn:E2.
  { rewrite !replaceAll_app, IH. done. }
  cbn [replaceAll]. destruct (Ascii.eqb a singleQuote) eqn:E3.
  { rewrite !replaceAll_app, IH. done. }
  cbn [replaceAll]. destruct (Ascii.eqb a lessThan) eqn:E4.
  { rewrite !replaceAll_app, IH. done. }
  cbn [replaceAll]. destruct (Ascii.eqb a greaterThan) eqn:E5.
  { rewrite IH. done. }
  by rewrite IH.
Qed.

Lemma occurs_app c (s1 s2 : string) : occurs c (s1 +:+ s2) = occurs c s1 || occurs c s2.
Proof.
  induction s1 as [|a s1 IH]; [done|].
  change (String a s1 +:+ s2) with (String a (s1 +:+ s2)). cbn [occurs]. rewrite IH.
  by rewrite orb_assoc.
Qed.

Lemma entity_safe (a c : Ascii.ascii) :
  c = doubleQuote ∨ c = singleQuote ∨ c = lessThan ∨ c = greaterThan →
  occurs c (entity a) = false.
Proof.
  intros Hc. unfold entity.
  destruct (Ascii.eqb a ampersand); [by destruct Hc as [->|[->|[->| ->]]]|].
  destruct (Ascii.eqb_spec a doubleQuote) as [->|H2]; [by destruct Hc as [->|[->|[->| ->]]]|].
  destruct (Ascii.eqb_spec a singleQuote) as [->|H3]; [by destruct Hc as [->|[->|[->| ->]]]|].
  destruct (Ascii.eqb_spec a lessThan) as [->|H4]; [by destruct Hc as [->|[->|[->| ->]]]|].
  destruct (Ascii.eqb_spec a greaterThan) as [->|H5]; [by destruct Hc as [->|[->|[->| ->]]]|].
  cbn [occurs]. rewrite orb_false_r. apply Ascii.eqb_neq.
  by destruct Hc as [->|[->|[->| ->]]].
Qed.

Lemma escapeEach_inj (s1 s2 : string) : escapeEach s1 = escapeEach s2 → s1 = s2.
Proof.
  revert s2. induction s1 as [|a s1 IH]; intros [|b s2] H; [done| | |].
  - cbn [escapeEach] in H. unfold entity in H.
    repeat match type of H with
           | context [Ascii.eqb ?x ?y] => destruct (Ascii.eqb x y)
           end; discriminate.
  - cbn [escapeEach] in H. unfold entity in H.
    repeat match type of H with
           | context [Ascii.eqb ?x ?y] => destruct (Ascii.eqb x y)
           end; discriminate.
  - cbn [escapeEach] in H. unfold entity in H.
    destruct (Ascii.eqb_spec a ampersand) as [->|A1];
      [|destruct (Ascii.eqb_spec a doubleQuote) as [->|A2];
        [|destruct (Ascii.eqb_spec a singleQuote) as [->|A3];
          [|destruct (Ascii.eqb_spec a lessThan) as [->|A4];
            [|destruct (Ascii.eqb_spec a greaterThan) as [->|A5]]]]];
    (destruct (Ascii.eqb_spec b ampersand) as [->|B1];
      [|destruct (Ascii.eqb_spec b doubleQuote) as [->|B2];
        [|destruct (Ascii.eqb_spec b singleQuote) as [->|B3];
          [|destruct (Ascii.eqb_spec b lessThan) as [->|B4];
            [|destruct (Ascii.eqb_spec b greaterThan) as [->|B5]]]]]);
    rewrite ?append_cons, ?append_nil in H; try discriminate;
    try (injection H as H; f_equal; by apply IH);
    try (injection H as Hb H; first [congruence | f_equal; [done|by apply IH]]).
Qed.

(** X24.  [escapeAttr] makes a text safe to put between the quotes of an
    attribute and loses nothing.  Its result holds no double quote, no
    single quote and no angle bracket; it is the text with each of the
    five characters replaced by its entity, whatever the order of the five
    passes suggests (an ampersand that a pass writes is never replaced
    again); a text without the five characters is returned as it is; and
    two different texts never give the same result. *)
Theorem escapeAttr_safe_and_faithful (str : string) :
  (∀ c, c = doubleQuote ∨ c = singleQuote ∨ c = lessThan ∨ c = greaterThan →
        occurs c (escapeAttr str) = false)
  ∧ escapeAttr str = escapeEach str
  ∧ ((∀ c, c = ampersand ∨ c = doubleQuote ∨ c = singleQuote ∨ c = lessThan
           ∨ c = greaterThan → occurs c str = false) → escapeAttr str = str)
  ∧ (∀ str', escapeAttr str = escapeAttr str' → str = str').
Proof.
  split; [|split; [apply escapeAttr_escapeEach|split]].
  - intros c Hc. rewrite escapeAttr_escapeEach.
    induction str as [|a str IH]; [done|]. cbn [escapeEach].
    by rewrite occurs_app, IH, (entity_safe a c Hc).
  - intros Hclean. rewrite escapeAttr_escapeEach.
    induction str as [|a str IH]; [done|]. cbn [escapeEach].
    rewrite IH.
    + unfold entity.
      assert (Ha : ∀ c, c = ampersand ∨ c = doubleQuote ∨ c = singleQuote ∨ c = lessThan
                        ∨ c = greaterThan → Ascii.eqb a c = false).
      { intros c Hc. specialize (Hclean c Hc). cbn [occurs] in Hclean.
        by apply orb_false_iff in Hclean as [? _]. }
      rewrite !Ha by tauto. done.
    + intros c Hc. specialize (Hclean c Hc). cbn [occurs] in Hclean.
      by apply orb_false_iff in Hclean as [_ ?].
  - intros str'. rewrite !escapeAttr_escapeEach. apply escapeEach_inj.
Qed.

End MarkupFacts.

(** ** More on the search panel *)

Module MoreSearchFacts.

Import App Search SearchHandlers SearchFacts.

Implicit Types (st : state) (p : pending).

Ltac coherent_parts :=
  unfold coherent in *;
  cbn [currentRoster subjectSet fetched inFlight searchRequestSeq searchResults
       cachedClasses cachedSubject set_results set_error setSearchStatus set_expanded
       set_seq set_cache set_isSearching set_timer set_input set_fetches] in *;
  repeat match goal with H : _ ∧ _ |- _ => destruct H end;
  (split; [|split; [|split; [|split; [|split; [|split]]]]]);
  try done; try reflexivity; try apply sublist_nil_l; try apply sublist_filter.

Lemma parseSearchInput_subject (S : gset string) (input subject query : string) :
  parseSearchInput S input = Some (subject, query) → subject ∈ S.
Proof.
  unfold parseSearchInput. destruct (String.eqb (normalize input) ""); [done|].
  destruct (spanUpper (normalize input)) as [s rest].
  destruct (String.eqb s ""); [done|].
  match goal with |- context [negb ?m] => destruct m end; cbn [negb]; [|done].
  case_bool_decide; cbn [negb]; [|done]. by intros [= <- _].
Qed.

Lemma coherent_frame r (subjects : gset string) st st' :
  currentRoster st' = currentRoster st → subjectSet st' = subjectSet st →
  fetched st' = fetched st → inFlight st' = inFlight st →
  searchRequestSeq st' = searchRequestSeq st → searchResults st' = searchResults st →
  cachedClasses st' = cachedClasses st → cachedSubject st' = cachedSubject st →
  coherent r subjects st → coherent r subjects st'.
Proof. unfold coherent. by intros -> -> -> -> -> -> -> ->. Qed.

(** [showResults] keeps the panel coherent, and makes it so when only
    the results were not taken from the cache, if the call is current. *)
Lemma showResults_coherent r (subjects : gset string) p st :
  coherent r subjects (set_results [] st) →
  isCurrentSearch p st = true ∨ searchResults st `sublist_of` cachedClasses st →
  coherent r subjects (showResults p st).
Proof.
  intros (H1 & H2 & H3 & H4 & H5 & _ & H7) Hor. unfold showResults.
  cbn [currentRoster subjectSet fetched inFlight searchRequestSeq cachedSubject set_results]
    in H1, H2, H3, H4, H5, H7.
  destruct (isCurrentSearch p st) eqn:Hc; cbn [negb].
  - destruct (String.eqb (p_query p) ""); cbn [negb];
      match goal with |- context [match ?l with [] => _ | _ => _ end] =>
        destruct l as [|? [|? ?]] end; unfold coherent; cbn;
      (split; [done|]; split; [done|]; split; [done|]; split; [done|]; split; [done|];
       split; [first [reflexivity | apply sublist_filter]|done]).
  - destruct Hor as [?|Hsub]; [done|]. by unfold coherent.
Qed.

Lemma set_seq_coherent r (subjects : gset string) st :
  coherent r subjects st → coherent r subjects (set_seq (S (searchRequestSeq st)) st).
Proof.
  intros (H1 & H2 & H3 & H4 & H5 & H6 & H7). repeat split; try done.
  cbn. eapply Forall_impl; [exact H4|]. intros p [? ?]. split; [lia|done].
Qed.

Lemma performSearch_coherent r (subjects : gset string) st :
  coherent r subjects st → coherent r subjects (performSearch st).
Proof.
  intros Hco. pose proof (set_seq_coherent r subjects st Hco) as Hco1.
  destruct Hco as (H1 & H2 & H3 & H4 & H5 & H6 & H7).
  unfold performSearch. cbn [subjectSet set_seq searchInput].
  destruct (parseSearchInput (subjectSet st) (searchInput st)) as [[subject query]|] eqn:Hp.
  - apply parseSearchInput_subject in Hp. rewrite H2 in Hp.
    case_bool_decide as Hcache; cbn [negb].
    + apply showResults_coherent; [|by right]. clear -Hco1. coherent_parts.
    + destruct Hco1 as (G1 & G2 & G3 & G4 & G5 & G6 & G7).
      cbn [currentRoster subjectSet fetched inFlight searchRequestSeq searchResults
           cachedClasses cachedSubject set_seq] in G1, G2, G3, G4, G5, G6, G7.
      split; [done|]. split; [done|]. split; [|split; [|split; [|done]]].
      * cbn. apply Forall_app. split; [done|]. by apply Forall_singleton.
      * cbn. apply Forall_app. split; [done|]. apply Forall_singleton. cbn. split; [lia|done].
      * cbn. intros i j p q Hij Hi Hj.
        apply lookup_app_Some in Hj as [Hj|[Hlen Hj]].
        -- apply (G5 i j p q Hij); [|done].
           rewrite lookup_app_l in Hi; [done|]. apply lookup_lt_Some in Hj. lia.
        -- apply list_lookup_singleton_Some in Hj as [Hz <-]. cbn.
           rewrite lookup_app_l in Hi by lia.
           rewrite Forall_forall in H4. apply list_elem_of_lookup_2 in Hi.
           destruct (H4 p Hi). lia.
  - clear -Hco1. coherent_parts.
Qed.

Lemma resumeSearch_coherent r (subjects : gset string) p result st :
  coherent r subjects st → p_subject p ∈ subjects →
  coherent r subjects (resumeSearch p result st).
Proof.
  intros Hco Hp. pose proof Hco as (H1 & H2 & H3 & H4 & H5 & H6 & H7).
  unfold resumeSearch. destruct result as [classes|error].
  - destruct (isCurrentSearch p st) eqn:Hc; cbn [negb]; [|done].
    rewrite (isCurrentSearch_frame p st (set_cache (Some (p_subject p)) classes st)) by done.
    rewrite Hc. cbn [negb]. apply showResults_coherent.
    + clear -Hco Hp. coherent_parts. by intros s [= <-].
    + left. rewrite <- Hc. by apply isCurrentSearch_frame.
  - destruct (isCurrentSearch p st) eqn:Hc; cbn [negb]; [|done].
    clear -Hco. coherent_parts.
Qed.

Lemma delete_coherent r (subjects : gset string) (k : nat) st :
  coherent r subjects st →
  coherent r subjects (set_fetches (fetched st) (delete k (inFlight st)) st).
Proof.
  intros (H1 & H2 & H3 & H4 & H5 & H6 & H7).
  split; [done|]. split; [done|]. split; [done|]. split; [|split; [|done]].
  - cbn. by apply Forall_delete.
  - cbn. intros i j p q Hij Hi Hj.
    destruct (decide (j < k)%nat).
    + rewrite list_lookup_delete_lt in Hi, Hj by lia. by apply (H5 i j).
    + rewrite list_lookup_delete_ge in Hj by lia. destruct (decide (i < k)%nat).
      * rewrite list_lookup_delete_lt in Hi by lia. apply (H5 i (S j)); [lia|done..].
      * rewrite list_lookup_delete_ge in Hi by lia. apply (H5 (S i) (S j)); [lia|done..].
Qed.

Lemma step_coherent r (subjects : gset string) st (e : event) :
  coherent r subjects st → coherent r subjects (step st e).
Proof.
  intros Hco. destruct e as [text| |k result]; cbn [step].
  - unfold onSearchInput.
    set (st1 := if String.eqb _ "" then _ else _).
    assert (Hco1 : coherent r subjects st1).
    { subst st1. destruct (String.eqb _ ""); by apply (coherent_frame r subjects st). }
    unfold debounceSearch.
    destruct (parseSearchInput (subjectSet st1) (searchInput st1)) as [[subject query]|].
    + case_bool_decide.
      * apply performSearch_coherent. by apply (coherent_frame r subjects st1).
      * by apply (coherent_frame r subjects st1).
    + by apply (coherent_frame r subjects st1).
  - destruct (searchDebounceTimer st); [|done].
    apply performSearch_coherent. by apply (coherent_frame r subjects st).
  - destruct (inFlight st !! k) as [p|] eqn:Hk; [|done].
    apply resumeSearch_coherent; [by apply delete_coherent|].
    destruct Hco as (_ & _ & _ & H4 & _). rewrite Forall_forall in H4.
    apply list_elem_of_lookup_2 in Hk. by destruct (H4 p Hk).
Qed.

Lemma handle_coherent r (subjects : gset string) st (e : panelEvent) :
  coherent r subjects st → coherent r subjects (handle st e).
Proof.
  intros Hco. destruct e as [e|subject| |courseId]; cbn [handle].
  - by apply step_coherent.
  - unfold onSearchShortcutClick. destruct (String.eqb (normalize subject) ""); [done|].
    apply performSearch_coherent. by apply (coherent_frame r subjects st).
  - unfold onRefreshClick. destruct (cachedSubject st) as [subject|] eqn:Hc; [|done].
    destruct (String.eqb subject ""); [done|].
    apply performSearch_coherent.
    clear -Hco. coherent_parts.
  - unfold toggleCourse. case_bool_decide; by apply (coherent_frame r subjects st).
Qed.


Lemma reachable_coherent (r : string) (subjects : gset string)
    (events : list panelEvent) :
  coherent r subjects (foldl handle (fresh r subjects) events).
Proof.
  assert (H0 : coherent r subjects (fresh r subjects)).
  { unfold coherent, fresh. cbn. split; [done|]. split; [done|].
    split; [constructor|]. split; [constructor|]. split; [|done].
    intros i j p q _ Hi. by rewrite lookup_nil in Hi. }
  revert H0. generalize (fresh r subjects).
  induction events as [|e events IH]; intros s Hs; [exact Hs|].
  cbn [foldl]. apply IH. by apply handle_coherent.
Qed.

(** X25.  What holds of the search panel at any time, from the moment
    the subjects of the roster are loaded, whatever is typed, whenever the
    timer fires, whatever the fetches answer and in whatever order, and
    whatever is clicked.  Every fetch made was for the current roster and
    for a subject of the roster.  Of the calls waiting for their
    responses at most one can still be current, so at most one response
    will be applied.  The results shown are taken from the cached listing,
    in its order.  The cached subject is a subject of the roster. *)
Theorem panel_stays_coherent (r : string) (subjects : gset string)
    (events : list panelEvent) :
  let st := foldl handle (fresh r subjects) events in
  (∀ roster subject, (roster, subject) ∈ fetched st → roster = r ∧ subject ∈ subjects)
  ∧ (∀ i j p q, inFlight st !! i = Some p → inFlight st !! j = Some q →
                isCurrentSearch p st = true → isCurrentSearch q st = true → i = j)
  ∧ searchResults st `sublist_of` cachedClasses st
  ∧ (∀ s, cachedSubject st = Some s → s ∈ subjects).
Proof.
  intros st.
  pose proof (reachable_coherent r subjects events) as Hco. fold st in Hco.
  destruct Hco as (H1 & H2 & H3 & H4 & H5 & H6 & H7).
  split; [|split; [|split; [exact H6|exact H7]]].
  - intros roster subject Hin. rewrite Forall_forall in H3. exact (H3 _ Hin).
  - intros i j p q Hi Hj Hp Hq.
    apply isCurrentSearch_spec in Hp as [Hp _]. apply isCurrentSearch_spec in Hq as [Hq _].
    destruct (Nat.lt_trichotomy i j) as [Hlt|[Heq|Hgt]]; [|exact Heq|].
    + pose proof (H5 i j p q Hlt Hi Hj). lia.
    + pose proof (H5 j i q p Hgt Hj Hi). lia.
Qed.

(** *** When a fetch is made *)

Lemma showResults_fetched p st :
  fetched (showResults p st) = fetched st ∧ inFlight (showResults p st) = inFlight st
  ∧ isSearching (showResults p st) = isSearching st.
Proof.
  unfold showResults. destruct (negb (isCurrentSearch p st)); [done|].
  destruct (negb (String.eqb (p_query p) ""));
    match goal with |- context [match ?l with [] => _ | _ => _ end] =>
      destruct l as [|? [|? ?]] end; done.
Qed.

Lemma performSearch_cached st (subject query : string) :
  parseSearchInput (subjectSet st) (searchInput st) = Some (subject, query) →
  cachedSubject st = Some subject →
  fetched (performSearch st) = fetched st ∧ inFlight (performSearch st) = inFlight st.
Proof.
  intros Hp Hc. unfold performSearch. cbn [subjectSet set_seq searchInput cachedSubject].
  rewrite Hp, Hc, bool_decide_eq_true_2 by done. cbn [negb].
  destruct (showResults_fetched
              (Pending (S (searchRequestSeq st)) (normalize (searchInput st)) subject query)
              (set_seq (S (searchRequestSeq st)) st)) as (-> & -> & _). done.
Qed.

Lemma performSearch_fetched st :
  fetched (performSearch st) = fetched st
  ∨ ∃ x, fetched (performSearch st) = fetched st ++ [x].
Proof.
  unfold performSearch. cbn [subjectSet set_seq searchInput cachedSubject].
  destruct (parseSearchInput (subjectSet st) (searchInput st)) as [[subject query]|];
    [|by left].
  case_bool_decide; cbn [negb]; [|right; by eexists].
  left. by destruct (showResults_fetched
              (Pending (S (searchRequestSeq st)) (normalize (searchInput st)) subject query)
              (set_seq (S (searchRequestSeq st)) st)) as (-> & _).
Qed.

Lemma performSearch_searching st :
  isSearching st = true → isSearching (performSearch st) = true.
Proof.
  intros Hs. unfold performSearch. cbn [subjectSet set_seq searchInput cachedSubject].
  destruct (parseSearchInput (subjectSet st) (searchInput st)) as [[subject query]|];
    [|done].
  case_bool_decide; cbn [negb]; [|done].
  by destruct (showResults_fetched
              (Pending (S (searchRequestSeq st)) (normalize (searchInput st)) subject query)
              (set_seq (S (searchRequestSeq st)) st)) as (_ & _ & ->).
Qed.

Lemma resumeSearch_fetched p result st :
  fetched (resumeSearch p result st) = fetched st.
Proof.
  unfold resumeSearch. destruct result as [classes|error].
  - destruct (negb (isCurrentSearch p st)); [done|].
    destruct (negb (isCurrentSearch p _)); [done|].
    by destruct (showResults_fetched p
                   (set_isSearching false (set_cache (Some (p_subject p)) classes st)))
      as (-> & _).
  - by destruct (negb (isCurrentSearch p st)).
Qed.

Lemma input_fetched st (text : string) :
  fetched (step st (Input text)) = fetched st
  ∧ inFlight (step st (Input text)) = inFlight st.
Proof.
  cbn [step]. unfold onSearchInput.
  set (st1 := if String.eqb _ "" then _ else _).
  assert (H1 : fetched st1 = fetched st ∧ inFlight st1 = inFlight st).
  { subst st1. by destruct (String.eqb _ ""). }
  destruct H1 as [<- <-]. unfold debounceSearch.
  destruct (parseSearchInput (subjectSet st1) (searchInput st1)) as [[subject query]|] eqn:Hp;
    [|done].
  case_bool_decide as Hc; [|done].
  by apply (performSearch_cached (set_timer false st1) subject query).
Qed.

Lemma handle_fetched st (e : panelEvent) :
  fetched (handle st e) = fetched st
  ∨ (mayFetch e = true ∧ ∃ x, fetched (handle st e) = fetched st ++ [x]).
Proof.
  destruct e as [[text| |k result]|subject| |courseId]; cbn [handle mayFetch].
  - left. apply input_fetched.
  - cbn [step]. destruct (searchDebounceTimer st); [|by left].
    destruct (performSearch_fetched (set_timer false st)) as [H|H]; [by left|by right].
  - left. cbn [step]. destruct (inFlight st !! k); [|done]. by rewrite resumeSearch_fetched.
  - unfold onSearchShortcutClick. destruct (String.eqb (normalize subject) ""); [by left|].
    match goal with |- context [performSearch ?s] =>
      destruct (performSearch_fetched s) as [H|H] end; [by left|by right].
  - unfold onRefreshClick. destruct (cachedSubject st) as [subject|]; [|by left].
    destruct (String.eqb subject ""); [by left|].
    match goal with |- context [performSearch ?s] =>
      destruct (performSearch_fetched s) as [H|H] end; [by left|by right].
  - left. unfold toggleCourse. by case_bool_decide.
Qed.

(** X26.  When the panel fetches.  Typing never issues a fetch, nor
    does a response; a fetch is issued only when the debounce timer fires
    or on a click on a shortcut or on the refresh button, and then at most
    one.  So however many edits are made before the timer fires, they cost
    at most one fetch. *)
Theorem fetches_are_debounced :
  (∀ st (text : string),
     fetched (step st (Input text)) = fetched st
     ∧ inFlight (step st (Input text)) = inFlight st)
  ∧ (∀ st (events : list panelEvent),
       (length (fetched (foldl handle st events))
        ≤ length (fetched st) + length (filter (λ e, mayFetch e = true) events))%nat)
  ∧ (∀ st (texts : list string),
       (length (fetched (run ((Input <$> texts) ++ [DebounceFires]) st))
        ≤ length (fetched st) + 1)%nat).
Proof.
  split; [exact input_fetched|].
  assert (Hbound : ∀ st (events : list panelEvent),
       (length (fetched (foldl handle st events))
        ≤ length (fetched st) + length (filter (λ e, mayFetch e = true) events))%nat).
  { intros st events. revert st. induction events as [|e events IH]; intros st; [cbn; lia|].
    cbn [foldl]. specialize (IH (handle st e)).
    destruct (handle_fetched st e) as [H|(Hm & x & H)]; rewrite H in IH.
    - rewrite filter_cons. destruct (decide (mayFetch e = true)); cbn [length]; lia.
    - rewrite filter_cons_True by done. rewrite length_app in IH. cbn [length] in *. lia. }
  split; [exact Hbound|].
  intros st texts. unfold run.
  assert (Hrun : ∀ (es : list event) s,
            foldl step s es = foldl handle s (Coordinator <$> es)).
  { induction es as [|e es IH]; intros s; [done|]. cbn [foldl fmap list_fmap]. apply IH. }
  rewrite Hrun. etrans; [apply Hbound|].
  apply Nat.add_le_mono_l. rewrite fmap_app, filter_app, length_app.
  assert (Hnone : filter (λ e, mayFetch e = true) (Coordinator <$> (Input <$> texts)) = []).
  { induction texts as [|t texts IH]; [done|]. cbn [fmap list_fmap].
    rewrite filter_cons_False; [exact IH|]. cbn. done. }
  rewrite Hnone. cbn [fmap list_fmap app length]. rewrite filter_cons_True by done.
  cbn. lia.
Qed.

(** *** The searching flag *)

Lemma resumeSearch_searching p result st :
  isSearching st = true → isSearching (resumeSearch p result st) = false →
  isCurrentSearch p st = true.
Proof.
  intros Hs Hf. destruct (isCurrentSearch p st) eqn:Hc; [done|].
  rewrite (resumeSearch_stale _ _ _ Hc) in Hf. congruence.
Qed.

(** X27.  Once the searching flag is set, the only thing that lowers it
    is the response of a fetch whose call is still current.  No edit, no
    firing of the timer, no click and no stale response lowers it. *)
Theorem searching_flag_lowered_only_by_current_response st (e : panelEvent) :
  isSearching st = true →
  isSearching (handle st e) = false →
  ∃ k p result,
    e = Coordinator (Respond k result)
    ∧ inFlight st !! k = Some p
    ∧ isCurrentSearch p st = true.
Proof.
  intros Hs Hf. destruct e as [[text| |k result]|subject| |courseId]; cbn [handle] in Hf.
  - exfalso. cbn [step] in Hf. unfold onSearchInput in Hf.
    set (st1 := if String.eqb _ "" then _ else _) in Hf.
    assert (H1 : isSearching st1 = true).
    { subst st1. by destruct (String.eqb _ ""). }
    unfold debounceSearch in Hf.
    destruct (parseSearchInput (subjectSet st1) (searchInput st1)) as [[subject query]|];
      [|cbn in Hf; congruence].
    case_bool_decide; [|cbn in Hf; congruence].
    rewrite (performSearch_searching (set_timer false st1)) in Hf; done.
  - exfalso. cbn [step] in Hf. destruct (searchDebounceTimer st); [|congruence].
    rewrite (performSearch_searching (set_timer false st)) in Hf; done.
  - cbn [step] in Hf. destruct (inFlight st !! k) as [p|] eqn:Hk; [|congruence].
    exists k, p, result. split; [done|]. split; [done|].
    apply resumeSearch_searching in Hf; [|done].
    rewrite <- Hf. symmetry. by apply isCurrentSearch_frame.
  - exfalso. unfold onSearchShortcutClick in Hf.
    destruct (String.eqb (normalize subject) ""); [congruence|].
    rewrite performSearch_searching in Hf; done.
  - exfalso. unfold onRefreshClick in Hf. destruct (cachedSubject st) as [subject|]; [|congruence].
    destruct (String.eqb subject ""); [congruence|].
    rewrite performSearch_searching in Hf; done.
  - exfalso. unfold toggleCourse in Hf. case_bool_decide; cbn in Hf; congruence.
Qed.

(** [searching_flag_lowered_only_by_current_response] on the response
    to the fetch for CS. *)
Lemma searching_flag_witness :
  let e := Coordinator (Respond 0 (Fulfilled Scenarios.csCourses)) in
  isSearching Scenarios.csInFlight = true
  ∧ isSearching (handle Scenarios.csInFlight e) = false
  ∧ ∃ k p result,
      e = Coordinator (Respond k result)
      ∧ inFlight Scenarios.csInFlight !! k = Some p
      ∧ isCurrentSearch p Scenarios.csInFlight = true.
Proof.
  intros e.
  assert (H1 : isSearching Scenarios.csInFlight = true) by (vm_compute; reflexivity).
  assert (H2 : isSearching (handle Scenarios.csInFlight e) = false) by (vm_compute; reflexivity).
  split; [exact H1|]. split; [exact H2|].
  exact (searching_flag_lowered_only_by_current_response Scenarios.csInFlight e H1 H2).
Defined.

(** X28.  A search that is given up while its fetch is under way leaves
    the searching flag set.  The flag is set, the text is replaced by one
    that is no search (the box is emptied, say) and the timer fires: from
    then on, whatever the fetches under way answer, the flag stays set,
    nothing is shown and no fetch is made.  (The flag is what
    [renderSearchResults] reads to show its spinner, app.js 540.) *)
Theorem searching_flag_outlives_abandoned_search (r : string) (subjects : gset string)
    (events : list panelEvent) (text : string)
    (rs : list (nat * settled (list course))) :
  let st := foldl handle (fresh r subjects) events in
  isSearching st = true →
  parseSearchInput subjects text = None →
  let st' := run ([Input text; DebounceFires] ++ responses rs) st in
  isSearching st' = true
  ∧ searchResults st' = []
  ∧ fetched st' = fetched st
  ∧ ∀ p, p ∈ inFlight st' → isCurrentSearch p st' = false.
Proof.
  intros st Hs Hp st'.
  pose proof (reachable_coherent r subjects events) as Hco. fold st in Hco.
  destruct Hco as (H1 & H2 & H3 & H4 & H5 & H6 & H7).
  subst st'. unfold run. rewrite foldl_app.
  set (st1 := foldl step st [Input text; DebounceFires]).
  assert (J : isSearching st1 = true ∧ searchResults st1 = [] ∧ fetched st1 = fetched st
              ∧ Forall (λ p, (p_requestSeq p < searchRequestSeq st1)%nat) (inFlight st1)).
  { subst st1. cbn [foldl step]. unfold onSearchInput.
    set (st0 := if String.eqb _ "" then _ else _).
    assert (G : subjectSet st0 = subjects ∧ searchInput st0 = text
                ∧ isSearching st0 = true ∧ fetched st0 = fetched st
                ∧ inFlight st0 = inFlight st ∧ searchRequestSeq st0 = searchRequestSeq st).
    { subst st0. by destruct (String.eqb _ ""). }
    destruct G as (G1 & G2 & G3 & G4 & G5 & G6).
    unfold debounceSearch. rewrite G1, G2, Hp. cbn [searchDebounceTimer set_timer].
    unfold performSearch. cbn [subjectSet set_seq searchInput set_timer]. rewrite G1, G2, Hp.
    cbn. rewrite G3, G4, G5, G6. split; [done|]. split; [done|]. split; [done|].
    eapply Forall_impl; [exact H4|]. intros p [? _]. cbn in *. lia. }
  clearbody st1. revert st1 J.
  induction rs as [|[k result] rs IH]; intros s (J1 & J2 & J3 & J4).
  - cbn. split; [done|]. split; [done|]. split; [done|].
    intros p Hin. rewrite Forall_forall in J4. specialize (J4 p Hin).
    apply not_true_is_false. intros Hc. apply isCurrentSearch_spec in Hc as [Hc _]. lia.
  - cbn [responses fmap list_fmap foldl fst snd]. apply IH.
    cbn [step]. destruct (inFlight s !! k) as [p|] eqn:Hk; [|done].
    rewrite resumeSearch_stale.
    + cbn. split; [done|]. split; [done|]. split; [done|]. by apply Forall_delete.
    + apply not_true_is_false. intros Hc. apply isCurrentSearch_spec in Hc as [Hc _].
      cbn in Hc. rewrite Forall_forall in J4.
      apply list_elem_of_lookup_2 in Hk. specialize (J4 p Hk). lia.
Qed.

(** [searching_flag_outlives_abandoned_search]: CS is entered and its
    fetch is under way; the box is emptied; the listing arrives. *)
Lemma searching_flag_outlives_witness :
  let events := Coordinator <$> [Input "CS"; DebounceFires] in
  let st := foldl handle Scenarios.searchStart events in
  let st' := run ([Input ""; DebounceFires]
                  ++ responses [(0%nat, Fulfilled Scenarios.csCourses)]) st in
  isSearching st = true
  ∧ parseSearchInput {["CS"; "MATH"]} "" = None
  ∧ isSearching st' = true
  ∧ searchResults st' = []
  ∧ inFlight st' = [].
Proof.
  intros events st st'.
  assert (H1 : isSearching st = true) by (vm_compute; reflexivity).
  assert (H2 : parseSearchInput ({["CS"; "MATH"]} : gset string) "" = None)
    by (vm_compute; reflexivity).
  destruct (searching_flag_outlives_abandoned_search "FA25" {["CS"; "MATH"]} events ""
              [(0%nat, Fulfilled Scenarios.csCourses)] H1 H2) as (G1 & G2 & _).
  split; [exact H1|]. split; [exact H2|]. split; [exact G1|]. split; [exact G2|].
  vm_compute. reflexivity.
Defined.


(** *** What the parser returns, and the course cards *)

Lemma spanUpper_spec (s : string) :
  s = (spanUpper s).1 +:+ (spanUpper s).2
  ∧ allChars isUpper (spanUpper s).1 = true.
Proof.
  induction s as [|a s [IH1 IH2]]; [done|]. cbn [spanUpper].
  destruct (isUpper a) eqn:Ha; [|done].
  destruct (spanUpper s) as [p r]. cbn [fst snd allChars] in *.
  rewrite Ha, IH2. split; [|done]. rewrite IH1 at 1. done.
Qed.

Lemma prefix_append (p r : string) : String.prefix p (p +:+ r) = true.
Proof.
  induction p as [|a p IH]; [by destruct r|].
  change (String a p +:+ r) with (String a (p +:+ r)). cbn [String.prefix].
  by destruct (Ascii.ascii_dec a a).
Qed.

Lemma rev_app_append (s acc : string) :
  String.rev_app s acc = String.rev_app s "" +:+ acc.
Proof.
  revert acc. induction s as [|a s IH]; intros acc; [done|]. cbn [String.rev_app].
  rewrite (IH (String a acc)), (IH (String a "")).
  generalize (String.rev_app s ""). intros x.
  induction x as [|b x IHx]; [done|].
  change (String b x +:+ String a acc) with (String b (x +:+ String a acc)).
  change (String b x +:+ String a "") with (String b (x +:+ String a "")).
  change (String b (x +:+ String a "") +:+ acc) with (String b ((x +:+ String a "") +:+ acc)).
  by rewrite IHx.
Qed.

Lemma rev_app_snoc (y : string) d (acc : string) :
  String.rev_app (y +:+ String d "") acc = String d (String.rev_app y acc).
Proof.
  revert acc. induction y as [|a y IH]; intros acc; [done|].
  change (String a y +:+ String d "") with (String a (y +:+ String d "")).
  cbn [String.rev_app]. apply IH.
Qed.

Lemma trimStart_snoc (x : string) d :
  Ascii.is_space d = false → ∃ y, trimStart (x +:+ String d "") = y +:+ String d "".
Proof.
  intros Hd. induction x as [|a x IH].
  - exists "". change ("" +:+ String d "") with (String d ""). cbn [trimStart].
    by rewrite Hd.
  - change (String a x +:+ String d "") with (String a (x +:+ String d "")).
    cbn [trimStart]. destruct (Ascii.is_space a); [exact IH|]. by exists (String a x).
Qed.

Lemma trim_head d (s : string) :
  Ascii.is_space d = false → ∃ s', trim (String d s) = String d s'.
Proof.
  intros Hd. unfold trim. cbn [trimStart]. rewrite Hd.
  unfold String.rev at 2. cbn [String.rev_app]. rewrite rev_app_append.
  destruct (trimStart_snoc (String.rev_app s "") d Hd) as [y ->].
  unfold String.rev. rewrite rev_app_snoc. by eexists.
Qed.

Lemma isDigit_not_space d : isDigit d = true → Ascii.is_space d = false.
Proof. by destruct d as [[] [] [] [] [] [] [] []]. Qed.

(** X29.  What [parseSearchInput] returns, when it returns something:
    the subject is one of the subjects of the roster, it is not empty and
    consists of capital letters, and the text of the box, trimmed and in
    capitals, begins with it; the query is empty or begins with a
    digit. *)
Theorem parseSearchInput_sound (subjects : gset string) (input subject query : string) :
  parseSearchInput subjects input = Some (subject, query) →
  subject ∈ subjects
  ∧ subject ≠ ""
  ∧ allChars isUpper subject = true
  ∧ String.prefix subject (normalize input) = true
  ∧ (query = "" ∨ ∃ d rest, query = String d rest ∧ isDigit d = true).
Proof.
  unfold parseSearchInput. destruct (String.eqb (normalize input) ""); [done|].
  destruct (spanUpper_spec (normalize input)) as [Hsplit Hupper].
  destruct (spanUpper (normalize input)) as [s rest]. cbn [fst snd] in Hsplit, Hupper.
  destruct (String.eqb_spec s "") as [|Hne]; [done|].
  destruct (trimStart rest) as [|d group2] eqn:Hg; cbn [negb].
  - case_bool_decide; cbn [negb]; [|done]. intros [= <- <-].
    split; [done|]. split; [done|]. split; [done|].
    split; [rewrite Hsplit; apply prefix_append|by left].
  - destruct (isDigit d) eqn:Hd; cbn [andb negb]; [|done].
    destruct (negb (anyChar isLineTerminator (String d group2))); cbn [negb]; [|done].
    case_bool_decide; cbn [negb]; [|done]. intros [= <- <-].
    split; [done|]. split; [done|]. split; [done|].
    split; [rewrite Hsplit; apply prefix_append|]. right.
    destruct (trim_head d group2 (isDigit_not_space d Hd)) as [s' ->]. by eexists _, _.
Qed.

(** [parseSearchInput_sound] on a text with blanks and small letters. *)
Lemma parseSearchInput_sound_witness :
  parseSearchInput ({["CS"; "MATH"]} : gset string) " cs 2110 " = Some ("CS", "2110")
  ∧ "CS" ∈ ({["CS"; "MATH"]} : gset string)
  ∧ allChars isUpper "CS" = true
  ∧ String.prefix "CS" (normalize " cs 2110 ") = true.
Proof.
  assert (H : parseSearchInput ({["CS"; "MATH"]} : gset string) " cs 2110 "
              = Some ("CS", "2110")) by (vm_compute; reflexivity).
  destruct (parseSearchInput_sound _ _ _ _ H) as (H1 & _ & H3 & H4 & _).
  split; [exact H|]. split; [exact H1|]. split; [exact H3|exact H4].
Defined.

(** X30.  [toggleCourse] is a switch: it changes whether the course is
    expanded and nothing else, and a second click on the same course
    restores the state. *)
Theorem toggleCourse_twice (courseId : string) st :
  let st' := toggleCourse courseId st in
  (courseId ∈ expandedCourses st' ↔ courseId ∉ expandedCourses st)
  ∧ (∀ other, other ≠ courseId →
       (other ∈ expandedCourses st' ↔ other ∈ expandedCourses st))
  ∧ set_expanded ∅ st' = set_expanded ∅ st
  ∧ toggleCourse courseId st' = st.
Proof.
  intros st'. subst st'. unfold toggleCourse.
  case_bool_decide as Hin.
  - rewrite bool_decide_false by set_solver.
    split; [set_solver|]. split; [set_solver|]. split; [done|].
    destruct st. unfold set_expanded. cbn in *. f_equal. apply set_eq. intros x.
    destruct (decide (x = courseId)); set_solver.
  - rewrite bool_decide_true by set_solver.
    split; [set_solver|]. split; [set_solver|]. split; [done|].
    destruct st. unfold set_expanded. cbn in *. f_equal. set_solver.
Qed.


End MoreSearchFacts.
